(** * deepdna.nn: masking, attention, chunked evaluation and attribution

    A shallow embedding of [src/deepdna/nn/layers.py] and
    [src/deepdna/nn/tools/attention_attribution.py].

    Conventions.
    - A [float32] is a [spec_float] of the Standard Library's IEEE 754
      specification at precision 24 and exponent bound 128; a [float64]
      is one at precision 53 and bound 1024.
    - Integer tensors hold [Z]; the only products formed on them are by
      0 and 1, so no wrap-around can occur.  [KmerEncoder] is the
      exception: its convolution multiplies [int32] values, and the
      wrap-around is written out there.
    - A Python exception is [None] in the [option] monad.
    - A random draw is an argument of the function that consumes it;
      the contract of the drawing operation is a hypothesis on it.
    - A Python [dict] is a [gmap], a Python [set] a [gset]; where the
      code iterates over a set, the order is that of a function [iter]
      the model takes as an argument, and every statement holds for
      every such function.
    - A loop that may not end takes a number of steps it is allowed. *)

From Stdlib Require Import ZArith List Bool Lia.
From Stdlib Require Import Floats.SpecFloat.
From stdpp Require Import base option list gmap strings pretty fin_maps fin_sets.

Local Open Scope Z_scope.

(** ** IEEE 754 arithmetic at the two formats the code uses *)

(** Tests and comparisons, the same at every format. *)
Module IEEE.

Definition is_nan (x : spec_float) : bool :=
  match x with S754_nan => true | _ => false end.

Definition is_zero (x : spec_float) : bool :=
  match x with S754_zero _ => true | _ => false end.


(** [x > y]; false as soon as one side is NaN. *)
Definition gt (x y : spec_float) : bool :=
  match SFcompare x y with Some Gt => true | _ => false end.

(** [x >= y]; false as soon as one side is NaN. *)
Definition ge (x y : spec_float) : bool :=
  match SFcompare x y with Some (Gt | Eq) => true | _ => false end.

End IEEE.

Module F32.

Definition prec : Z := 24.
Definition emax : Z := 128.

Definition mul : spec_float -> spec_float -> spec_float := SFmul prec emax.
Definition div : spec_float -> spec_float -> spec_float := SFdiv prec emax.
Definition add : spec_float -> spec_float -> spec_float := SFadd prec emax.

(** Modelled from the spec: [tfcast] of [deepdna/nn/utils.py], which is
    not among the sources; the spec calls it a thin numeric coercion
    helper, so it is [tf.cast].  At an integer and [float32]: round to
    nearest even. *)
Definition of_int (n : Z) : spec_float := binary_normalize prec emax n 0 false.

Definition one : spec_float := S754_finite false 8388608 (-23).
Definition half : spec_float := S754_finite false 8388608 (-24).
Definition zero : spec_float := S754_zero false.
Definition neg_zero : spec_float := S754_zero true.

Definition valid (x : spec_float) : bool := valid_binary prec emax x.



Definition in_int32 (z : Z) : bool := (-2147483648 <=? z) && (z <=? 2147483647).

(** [tfcast(x, tf.int32)], that is [tf.cast]: truncation toward zero.
    The result for NaN, the infinities and values outside the range of
    [int32] is left to the device, hence [None]. *)
Definition to_int32 (x : spec_float) : option Z :=
  match x with
  | S754_zero _ => Some 0
  | S754_finite s m e =>
      let z := cond_Zopp s (Z.shiftl (Zpos m) e) in
      if in_int32 z then Some z else None
  | _ => None
  end.

(** [tfcast(tf.math.ceil(x), tf.int32)]: the least integer not below [x]. *)
Definition ceil_to_int32 (x : spec_float) : option Z :=
  match x with
  | S754_zero _ => Some 0
  | S754_finite s m e =>
      let z := if s then - Z.shiftl (Zpos m) e else - Z.shiftl (Zneg m) e in
      if in_int32 z then Some z else None
  | _ => None
  end.

End F32.

Module F64.

Definition prec : Z := 53.
Definition emax : Z := 1024.

Definition add : spec_float -> spec_float -> spec_float := SFadd prec emax.

(** Widening a [float32]: exact, the mantissa is renormalised. *)
Definition of_f32 (x : spec_float) : spec_float :=
  match x with
  | S754_finite s m e => binary_round prec emax s m e
  | _ => x
  end.

Definition zero : spec_float := S754_zero false.
Definition neg_infinity : spec_float := S754_infinity true.

End F64.

(** ** [InvertMask] *)

Module InvertMask.

(** [compute_mask(inputs, mask=None)]: [None] stays [None], a mask is
    negated elementwise.  The mask is kept in row-major order. *)
Definition compute_mask {T : Type} (inputs : T) (mask : option (list bool))
  : option (list bool) :=
  match mask with
  | None => None
  | Some m => Some (negb <$> m)
  end.

(** [call(inputs) = inputs + 0] on an integer tensor. *)
Definition call (inputs : list Z) : list Z := (fun x => x + 0) <$> inputs.



End InvertMask.

(** ** [AttributableMultiHeadAttention] *)

Module AttributableMultiHeadAttention.

(** The state the subclass adds to Keras' layer. *)
Record layer := {
  _num_heads : nat;
  _key_dim : nat;
  _alpha : list spec_float
}.

(** [__init__]: [_alpha = [1.0] * num_heads]. *)
Definition init (num_heads key_dim : nat) : layer :=
  {| _num_heads := num_heads; _key_dim := key_dim;
     _alpha := replicate num_heads F32.one |}.

(** [reset_attention_attribution_weights]:
    [_alpha.assign([1.0] * _num_heads)]. *)
Definition reset_attention_attribution_weights (self : layer) : layer :=
  {| _num_heads := _num_heads self; _key_dim := _key_dim self;
     _alpha := replicate (_num_heads self) F32.one |}.

(** [set_attention_attribution_weight(head, alpha)]:
    [_alpha.scatter_nd_update([[head]], [alpha])].  An index outside
    [0 .. len(_alpha) - 1] is rejected by the scatter kernel. *)
Definition set_attention_attribution_weight
    (self : layer) (head : Z) (alpha : spec_float) : option layer :=
  if (0 <=? head) && (head <? Z.of_nat (length (_alpha self))) then
    Some {| _num_heads := _num_heads self; _key_dim := _key_dim self;
            _alpha := <[Z.to_nat head := alpha]> (_alpha self) |}
  else None.

(** Attention scores: batch, head, query position, key position. *)
Definition scores : Type := list (list (list (list spec_float))).

(** [tf.multiply(tf.reshape(_alpha, (1, -1, 1, 1)), attention_scores)]:
    entry [b, n, t, s] becomes [_alpha[n] * attention_scores[b, n, t, s]].
    The head axis of the scores has one entry per entry of [_alpha]. *)
Definition multiply_alpha (alpha : list spec_float)
    (attention_scores : list (list (list (list spec_float))))
  : list (list (list (list spec_float))) :=
  (fun heads : list (list (list spec_float)) =>
     zip_with (fun a (m : list (list spec_float)) =>
                 (fun row : list spec_float => F32.mul a <$> row) <$> m)
              alpha heads)
  <$> attention_scores.

Section ComputeAttention.
(** What [_compute_attention] takes from the Keras superclass and
    from TensorFlow: tensors of queries, keys and values, the scaling
    of the query by [1 / sqrt(key_dim)], the two einsum contractions,
    the masked softmax and the dropout layer. *)
Context {tensor mask : Type}.
Variable scale_query : nat -> tensor -> tensor.
Variable dot_product : tensor -> tensor -> scores.
Variable _masked_softmax : scores -> option mask -> scores.
Variable _dropout_layer : scores -> option bool -> scores.
Variable combine : scores -> tensor -> tensor.

(** [_compute_attention(query, key, value, attention_mask, training)]. *)
Definition _compute_attention (self : layer)
    (query key value : tensor) (attention_mask : option mask)
    (training : option bool) : tensor * scores :=
  let query := scale_query (_key_dim self) query in
  let attention_scores := dot_product key query in
  let attention_scores := _masked_softmax attention_scores attention_mask in
  let attention_scores := multiply_alpha (_alpha self) attention_scores in
  let attention_scores_dropout := _dropout_layer attention_scores training in
  let attention_output := combine attention_scores_dropout value in
  (attention_output, attention_scores).

(** Standard scaled dot-product multi-head attention, after the
    spec's words: the same pipeline with no per-head weight. *)
Definition standard_compute_attention (key_dim : nat)
    (query key value : tensor) (attention_mask : option mask)
    (training : option bool) : tensor * scores :=
  let query := scale_query key_dim query in
  let attention_scores := dot_product key query in
  let attention_scores := _masked_softmax attention_scores attention_mask in
  let attention_scores_dropout := _dropout_layer attention_scores training in
  let attention_output := combine attention_scores_dropout value in
  (attention_output, attention_scores).
End ComputeAttention.

End AttributableMultiHeadAttention.

(** ** Rank-2 tensors and the TensorFlow operations of the masking layers *)

Module TF.

(** A tensor of shape [(length rows, cols)]. *)
Record tensor2 (A : Type) := Tensor2 { cols : nat; rows : list (list A) }.
Arguments Tensor2 {A} _ _.
Arguments cols {A} _.
Arguments rows {A} _.

(** [t[b, p]] on the rows of a tensor. *)
Definition entry {A} (t : list (list A)) (b p : nat) : option A :=
  row ← t !! b; row !! p.

(** Every row has [cols] entries. *)
Definition well_shaped {A} (t : tensor2 A) : Prop :=
  Forall (fun r => length r = cols t) (rows t).

(** [tf.sequence_mask(lengths, maxlen)]: row [b] holds [p < lengths[b]]
    at each position [p] of [range(maxlen)]. *)
Definition sequence_mask (lengths : list Z) (maxlen : Z) : list (list bool) :=
  (fun n => (fun p => Z.of_nat p <? n) <$> seq 0 (Z.to_nat maxlen)) <$> lengths.

(** [tf.sequence_mask(lengths)]: [maxlen] defaults to the largest length. *)
Definition sequence_mask_default (lengths : list Z) : list (list bool) :=
  sequence_mask lengths (foldr Z.max 0 lengths).

Definition logical_not (m : list (list bool)) : list (list bool) :=
  (fun row : list bool => negb <$> row) <$> m.

Definition logical_or (x y : list (list bool)) : list (list bool) :=
  zip_with (zip_with orb) x y.

Definition logical_and (x y : list (list bool)) : list (list bool) :=
  zip_with (zip_with andb) x y.

(** [tfcast] (see [F32.of_int]) at a boolean tensor and an integer
    dtype: [True] is 1 and [False] is 0. *)
Definition tfcast_bool (m : list (list bool)) : list (list Z) :=
  (fun row : list bool => (fun b : bool => if b then 1 else 0) <$> row) <$> m.

(** [tf.multiply] and [+] of two integer tensors of one shape. *)
Definition multiply (x y : list (list Z)) : list (list Z) :=
  zip_with (zip_with Z.mul) x y.

Definition plus (x y : list (list Z)) : list (list Z) :=
  zip_with (zip_with Z.add) x y.

Definition ones_like (x : list (list Z)) : list (list Z) :=
  (fun row : list Z => (fun _ => 1) <$> row) <$> x.

(** [x + y] at a boolean tensor [x] and an [int32] tensor [y]:
    TensorFlow's addition has no kernel at [bool] and the two dtypes
    differ, so the operation raises. *)
Definition add_bool_int32 (x : list (list bool)) (y : list Z)
  : option (list (list bool)) := None.

End TF.

(** ** [ContiguousMask] *)

Module ContiguousMask.
Import TF.

Record layer := { mask_ratio : spec_float }.

(** [mask_len = tfcast(tfcast(seq_len, float32) * mask_ratio, int32)]. *)
Definition mask_len (self : layer) (seq_len : Z) : option Z :=
  F32.to_int32 (F32.mul (F32.of_int seq_len) (mask_ratio self)).

(** [call(inputs)].  [mask_offsets] is the draw of
    [tf.random.uniform((batch_size,), minval=0,
    maxval=seq_len - mask_len + 1, dtype=tf.int32)], which raises
    unless [minval < maxval]. *)
Definition call (self : layer) (mask_offsets : list Z) (inputs : tensor2 Z)
  : option (tensor2 Z) :=
  let seq_len := Z.of_nat (cols inputs) in
  mask_len ← mask_len self seq_len;
  if 0 <? seq_len - mask_len + 1 then
    let left := sequence_mask mask_offsets seq_len in
    let right :=
      logical_not (sequence_mask ((fun o => o + mask_len) <$> mask_offsets) seq_len) in
    let mask := tfcast_bool (logical_or left right) in
    Some (Tensor2 (cols inputs) (multiply mask (rows inputs)))
  else None.

(** The contract of the draw: [minval < maxval], one offset per row,
    each in [[minval, maxval)]. *)
Definition drawn (mask_offsets : list Z) (batch_size : nat) (maxval : Z) : Prop :=
  0 < maxval /\
  length mask_offsets = batch_size /\
  Forall (fun o => 0 <= o < maxval) mask_offsets.


End ContiguousMask.

(** ** [TrimAndContiguousMask] *)

Module TrimAndContiguousMask.
Import TF.

Record layer := { min_len : Z; max_len : Z; mask_ratio : spec_float }.

(** The four draws of one call: [lengths] from
    [tf.random.uniform(minval=min_len, maxval=max_len + 1, int32)],
    the other three from [tf.random.uniform((batch_size,))], which is
    a [float32] in [[0, 1)]. *)
Record draws := {
  u_lengths : list Z;
  u_offsets : list spec_float;
  u_mask_lengths : list spec_float;
  u_mask_offsets : list spec_float
}.

(** [tfcast(u * (tfcast(hi, float32) + 1.0), int32)]: how both the trim
    offset and the mask offset are placed in [0 .. hi]. *)
Definition place (u : spec_float) (hi : Z) : option Z :=
  F32.to_int32 (F32.mul u (F32.add (F32.of_int hi) F32.one)).

(** [offsets], from [max_offsets = max_len - lengths]. *)
Definition offsets (self : layer) (us : list spec_float) (lengths : list Z)
  : option (list Z) :=
  mapM (fun '(u, len) => place u (max_len self - len)) (zip us lengths).

(** [trim_mask]: true inside the window [offsets .. offsets + lengths - 1]. *)
Definition trim_mask (self : layer) (offsets lengths : list Z) : list (list bool) :=
  let left := logical_not (sequence_mask offsets (max_len self)) in
  let right := sequence_mask (zip_with Z.add offsets lengths) (max_len self) in
  logical_and left right.

(** One entry of [mask_lengths]:
    [tfcast(ceil(u * tfcast(length, float32) * mask_ratio), int32)]. *)
Definition mask_length (self : layer) (u : spec_float) (length : Z) : option Z :=
  F32.ceil_to_int32 (F32.mul (F32.mul u (F32.of_int length)) (mask_ratio self)).

Definition mask_lengths (self : layer) (us : list spec_float) (lengths : list Z)
  : option (list Z) :=
  mapM (fun '(u, len) => mask_length self u len) (zip us lengths).

(** [mask_offsets], from [max_mask_offsets = lengths - mask_lengths]. *)
Definition mask_offsets (us : list spec_float) (lengths mask_lengths : list Z)
  : option (list Z) :=
  mapM (fun '(u, hi) => place u hi) (zip us (zip_with Z.sub lengths mask_lengths)).

(** The last stage of [call], from [total_mask] on: zero what is
    masked or padded, then add the pad tokens. *)
Definition combine (trim_mask mask_mask : list (list bool)) (inputs : list (list Z))
  : list (list Z) :=
  let total_mask := tfcast_bool (logical_and trim_mask mask_mask) in
  let result := multiply total_mask inputs in
  let pad_tokens := multiply (ones_like inputs) (tfcast_bool (logical_not trim_mask)) in
  plus result pad_tokens.

(** [call(inputs)].  The second operand of [mask_mask] is written
    [tf.logical_not(tf.sequence_mask(offsets + mask_offsets) + mask_lengths,
    self.max_len)]: the sum of a boolean and an integer tensor. *)
Definition call (self : layer) (d : draws) (inputs : tensor2 Z)
  : option (tensor2 Z) :=
  let lengths := u_lengths d in
  offsets ← offsets self (u_offsets d) lengths;
  let trim_mask := trim_mask self offsets lengths in
  mask_lengths ← mask_lengths self (u_mask_lengths d) lengths;
  mask_offsets ← mask_offsets (u_mask_offsets d) lengths mask_lengths;
  let left := sequence_mask (zip_with Z.add offsets mask_offsets) (max_len self) in
  sum ← add_bool_int32
           (sequence_mask_default (zip_with Z.add offsets mask_offsets)) mask_lengths;
  let right := logical_not sum in
  let mask_mask := logical_or left right in
  Some (Tensor2 (cols inputs) (combine trim_mask mask_mask (rows inputs))).

(** The mask length in the spec's words: [ceil(mask_ratio * trimmed_length)]. *)
Definition spec_mask_length (self : layer) (length : Z) : option Z :=
  F32.ceil_to_int32 (F32.mul (mask_ratio self) (F32.of_int length)).

End TrimAndContiguousMask.


(** ** [ChunkedEmbeddingLayer] *)

Module ChunkedEmbeddingLayer.

(** A tensor of any rank: its shape and its entries in row-major order. *)
Record tensor (A : Type) := Tensor { shape : list nat; data : list A }.
Arguments Tensor {A} _ _.
Arguments shape {A} _.
Arguments data {A} _.

Definition numel (sh : list nat) : nat := foldr Nat.mul 1%nat sh.

Definition well_formed {A} (t : tensor A) : Prop :=
  length (data t) = numel (shape t).

Definition rank {A} (t : tensor A) : Z := Z.of_nat (length (shape t)).

(** [tf.shape(t)[0]], and the number of entries of one row. *)
Definition dim0 {A} (t : tensor A) : nat := hd 0%nat (shape t).
Definition row_size {A} (t : tensor A) : nat := numel (tl (shape t)).

(** Where a slice bound [k] falls in a sequence of [len] items: a
    negative bound counts from the end, and the result is clamped to
    [0 .. len]. *)
Definition bound (len : nat) (k : Z) : nat :=
  Z.to_nat (Z.min (Z.of_nat len) (Z.max 0 (if k <? 0 then Z.of_nat len + k else k))).

(** [s[:k]] and [s[k:]] on a shape vector. *)
Definition slice_to {A} (k : Z) (s : list A) : list A := take (bound (length s) k) s.
Definition slice_from {A} (k : Z) (s : list A) : list A := drop (bound (length s) k) s.

(** [t[a:b]] along the leading axis. *)
Definition slice0 {A} (a b : Z) (t : tensor A) : tensor A :=
  let start := bound (dim0 t) a in
  let stop := bound (dim0 t) b in
  Tensor ((stop - start)%nat :: tl (shape t))
         (take ((stop - start) * row_size t) (drop (start * row_size t) (data t))).

(** [t[:b]] along the leading axis. *)
Definition slice0_to {A} (b : Z) (t : tensor A) : tensor A := slice0 0 b t.

(** [tf.concat((x, y), axis=0)]: the trailing dimensions must agree. *)
Definition concat0 {A} (x y : tensor A) : option (tensor A) :=
  if decide (tl (shape x) = tl (shape y)) then
    Some (Tensor ((dim0 x + dim0 y)%nat :: tl (shape x)) (data x ++ data y))
  else None.

(** [tf.reshape(t, tf.concat(([-1], right), axis=0))]: the leading
    dimension is inferred, which needs the rest to be non-empty and to
    divide the number of entries. *)
Definition reshape_infer {A} (t : tensor A) (right : list nat) : option (tensor A) :=
  let r := numel right in
  if decide (r = 0%nat) then None
  else if decide ((length (data t) mod r)%nat = 0%nat) then
    Some (Tensor ((length (data t) / r)%nat :: right) (data t))
  else None.

(** [tf.reshape(t, sh)] at a fully given shape. *)
Definition reshape {A} (t : tensor A) (sh : list nat) : option (tensor A) :=
  if decide (numel sh = length (data t)) then Some (Tensor sh (data t)) else None.

(** [tf.stop_gradient]: the identity on values. *)
Definition stop_gradient {A} (t : tensor A) : tensor A := t.

(** [tf.while_loop(cond, body, loop_vars)], run for at most [fuel] tests
    of the condition. *)
Fixpoint while_loop {S : Type} (fuel : nat) (cond : S -> bool)
    (body : S -> option S) (loop_vars : S) : option S :=
  match fuel with
  | O => None
  | S fuel =>
      if cond loop_vars then
        s ← body loop_vars; while_loop fuel cond body s
      else Some loop_vars
  end.

Section Layer.
Context {A B : Type}.

Record layer := {
  sublayer : tensor A -> option bool -> tensor B;
  axis : Z;
  chunk_size : option Z;
  stop_gradient_flag : bool;
  swap_memory : bool
}.

(** [_batch_predict(inputs, training)], at [chunk_size = c].  The
    counter [i] is an [int32] tensor in the code and an integer here:
    the two agree as long as [i + chunk_size] stays within [int32], as
    it does for a [chunk_size] of 0, and for a positive one while the
    number of rows plus [chunk_size] is below [2^31]. *)
Definition _batch_predict (self : layer) (c : Z) (fuel : nat)
    (inputs : tensor A) (training : option bool) : option (tensor B) :=
  let i := c in
  let result := sublayer self (slice0_to c inputs) training in
  snd <$>
    while_loop fuel
      (fun '(i, _) => i <? Z.of_nat (dim0 inputs))
      (fun '(i, result) =>
         r ← concat0 result (sublayer self (slice0 i (i + c) inputs) training);
         Some (i + c, r))
      (i, result).

(** [call(inputs, training)]. *)
Definition call (self : layer) (fuel : nat)
    (inputs : tensor A) (training : option bool) : option (tensor B) :=
  let axis := if axis self <? 0 then rank inputs + axis self else axis self in
  let input_shape := shape inputs in
  let left := slice_to (axis + 1) input_shape in
  let right := slice_from (axis + 1) input_shape in
  inputs ← reshape_infer inputs right;
  result ←
    match chunk_size self with
    | None => Some (sublayer self inputs training)
    | Some c =>
        if Z.of_nat (dim0 inputs) <=? c then Some (sublayer self inputs training)
        else _batch_predict self c fuel inputs training
    end;
  let result := if stop_gradient_flag self then stop_gradient result else result in
  reshape result (left ++ tl (shape result)).



End Layer.
Arguments layer : clear implicits.

End ChunkedEmbeddingLayer.


(** ** [token_attribution] *)

Module attention_attribution.

(** The three states of the tree walk. *)
Inductive State := NotAppear | Appear | Fixed.

(** What the store holds under a key, once decoded: the record count,
    the metadata (the sequence of token names), the shape of the
    attribution tensor, its [float32] buffer, or anything else. *)
Inductive value :=
| Int (n : Z)
| Names (token_names : list string)
| Shape (dims : list nat)
| Floats (buffer : list spec_float)
| Pickled.

(** The key [f"{n}_{field}"]. *)
Definition key (n : nat) (field : string) : string :=
  pretty n +:+ "_" +:+ field.

(** A Python [for] loop whose body may raise. *)
Fixpoint for_each {A S : Type} (items : list A) (body : S -> A -> option S) (s : S)
  : option S :=
  match items with
  | [] => Some s
  | x :: items => s' ← body s x; for_each items body s'
  end.

(** [range(start, -1, -1)]: [start, start - 1, ..., 0]. *)
Definition range_down (start : Z) : list Z :=
  (fun k => start - Z.of_nat k) <$> seq 0 (Z.to_nat (start + 1)).

(** *** Reading the store *)

(** [store["length"] if "length" in store else len(store)//4]. *)
Definition store_length (store : gmap string value) : option nat :=
  match store !! "length" with
  | Some (Int n) => Some (Z.to_nat n)
  | Some _ => None
  | None => Some (size store / 4)%nat
  end.

(** [metadata_key(pickle.loads(store[f"{n}_metadata"]))]. *)
Definition token_names_of (metadata_key : list string -> list string)
    (store : gmap string value) (n : nat) : option (list string) :=
  match store !! key n "metadata" with
  | Some (Names m) => Some (metadata_key m)
  | _ => None
  end.

(** [pickle.loads(store[f"{n}_attr_shape"])]. *)
Definition shape_of (store : gmap string value) (n : nat) : option (list nat) :=
  match store !! key n "attr_shape" with
  | Some (Shape dims) => Some dims
  | _ => None
  end.

(** [np.frombuffer(store[f"{n}_attrs"], dtype=np.float32)]. *)
Definition buffer_of (store : gmap string value) (n : nat) : option (list spec_float) :=
  match store !! key n "attrs" with
  | Some (Floats buffer) => Some buffer
  | _ => None
  end.

(** [if token_name not in token_ids: token_ids[token_name] = len(token_ids)]. *)
Definition register (token_ids : gmap string Z) (token_name : string) : gmap string Z :=
  match token_ids !! token_name with
  | Some _ => token_ids
  | None => <[token_name := Z.of_nat (size token_ids)]> token_ids
  end.

(** The first loop: the identifiers of all token names of [length] records. *)
Definition collect_token_ids (metadata_key : list string -> list string)
    (store : gmap string value) (length : nat) : option (gmap string Z) :=
  for_each (seq 0 length)
    (fun token_ids n =>
       token_names ← token_names_of metadata_key store n;
       Some (foldl register token_ids token_names))
    ∅.

(** [[tau] * (shape0 - 1) + [0.0]]. *)
Definition taus_of (tau : spec_float) (shape0 : nat) : list spec_float :=
  replicate (shape0 - 1) tau ++ [F32.zero].

(** *** NumPy on the attribution tensor *)

(** [count] consecutive pieces of [size] entries. *)
Fixpoint chunks {A} (count size : nat) (l : list A) : list (list A) :=
  match count with
  | O => []
  | S count => take size l :: chunks count size (drop size l)
  end.

(** [buffer.reshape(shape)] at a shape of four dimensions: layer, head,
    row, column.  Any other rank makes a later step raise. *)
Definition reshape4 (buffer : list spec_float) (shape : list nat)
  : option (list (list (list (list spec_float)))) :=
  match shape with
  | [d0; d1; d2; d3] =>
      if decide (length buffer = (d0 * (d1 * (d2 * d3)))%nat) then
        Some ((fun layer : list spec_float =>
                 (fun head : list spec_float => chunks d2 d3 head)
                   <$> chunks d1 (d2 * d3) layer)
                <$> chunks d0 (d1 * (d2 * d3)) buffer)
      else None
  | _ => None
  end.

(** One layer of [np.sum(attrs, axis=1)]: the matrices of the heads
    added entry by entry, from a matrix of zeros on. *)
Definition sum_heads (d2 d3 : nat) (heads : list (list (list spec_float)))
  : list (list spec_float) :=
  foldl (fun acc head => zip_with (zip_with F32.add) acc head)
        (replicate d2 (replicate d3 F32.zero)) heads.

(** [m[1:, 1:]]: the row and the column of the class token removed. *)
Definition strip_class_token (m : list (list spec_float)) : list (list spec_float) :=
  (fun row : list spec_float => tail row) <$> tail m.

(** [np.max] of the entries in row-major order; raises when there is
    none, returns NaN when one is NaN. *)
Definition np_max (l : list spec_float) : option spec_float :=
  match l with
  | [] => None
  | x :: l =>
      Some (foldl (fun acc y => if IEEE.ge acc y || IEEE.is_nan acc then acc else y) x l)
  end.

(** [np.argmax]: the first NaN if there is one, else the first largest entry. *)
Fixpoint argmax_from (best : spec_float) (best_i i : nat) (l : list spec_float) : nat :=
  match l with
  | [] => best_i
  | x :: l =>
      if IEEE.is_nan best then best_i
      else if IEEE.ge best x then argmax_from best best_i (S i) l
      else argmax_from x i (S i) l
  end.

Definition np_argmax (l : list spec_float) : option nat :=
  match l with
  | [] => None
  | x :: l => Some (argmax_from x 0 1 l)
  end.

(** [np.argwhere] of a boolean matrix: the index pairs of the true
    entries, row by row. *)
Definition argwhere (m : list (list bool)) : list (nat * nat) :=
  concat (imap (fun i (row : list bool) =>
                  omap (fun '(j, b) => if b : bool then Some (i, j) else None)
                       (zip (seq 0 (length row)) row))
               m).

(** [_compute_token_attributions]: entry [i] adds up, in [float64],
    [attrs_by_layer[l, i, j]] over all layers [l] and all [j <> i].
    [num_tokens] is the number of columns; the compiled loop checks no
    bounds, so on layers with fewer rows than columns it reads past the
    row axis.  The model returns [None] there: it follows the code on
    layers that have a row for every column. *)
Definition _compute_token_attributions (num_tokens : nat)
    (attrs_by_layer : list (list (list spec_float))) : option (list spec_float) :=
  mapM (fun i =>
          for_each attrs_by_layer
            (fun attr_all_i (layer : list (list spec_float)) =>
               row ← layer !! i;
               for_each (seq 0 num_tokens)
                 (fun acc j =>
                    if decide (j = i) then Some acc
                    else x ← row !! j; Some (F64.add acc (F64.of_f32 x)))
                 attr_all_i)
            F64.zero)
       (seq 0 num_tokens).

(** *** Candidate edges *)

(** The quotient matrix [a_ij / max_attr_l]. *)
Definition normalized (a_ij : list (list spec_float)) (max_attr_l : spec_float)
  : list (list spec_float) :=
  (fun row : list spec_float => (fun a => F32.div a max_attr_l) <$> row) <$> a_ij.

(** [np.argwhere(a_ij / max_attr_l > tau)]. *)
Definition above_threshold (a_ij : list (list spec_float)) (tau : spec_float)
  : option (list (nat * nat)) :=
  max_attr_l ← np_max (concat a_ij);
  Some (argwhere ((fun row : list spec_float => (fun q => IEEE.gt q tau) <$> row)
                    <$> normalized a_ij max_attr_l)).

(** The pairs one record adds to the edge set of one layer:
    [(token_ids[token_names[i]], token_ids[token_names[j]])]. *)
Definition layer_edges (token_ids : gmap string Z) (token_names : list string)
    (a_ij : list (list spec_float)) (tau : spec_float) : option (list (Z * Z)) :=
  hits ← above_threshold a_ij tau;
  mapM (fun '(i, j) =>
          name_i ← token_names !! i; name_j ← token_names !! j;
          i_universal ← token_ids !! name_i; j_universal ← token_ids !! name_j;
          Some (i_universal, j_universal))
       hits.

(** *** The loop over the records *)

Record totals := {
  token_total_attrs : gmap Z spec_float;
  top_node : option Z;
  top_node_value : spec_float;
  edges_by_layer : list (gset (Z * Z))
}.

(** [token_total_attrs[token_ids[token_names[i]]] += value], on a
    [defaultdict(float)]. *)
Definition add_total (token_ids : gmap string Z) (token_names : list string)
    (acc : gmap Z spec_float) (i_value : nat * spec_float)
  : option (gmap Z spec_float) :=
  name ← token_names !! i_value.1;
  id ← token_ids !! name;
  Some (<[id := F64.add (default F64.zero (acc !! id)) i_value.2]> acc).

(** "Update the top node": the token of the largest attribution so far. *)
Definition update_top (token_ids : gmap string Z) (token_names : list string)
    (token_attrs : list spec_float) (max_value : spec_float) (acc : totals)
  : option (option Z * spec_float) :=
  if IEEE.gt max_value (top_node_value acc) then
    i ← np_argmax token_attrs;
    name ← token_names !! i;
    id ← token_ids !! name;
    Some (Some id, max_value)
  else Some (top_node acc, top_node_value acc).

(** The body of the loop at record [n]. *)
Definition process_record (metadata_key : list string -> list string)
    (store : gmap string value) (token_ids : gmap string Z) (taus : list spec_float)
    (acc : totals) (n : nat) : option totals :=
  shape ← shape_of store n;
  token_names ← token_names_of metadata_key store n;
  buffer ← buffer_of store n;
  attrs ← reshape4 buffer shape;
  let d2 := default 0%nat (shape !! 2%nat) in
  let d3 := default 0%nat (shape !! 3%nat) in
  let attrs_by_layer :=
    (fun heads : list (list (list spec_float)) =>
       strip_class_token (sum_heads d2 d3 heads)) <$> attrs in
  token_attrs ← _compute_token_attributions (d3 - 1) attrs_by_layer;
  token_total_attrs ←
    for_each (imap pair token_attrs) (add_total token_ids token_names)
             (token_total_attrs acc);
  max_value ← np_max token_attrs;
  top ← update_top token_ids token_names token_attrs max_value acc;
  edges_by_layer ←
    mapM (fun '(l, (tau, edges)) =>
            a_ij ← attrs_by_layer !! l;
            new ← layer_edges token_ids token_names a_ij tau;
            Some (edges ∪ list_to_set new))
         (imap pair (zip taus (edges_by_layer acc)));
  Some {| token_total_attrs := token_total_attrs;
          top_node := top.1; top_node_value := top.2;
          edges_by_layer := edges_by_layer |}.

(** *** The tree walk *)

Record walk := Walk {
  state : gmap Z State;
  edges : gset (Z * Z);
  vertices : gset Z
}.

(** [edges.add((i, j)); vertices.add(j); state[j] = Appear], after
    [state[i] = Fixed] when [i] was [Appear]. *)
Definition attach (t : walk) (i j : Z) (fix_i : bool) : walk :=
  let st := if fix_i then <[i := Fixed]> (state t) else state t in
  Walk (<[j := Appear]> st) ({[ (i, j) ]} ∪ edges t) ({[ j ]} ∪ vertices t).

(** The body of the inner loop at the pair [(i, j)]. *)
Definition visit (t : walk) (e : Z * Z) : option walk :=
  let '(i, j) := e in
  if decide (i = j) then Some t
  else
    s_i ← state t !! i;
    t ← match s_i with
        | Appear =>
            s_j ← state t !! j;
            match s_j with
            | NotAppear => Some (attach t i j true)
            | _ => Some t
            end
        | _ => Some t
        end;
    s_i ← state t !! i;
    match s_i with
    | Fixed =>
        s_j ← state t !! j;
        match s_j with
        | NotAppear => Some (attach t i j false)
        | _ => Some t
        end
    | _ => Some t
    end.

(** The layers the walk goes through: [range(len(taus) - 2, -1, -1)]. *)
Definition walk_layers (len_taus : nat) : list Z :=
  range_down (Z.of_nat len_taus - 2).

(** The walk.  [iter] enumerates a Python set in the order the
    interpreter would. *)
Definition tree_walk (iter : gset (Z * Z) -> list (Z * Z)) (len_taus : nat)
    (edges_by_layer : list (gset (Z * Z))) (t : walk) : option walk :=
  for_each (walk_layers len_taus)
    (fun t l =>
       layer ← edges_by_layer !! Z.to_nat l;
       for_each (iter layer) visit t)
    t.

(** [state = {id: NotAppear for id in token_ids.values()}],
    [state[top_node] = Appear], [edges = set()],
    [vertices = set([top_node])]. *)
Definition start (ids : gset Z) (top_node : Z) : walk :=
  Walk (<[top_node := Appear]> (gset_to_gmap NotAppear ids)) ∅ {[ top_node ]}.

(** "Inject class token identifier": the vertex [-1], and an edge from
    it to every token that appeared. *)
Definition inject_class_token (t : walk) : option walk :=
  for_each (range_down (Z.of_nat (size (state t)) - 1))
    (fun t j =>
       s_j ← state t !! j;
       match s_j with
       | Appear | Fixed => Some (Walk (state t) ({[ (-1, j) ]} ∪ edges t) (vertices t))
       | NotAppear => Some t
       end)
    (Walk (state t) (edges t) ({[ -1 ]} ∪ vertices t)).

(** The tree of a walk from [top_node] over the candidate edges. *)
Definition attribution_tree (iter : gset (Z * Z) -> list (Z * Z)) (ids : gset Z)
    (top_node : Z) (len_taus : nat) (edges_by_layer : list (gset (Z * Z)))
  : option walk :=
  t ← tree_walk iter len_taus edges_by_layer (start ids top_node);
  inject_class_token t.

(** *** [token_attribution] *)

Record attribution := {
  token_id_map : gmap Z string;
  token_attrs : gmap Z spec_float;
  tree_edges : gset (Z * Z);
  tree_vertices : gset Z
}.

(** [token_attribution], from the line after [length] is known. *)
Definition token_attribution_from (metadata_key : list string -> list string)
    (iter : gset (Z * Z) -> list (Z * Z))
    (store : gmap string value) (tau : spec_float) (length : nat)
  : option attribution :=
  token_ids ← collect_token_ids metadata_key store length;
  shape ← shape_of store 0;
  shape0 ← head shape;
  let taus := taus_of tau shape0 in
  acc ← for_each (seq 0 length) (process_record metadata_key store token_ids taus)
        {| token_total_attrs := ∅; top_node := None;
           top_node_value := F64.neg_infinity;
           edges_by_layer := replicate (Datatypes.length taus) ∅ |};
  top_node ← top_node acc;
  t ← attribution_tree iter (map_img token_ids) top_node (Datatypes.length taus)
        (edges_by_layer acc);
  Some {| token_id_map :=
            <[-1 := "[CLS]"]>
              (list_to_map ((fun kv : string * Z => (kv.2, kv.1)) <$> map_to_list token_ids));
          token_attrs := token_total_attrs acc;
          tree_edges := edges t;
          tree_vertices := vertices t |}.

(** [token_attribution(attribution_path, metadata_key, tau)]. *)
Definition token_attribution (metadata_key : list string -> list string)
    (iter : gset (Z * Z) -> list (Z * Z))
    (store : gmap string value) (tau : spec_float) : option attribution :=
  length ← store_length store;
  token_attribution_from metadata_key iter store tau length.

End attention_attribution.

(** ** Tensors of rank 3 *)

Module TF3.

(** A tensor of shape [(length items, len, dim)]: a batch of sequences
    of [len] vectors of [dim] entries. *)
Record tensor3 (A : Type) := Tensor3 {
  len : nat;
  dim : nat;
  items : list (list (list A))
}.
Arguments Tensor3 {A} _ _ _.
Arguments len {A} _.
Arguments dim {A} _.
Arguments items {A} _.

(** Every sequence has [len] vectors, every vector [dim] entries. *)
Definition well_shaped {A} (t : tensor3 A) : Prop :=
  Forall (fun s : list (list A) =>
            length s = len t /\ Forall (fun v => length v = dim t) s)
         (items t).

End TF3.

(** ** [KmerEncoder] *)

Module KmerEncoder.
Import TF.

Record layer := {
  kmer : Z;
  include_mask_token : bool;
  overlap : bool;
  padding : string;
  num_bases : Z
}.

(** The value an [int32] operation keeps of the exact result [z]:
    two's complement wrap-around.  Wrapping after every product and sum
    gives the same value as wrapping the exact result once. *)
Definition int32 (z : Z) : Z := (z + 2147483648) mod 4294967296 - 2147483648.

(** [self.kernel]: [num_bases ** tf.range(kmer - 1, -1, -1, dtype=tf.int32)],
    the powers [num_bases^(kmer-1), ..., num_bases^0]. *)
Definition kernel (self : layer) : list Z :=
  (fun e => int32 (num_bases self ^ e))
    <$> attention_attribution.range_down (kmer self - 1).

(** One output of the convolution: the window times the kernel. *)
Definition dot (window kernel : list Z) : Z :=
  int32 (foldr Z.add 0 (zip_with Z.mul window kernel)).

(** The outputs of one row: window [p] starts at [p * stride]. *)
Definition conv1d_row (row kernel : list Z) (stride count : nat) : list Z :=
  (fun p => dot (take (length kernel) (drop (p * stride) row)) kernel) <$> seq 0 count.

(** [tf.nn.conv1d(inputs, kernel, stride, padding)] at one input and
    one output channel.  ["VALID"] takes the windows that lie inside
    the row, and the shape function rejects a row shorter than the
    kernel; ["SAME"] pads the row with zeros on both sides, the odd
    zero on the right.  A kernel without entries, a stride below 1 and
    any other padding are rejected. *)
Definition conv1d (inputs : tensor2 Z) (kernel : list Z) (stride : Z) (padding : string)
  : option (tensor2 Z) :=
  let width := cols inputs in
  let k := length kernel in
  if decide (k = 0%nat \/ stride <= 0) then None
  else if decide (padding = "VALID") then
    if decide (width < k)%nat then None
    else
      let count := ((width - k) / Z.to_nat stride + 1)%nat in
      Some (Tensor2 count
              ((fun row => conv1d_row row kernel (Z.to_nat stride) count) <$> rows inputs))
  else if decide (padding = "SAME") then
    let count := ((width + Z.to_nat stride - 1) / Z.to_nat stride)%nat in
    let total := ((count - 1) * Z.to_nat stride + k - width)%nat in
    let before := (total / 2)%nat in
    Some (Tensor2 count
            ((fun row =>
                conv1d_row (replicate before 0 ++ row ++ replicate (total - before) 0)
                           kernel (Z.to_nat stride) count)
               <$> rows inputs))
  else None.

(** [call(inputs)], on the identifiers of the bases as [int32]. *)
Definition call (self : layer) (inputs : tensor2 Z) : option (tensor2 Z) :=
  let stride := if overlap self then 1 else kmer self in
  encoded ← conv1d inputs (kernel self) stride (padding self);
  Some (if include_mask_token self then
          Tensor2 (cols encoded)
            ((fun row : list Z => (fun x => int32 (x + 1)) <$> row) <$> rows encoded)
        else encoded).

End KmerEncoder.

(** ** [RelativeMultiHeadAttention] *)

Module RelativeMultiHeadAttention.
Import TF.

(** [_skew(QEr)] on the matrix of one batch entry and one head, of
    shape [(T, E)]: a column of zeros is put in front, the [T * (E + 1)]
    entries are read again as [E + 1] rows of [T] entries, and the first
    of these rows is dropped.  The reshape keeps the two leading axes,
    so the matrices of the tensor are treated one by one. *)
Definition _skew {A} (zero : A) (QEr : tensor2 A) : tensor2 A :=
  let padded := (fun row : list A => zero :: row) <$> rows QEr in
  let reshaped :=
    attention_attribution.chunks (S (cols QEr)) (length (rows QEr)) (concat padded) in
  Tensor2 (length (rows QEr)) (tail reshaped).

End RelativeMultiHeadAttention.

(** ** [EmbeddingWithClassToken] *)

Module EmbeddingWithClassToken.
Import TF TF3.

(** [embeddings] is the table of the Keras [Embedding] layer, one row
    of [embed_dim] entries for each of [num_tokens + 1] identifiers. *)
Record layer (A : Type) := {
  num_tokens : Z;
  embed_dim : nat;
  mask_zero : bool;
  embeddings : list (list A)
}.
Arguments num_tokens {A} _.
Arguments embed_dim {A} _.
Arguments mask_zero {A} _.
Arguments embeddings {A} _.

(** The row of the table at an identifier; one outside the table is
    rejected. *)
Definition embedding {A} (self : layer A) (id : Z) : option (list A) :=
  if 0 <=? id then embeddings self !! Z.to_nat id else None.

(** [call(inputs)]: [token_id = [[num_tokens]]] is put in front of
    every row, and the identifiers are looked up. *)
Definition call {A} (self : layer A) (inputs : tensor2 Z) : option (tensor3 A) :=
  vectors ← mapM (fun row : list Z => mapM (embedding self) (num_tokens self :: row))
                 (rows inputs);
  Some (Tensor3 (S (cols inputs)) (embed_dim self) vectors).

(** [compute_output_shape(input_shape)]: the entries of
    [input_shape[:-1]], then [input_shape[-1] + 1] and [embed_dim]. *)
Definition compute_output_shape {A} (self : layer A) (input_shape : list Z)
  : option (list Z) :=
  final ← last input_shape;
  Some (ChunkedEmbeddingLayer.slice_to (-1) input_shape
          ++ [final + 1; Z.of_nat (embed_dim self)]).

End EmbeddingWithClassToken.

(** ** [InjectClassToken] and [SplitClassToken] *)

Module InjectClassToken.
Import TF TF3.

(** [class_token] is the weight of shape [(1, 1, embed_dim)]. *)
Record layer (A : Type) := {
  embed_dim : nat;
  class_token : list A
}.
Arguments embed_dim {A} _.
Arguments class_token {A} _.

(** [compute_mask(inputs, mask)]: no mask stays no mask; a mask gets a
    column of [True] in front, which needs one row per batch entry. *)
Definition compute_mask {A} (inputs : tensor3 A) (mask : option (tensor2 bool))
  : option (option (tensor2 bool)) :=
  match mask with
  | None => Some None
  | Some m =>
      if decide (length (rows m) = length (items inputs)) then
        Some (Some (Tensor2 (S (cols m)) ((fun row : list bool => true :: row) <$> rows m)))
      else None
  end.

(** [call(inputs)]: the class token in front of every sequence; the
    concatenation needs vectors of [embed_dim] entries. *)
Definition call {A} (self : layer A) (inputs : tensor3 A) : option (tensor3 A) :=
  if decide (dim inputs = embed_dim self) then
    Some (Tensor3 (S (len inputs)) (dim inputs)
            ((fun s : list (list A) => class_token self :: s) <$> items inputs))
  else None.

End InjectClassToken.

Module SplitClassToken.
Import TF TF3.

(** [compute_mask(inputs, mask)]: [None], or the pair of [None] and
    [mask[:, 1:]]. *)
Definition compute_mask (mask : option (tensor2 bool))
  : option (option (tensor2 bool) * tensor2 bool) :=
  match mask with
  | None => None
  | Some m =>
      Some (None, Tensor2 (cols m - 1) ((fun row : list bool => tail row) <$> rows m))
  end.

(** [call(inputs)]: [inputs[:, 0, :]] and [inputs[:, 1:, :]]; the index
    0 is out of bounds on an empty sequence axis. *)
Definition call {A} (inputs : tensor3 A) : option (tensor2 A * tensor3 A) :=
  if decide (len inputs = 0%nat) then None
  else
    token ← mapM head (items inputs);
    Some (Tensor2 (dim inputs) token,
          Tensor3 (len inputs - 1) (dim inputs)
            ((fun s : list (list A) => tail s) <$> items inputs)).

(** [compute_output_shape(input_shape)]. *)
Definition compute_output_shape (input_shape : list Z) : option (list Z * list Z) :=
  s0 ← input_shape !! 0%nat;
  s2 ← input_shape !! 2%nat;
  s1 ← input_shape !! 1%nat;
  Some ([s0; s2], [s0; s1 - 1; s2]).

End SplitClassToken.

(** ** [SetMask] *)

Module SetMask.
Import TF3.

(** [mask_embeddings] is the weight of shape
    [(1, num_mask_tokens, embed_dim)]; [mask_ratio] is a Python float. *)
Record layer (A : Type) := {
  embed_dim : nat;
  set_size : Z;
  mask_ratio : spec_float;
  mask_embeddings : list (list A)
}.
Arguments embed_dim {A} _.
Arguments set_size {A} _.
Arguments mask_ratio {A} _.
Arguments mask_embeddings {A} _.

(** [num_mask_tokens]: [int(set_size * mask_ratio)].  The integer is
    converted to a [float64], the product is rounded, and [int]
    truncates toward zero; it raises on NaN and on the infinities. *)
Definition num_mask_tokens {A} (self : layer A) : option Z :=
  match SFmul F64.prec F64.emax
          (binary_normalize F64.prec F64.emax (set_size self) 0 false)
          (mask_ratio self) with
  | S754_zero _ => Some 0
  | S754_finite s m e => Some (cond_Zopp s (Z.shiftl (Zpos m) e))
  | _ => None
  end.

(** [call(inputs)]: [inputs[:, :set_size - num_mask_tokens, :]]
    followed by the mask embeddings; the concatenation needs vectors of
    one size. *)
Definition call {A} (self : layer A) (inputs : tensor3 A) : option (tensor3 A) :=
  k ← num_mask_tokens self;
  let stop := ChunkedEmbeddingLayer.bound (len inputs) (set_size self - k) in
  if decide (dim inputs = embed_dim self) then
    Some (Tensor3 (stop + length (mask_embeddings self)) (dim inputs)
            ((fun s : list (list A) => take stop s ++ mask_embeddings self)
               <$> items inputs))
  else None.

(** [masked_embeddings(inputs)]: [inputs[:, -num_mask_tokens:, :]]. *)
Definition masked_embeddings {A} (self : layer A) (inputs : tensor3 A)
  : option (tensor3 A) :=
  k ← num_mask_tokens self;
  let start := ChunkedEmbeddingLayer.bound (len inputs) (- k) in
  Some (Tensor3 (len inputs - start) (dim inputs)
          ((fun s : list (list A) => drop start s) <$> items inputs)).

End SetMask.

(** ** [SampleSet] *)

Module SampleSet.
Import TF TF3.

Record layer := {
  max_set_size : nat;
  embed_dim : nat
}.

(** Where [x] goes in a list kept in descending order: in front of the
    first entry that is not larger. *)
Fixpoint insert_desc (x : nat * spec_float) (l : list (nat * spec_float))
  : list (nat * spec_float) :=
  match l with
  | [] => [x]
  | y :: l' => if IEEE.ge x.2 y.2 then x :: l else y :: insert_desc x l'
  end.

(** The indices of [tf.nn.top_k(row, k)]: those of the [k] largest
    entries, largest first, the lower index first among equal entries. *)
Definition top_k_indices (row : list spec_float) (k : nat) : list nat :=
  take k (fst <$> foldr insert_desc [] (imap pair row)).

(** [call(sizes)], on the sizes as [int32].  [initial_set] is the draw
    of [tf.random.normal] at
    the shape [(batch_size, max_set_size, embed_dim)], [uniform] that
    of [tf.random.uniform] at [(batch_size, max_set_size)].  [sizes[0]]
    needs a batch entry, [top_k] a [k] between 0 and the number of
    columns, and the reshape to [(-1, n)] cannot infer its first
    dimension when [n] is 0. *)
Definition call {A} (self : layer) (sizes : list Z)
    (initial_set : tensor3 A) (uniform : tensor2 spec_float) : option (tensor3 A) :=
  n ← head sizes;
  if decide (n < 0 \/ Z.of_nat (max_set_size self) < n) then None
  else if decide (n = 0) then None
  else
    let random_indices :=
      (fun row : list spec_float => top_k_indices row (Z.to_nat n)) <$> rows uniform in
    sampled ←
      mapM (fun '(s, indices) => mapM (fun i : nat => (s : list (list A)) !! i) indices)
           (zip (items initial_set) random_indices);
    Some (Tensor3 (Z.to_nat n) (embed_dim self) sampled).

End SampleSet.

(** ** [build_attribution_tree] *)

Module graphviz.

(** What the code puts into a [Digraph]: the node statements, the edge
    statements, each in the order of the calls, and the graph
    attributes. *)
Record Digraph := {
  nodes : list string;
  edges : list (string * string);
  graph_attr : gmap string string
}.

End graphviz.

Module attribution_graph.

(** [build_attribution_tree(vertices, edges, node_labels)].  [iter_v]
    and [iter_e] enumerate the two collections in the order Python
    would; a vertex without a label raises. *)
Definition build_attribution_tree
    (iter_v : gset Z -> list Z) (iter_e : gset (Z * Z) -> list (Z * Z))
    (vertices : gset Z) (edges : gset (Z * Z)) (node_labels : gmap Z string)
  : option graphviz.Digraph :=
  nodes ← mapM (fun vertex => node_labels !! vertex) (iter_v vertices);
  drawn ←
    attention_attribution.for_each (iter_e edges)
      (fun (acc : gset (string * string) * list (string * string)) '(i, j) =>
         i ← node_labels !! i;
         j ← node_labels !! j;
         if decide ((i, j) ∈ acc.1) then Some acc
         else Some ({[ (i, j) ]} ∪ acc.1, acc.2 ++ [(j, i)]))
      (∅, []);
  Some {| graphviz.nodes := nodes;
          graphviz.edges := drawn.2;
          graphviz.graph_attr := {[ "rankdir" := "BT" ]} |}.

End attribution_graph.


(** ** Notions the statements and the proofs are phrased in *)

(** A sub-layer that depends on the batch it is given: it replaces each
    entry by the number of rows of the batch. *)
Definition batch_size_layer
    (x : ChunkedEmbeddingLayer.tensor Z) (training : option bool)
  : ChunkedEmbeddingLayer.tensor Z :=
  ChunkedEmbeddingLayer.Tensor (ChunkedEmbeddingLayer.shape x)
    ((fun _ => Z.of_nat (ChunkedEmbeddingLayer.dim0 x)) <$> ChunkedEmbeddingLayer.data x).


(** [ChunkedEmbeddingLayer(f, axis=-2, chunk_size=c)]. *)
Definition chunked (f : ChunkedEmbeddingLayer.tensor Z -> option bool ->
                        ChunkedEmbeddingLayer.tensor Z) (c : option Z)
  : ChunkedEmbeddingLayer.layer Z Z :=
  {| ChunkedEmbeddingLayer.sublayer := f;
     ChunkedEmbeddingLayer.axis := -2;
     ChunkedEmbeddingLayer.chunk_size := c;
     ChunkedEmbeddingLayer.stop_gradient_flag := false;
     ChunkedEmbeddingLayer.swap_memory := false |}.

(** A value that is not negative: its sign bit, if it has one, is clear. *)
Definition not_negative (x : spec_float) : Prop :=
  match x with
  | S754_zero s | S754_infinity s | S754_finite s _ _ => s = false
  | S754_nan => True
  end.



(** Scores whose head axis has [n] entries and whose entries are
    [float32] values. *)
Definition scores_of (n : nat) (s : list (list (list (list spec_float)))) : Prop :=
  Forall (fun heads : list (list (list spec_float)) =>
            length heads = n
            /\ Forall (Forall (Forall (fun x => F32.valid x = true))) heads) s.


Section Notions1.
Import TF.

(** One row of the 0/1 mask of [ContiguousMask]: 0 on the span
    [off .. off + k - 1], 1 elsewhere. *)
Definition span_mask_row (off k : Z) (len : nat) : list Z :=
  (fun b : bool => if b then 1 else 0)
    <$> zip_with orb ((fun p => Z.of_nat p <? off) <$> seq 0 len)
                     (negb <$> ((fun p => Z.of_nat p <? off + k) <$> seq 0 len)).

End Notions1.

(** A [TrimAndContiguousMask] layer, the draws of one call on a batch
    of one row, and that batch: a trimmed length of 3 and the three
    uniform draws at 0.5. *)
Definition example_trim : TrimAndContiguousMask.layer :=
  {| TrimAndContiguousMask.min_len := 2;
     TrimAndContiguousMask.max_len := 4;
     TrimAndContiguousMask.mask_ratio := F32.half |}.

Definition example_draws : TrimAndContiguousMask.draws :=
  {| TrimAndContiguousMask.u_lengths := [3];
     TrimAndContiguousMask.u_offsets := [F32.half];
     TrimAndContiguousMask.u_mask_lengths := [F32.half];
     TrimAndContiguousMask.u_mask_offsets := [F32.half] |}.

Definition example_tokens : TF.tensor2 Z := TF.Tensor2 4 [[5; 6; 7; 8]].

(** A store of one record and no ["length"]: two layers, one head, the
    class token and the tokens ["a"] and ["b"]. *)
Definition example_store : gmap string attention_attribution.value :=
  <[attention_attribution.key 0 "x" := attention_attribution.Pickled]>
   (<[attention_attribution.key 0 "metadata" := attention_attribution.Names ["a"; "b"]]>
    (<[attention_attribution.key 0 "attr_shape" :=
         attention_attribution.Shape [2; 1; 3; 3]%nat]>
     (<[attention_attribution.key 0 "attrs" :=
          attention_attribution.Floats
            (F32.of_int <$> [0; 0; 0;  0; 1; 5;  0; 2; 1;
                             0; 0; 0;  0; 1; 0;  0; 3; 1])]> ∅))).

(** The default threshold, 0.4 at [float32]. *)
Definition tau_default : spec_float := F32.div (F32.of_int 4) (F32.of_int 10).

Section Notions2.
Import attention_attribution.



(** The identifiers [0 .. n - 1]. *)
Definition id_range (n : nat) : gset Z := list_to_set (Z.of_nat <$> seq 0 n).

(** A token has appeared once its state is [Appear] or [Fixed]. *)
Definition appeared (t : walk) (v : Z) : Prop :=
  state t !! v = Some Appear \/ state t !! v = Some Fixed.

(** What the walk keeps true: the vertices are the tokens that
    appeared; every edge joins two vertices, does not enter [top] and
    goes up in [rank], the order of appearance; and every vertex but
    [top] has one parent. *)
Definition walk_inv (top : Z) (t : walk) (rank : Z -> nat) (bound : nat) : Prop :=
  (forall v, v ∈ vertices t <-> appeared t v)
  /\ top ∈ vertices t
  /\ (forall i j, (i, j) ∈ edges t ->
        i ∈ vertices t /\ j ∈ vertices t /\ j <> top /\ (rank i < rank j)%nat)
  /\ (forall j, j ∈ vertices t -> j <> top -> exists i, forall k, (k, j) ∈ edges t <-> k = i)
  /\ (forall v, v ∈ vertices t -> (rank v < bound)%nat).

(** The invariant with its witnesses hidden, and the keys of [state]. *)
Definition walk_ok (top : Z) (keys : gset Z) (t : walk) : Prop :=
  (exists rank bound, walk_inv top t rank bound) /\ dom (state t) = keys.

(** The identifiers handed out are [0 .. len(token_ids) - 1]. *)
Definition numbered (token_ids : gmap string Z) : Prop :=
  map_img token_ids = id_range (size token_ids).

End Notions2.

(** ** Notions of the further properties *)

(** A finite value: neither NaN nor an infinity. *)
Definition finite (x : spec_float) : Prop :=
  match x with
  | S754_zero _ | S754_finite _ _ _ => True
  | _ => False
  end.

(** No two token names share an identifier. *)
Definition one_to_one (token_ids : gmap string Z) : Prop :=
  forall name1 name2 id,
    token_ids !! name1 = Some id -> token_ids !! name2 = Some id -> name1 = name2.

(** An edge of the tree that leaves a token, not the class token. *)
Definition token_edge (es : gset (Z * Z)) (a b : Z) : Prop :=
  (a, b) ∈ es /\ a <> -1.

(** The totals before the first record. *)
Definition no_totals (len_taus : nat) : attention_attribution.totals :=
  {| attention_attribution.token_total_attrs := ∅;
     attention_attribution.top_node := None;
     attention_attribution.top_node_value := F64.neg_infinity;
     attention_attribution.edges_by_layer := replicate len_taus ∅ |}.

(** The layers with every diagonal entry [a[l, i, i]] replaced by [d]. *)
Definition set_diagonal (d : spec_float) (attrs_by_layer : list (list (list spec_float)))
  : list (list (list spec_float)) :=
  (fun layer : list (list spec_float) =>
     imap (fun i (row : list spec_float) => <[i := d]> row) layer)
  <$> attrs_by_layer.

(** The number a window of bases spells at the base [nb], the first
    base being the most significant digit. *)
Definition kmer_value (nb : Z) (window : list Z) : Z :=
  foldl (fun acc b => acc * nb + b) 0 window.

(** An input the encoder is made for: windows of at least one base, all
    k-mer numbers within [int32], no padding, rows of one length that
    hold a window, and bases in [0 .. num_bases - 1]. *)
Definition encodable (self : KmerEncoder.layer) (inputs : TF.tensor2 Z) : Prop :=
  1 <= KmerEncoder.kmer self
  /\ 1 <= KmerEncoder.num_bases self
  /\ KmerEncoder.num_bases self ^ KmerEncoder.kmer self < 2147483648
  /\ KmerEncoder.padding self = "VALID"
  /\ TF.well_shaped inputs
  /\ KmerEncoder.kmer self <= Z.of_nat (TF.cols inputs)
  /\ Forall (Forall (fun x => 0 <= x < KmerEncoder.num_bases self)) (TF.rows inputs).

(** The step from one window to the next, and the number of windows. *)
Definition kmer_stride (self : KmerEncoder.layer) : nat :=
  if KmerEncoder.overlap self then 1%nat else Z.to_nat (KmerEncoder.kmer self).

Definition kmer_count (self : KmerEncoder.layer) (width : nat) : nat :=
  ((width - Z.to_nat (KmerEncoder.kmer self)) / kmer_stride self + 1)%nat.

(** Window [p] of a row, and what the encoder adds to every number. *)
Definition kmer_window (self : KmerEncoder.layer) (row : list Z) (p : nat) : list Z :=
  take (Z.to_nat (KmerEncoder.kmer self)) (drop (p * kmer_stride self) row).

Definition kmer_shift (self : KmerEncoder.layer) : Z :=
  if KmerEncoder.include_mask_token self then 1 else 0.

(** The encoder at its defaults for 3-mers, and a batch of one row. *)
Definition kmer3 : KmerEncoder.layer :=
  {| KmerEncoder.kmer := 3; KmerEncoder.include_mask_token := true;
     KmerEncoder.overlap := true; KmerEncoder.padding := "VALID";
     KmerEncoder.num_bases := 4 |}.

Definition example_bases : TF.tensor2 Z := TF.Tensor2 5 [[0; 1; 2; 3; 0]].

(** A [SetMask] layer for sets of four vectors of two entries at the
    ratio 0.5, and a batch of one set. *)
Definition example_set_mask : SetMask.layer Z :=
  {| SetMask.embed_dim := 2; SetMask.set_size := 4;
     SetMask.mask_ratio := S754_finite false 4503599627370496 (-53);
     SetMask.mask_embeddings := [[-1; -1]; [-2; -2]] |}.

Definition example_set : TF3.tensor3 Z :=
  TF3.Tensor3 4 2 [[[1; 1]; [2; 2]; [3; 3]; [4; 4]]].

(** Layers of [n] rows and [n] columns. *)
Definition square_layers (n : nat) (attrs_by_layer : list (list (list spec_float)))
  : Prop :=
  Forall (fun layer : list (list spec_float) =>
            length layer = n /\ Forall (fun row => length row = n) layer)
         attrs_by_layer.



(** * Properties *)

(** ** [ChunkedEmbeddingLayer]: chunked against single-shot evaluation *)

Section ChunkedEmbeddingLayerFacts.
Import ChunkedEmbeddingLayer.
Context {A B : Type}.








End ChunkedEmbeddingLayerFacts.







(** ** IEEE 754 facts the layers rely on *)

Section FloatFacts.

(** Multiplying by [1.0] on the left returns the other factor, bit for bit. *)
Lemma round_aux_one (s : bool) (m : positive) (e : Z) :
  bounded F32.prec F32.emax m e = true ->
  binary_round_aux F32.prec F32.emax s (Zpos (8388608 * m)) (-23 + e) loc_Exact
  = S754_finite s m e.
Proof.
  unfold F32.prec, F32.emax, bounded, canonical_mantissa. intros H.
  apply andb_prop in H as [Hc He]. apply Z.eqb_eq in Hc.
  unfold binary_round_aux, shr_fexp.
  assert (Hd : Zdigits2 (Zpos (8388608 * m)) = Zpos (digits2_pos m) + 23).
  { cbv [Pos.mul]. cbn [Zdigits2 digits2_pos]. rewrite !Pos2Z.inj_succ. lia. }
  rewrite Hd.
  replace (Z.pos (digits2_pos m) + 23 + (-23 + e)) with (Z.pos (digits2_pos m) + e) by lia.
  rewrite Hc. replace (e - (-23 + e)) with 23 by lia.
  cbv [Pos.mul].
  cbn [shr shr_record_of_loc SpecFloat.iter_pos shr_1 orb shr_m loc_of_shr_record
       round_nearest_even].
  replace (-23 + e + 23) with e by lia.
  cbn [Zdigits2]. rewrite Hc, Z.sub_diag. cbn [shr shr_m]. rewrite He. reflexivity.
Qed.

Lemma mul_one_l (x : spec_float) :
  F32.valid x = true -> F32.mul F32.one x = x.
Proof.
  destruct x as [s|s| |s m e]; try reflexivity.
  intros Hv. unfold F32.mul, F32.one, SFmul. cbn [xorb].
  apply round_aux_one. exact Hv.
Qed.







Lemma ceil_to_int32_not_negative (x : spec_float) (k : Z) :
  not_negative x -> F32.ceil_to_int32 x = Some k -> 0 <= k.
Proof.
  destruct x as [s|s| |s m e]; cbn; intros Hs Hk; try congruence.
  - injection Hk as <-. lia.
  - subst s. destruct (F32.in_int32 _); [|discriminate]. injection Hk as <-.
    pose proof (Z.shiftl_nonneg (Z.neg m) e) as H.
    destruct (Z.le_gt_cases 0 (Z.shiftl (Z.neg m) e)) as [Hle|Hgt]; [|lia].
    apply H in Hle. lia.
Qed.












End FloatFacts.

(** ** [InvertMask] *)



(** ** [AttributableMultiHeadAttention] *)

(** C10.  Setting the weight of head [h] writes [a] at entry [h] of
    alpha and leaves every other entry, and the number of entries, as
    they were; resetting makes every entry [1.0] whatever alpha held. *)
Theorem set_weight_touches_one_head
    (self : AttributableMultiHeadAttention.layer) (h : Z) (a : spec_float) :
  0 <= h < Z.of_nat (length (AttributableMultiHeadAttention._alpha self)) ->
  (exists self',
      AttributableMultiHeadAttention.set_attention_attribution_weight self h a = Some self'
      /\ AttributableMultiHeadAttention._alpha self' !! Z.to_nat h = Some a
      /\ (forall k : nat, k <> Z.to_nat h ->
            AttributableMultiHeadAttention._alpha self' !! k
            = AttributableMultiHeadAttention._alpha self !! k)
      /\ length (AttributableMultiHeadAttention._alpha self')
         = length (AttributableMultiHeadAttention._alpha self))
  /\ AttributableMultiHeadAttention._alpha
       (AttributableMultiHeadAttention.reset_attention_attribution_weights self)
     = replicate (AttributableMultiHeadAttention._num_heads self) F32.one
  /\ (forall k : nat, (k < AttributableMultiHeadAttention._num_heads self)%nat ->
        AttributableMultiHeadAttention._alpha
          (AttributableMultiHeadAttention.reset_attention_attribution_weights self) !! k
        = Some F32.one).
Proof.
  intros Hh. split; [|split].
  - unfold AttributableMultiHeadAttention.set_attention_attribution_weight.
    destruct (Z.leb_spec 0 h) as [_|?]; [|lia].
    destruct (Z.ltb_spec h (Z.of_nat (length (AttributableMultiHeadAttention._alpha self))))
      as [_|?]; [|lia].
    cbn [andb]. eexists. split; [reflexivity|]. cbn. split; [|split].
    + apply list_lookup_insert_eq. lia.
    + intros k Hk. apply list_lookup_insert_ne. congruence.
    + apply length_insert.
  - reflexivity.
  - intros k Hk. cbn. apply lookup_replicate_2. exact Hk.
Qed.

Lemma set_weight_touches_one_head_witness :
  let self := AttributableMultiHeadAttention.init 3 4 in
  (exists self',
      AttributableMultiHeadAttention.set_attention_attribution_weight self 1 F32.half
      = Some self'
      /\ AttributableMultiHeadAttention._alpha self' = [F32.one; F32.half; F32.one])
  /\ AttributableMultiHeadAttention._alpha
       (AttributableMultiHeadAttention.reset_attention_attribution_weights self)
     = [F32.one; F32.one; F32.one].
Proof.
  cbv zeta.
  pose proof (set_weight_touches_one_head
                (AttributableMultiHeadAttention.init 3 4) 1 F32.half) as H.
  destruct H as [_ [Hr _]]; [simpl; lia|].
  split; [|exact Hr].
  eexists. split; reflexivity.
Defined.

Lemma multiply_ones (n : nat) (s : list (list (list (list spec_float)))) :
  scores_of n s ->
  AttributableMultiHeadAttention.multiply_alpha (replicate n F32.one) s = s.
Proof.
  unfold scores_of, AttributableMultiHeadAttention.multiply_alpha.
  induction 1 as [|heads s [Hlen Hval] _ IH]; [reflexivity|].
  cbn [fmap list_fmap]. f_equal; [|exact IH]. subst n. clear IH.
  induction Hval as [|m heads Hm _ IHh]; [reflexivity|].
  cbn [length replicate zip_with]. f_equal; [|exact IHh].
  clear IHh. induction Hm as [|row m Hrow _ IHm]; [reflexivity|].
  cbn [fmap list_fmap]. f_equal; [|exact IHm].
  clear IHm. induction Hrow as [|x row Hx _ IHr]; [reflexivity|].
  cbn [fmap list_fmap]. f_equal; [apply mul_one_l; exact Hx|exact IHr].
Qed.

(** C7.  While alpha holds its default, one [1.0] per head,
    [_compute_attention] returns the attention output and the scores of
    standard scaled dot-product attention on the same query, key and
    value: the product with alpha gives back, bit for bit, the softmax
    scores, which are [float32] values with one matrix per head. *)
Theorem default_alpha_is_standard_attention {tensor mask : Type}
    (scale_query : nat -> tensor -> tensor)
    (dot_product : tensor -> tensor -> AttributableMultiHeadAttention.scores)
    (_masked_softmax : AttributableMultiHeadAttention.scores -> option mask ->
                       AttributableMultiHeadAttention.scores)
    (_dropout_layer : AttributableMultiHeadAttention.scores -> option bool ->
                      AttributableMultiHeadAttention.scores)
    (combine : AttributableMultiHeadAttention.scores -> tensor -> tensor)
    (self : AttributableMultiHeadAttention.layer)
    (query key value : tensor) (attention_mask : option mask)
    (training : option bool) :
  AttributableMultiHeadAttention._alpha self
  = replicate (AttributableMultiHeadAttention._num_heads self) F32.one ->
  scores_of (AttributableMultiHeadAttention._num_heads self)
    (_masked_softmax
       (dot_product key
          (scale_query (AttributableMultiHeadAttention._key_dim self) query))
       attention_mask) ->
  AttributableMultiHeadAttention.multiply_alpha
    (AttributableMultiHeadAttention._alpha self)
    (_masked_softmax
       (dot_product key
          (scale_query (AttributableMultiHeadAttention._key_dim self) query))
       attention_mask)
  = _masked_softmax
      (dot_product key
         (scale_query (AttributableMultiHeadAttention._key_dim self) query))
      attention_mask
  /\ AttributableMultiHeadAttention._compute_attention
       scale_query dot_product _masked_softmax _dropout_layer combine
       self query key value attention_mask training
     = AttributableMultiHeadAttention.standard_compute_attention
         scale_query dot_product _masked_softmax _dropout_layer combine
         (AttributableMultiHeadAttention._key_dim self)
         query key value attention_mask training.
Proof.
  intros Halpha Hs.
  unfold AttributableMultiHeadAttention._compute_attention,
         AttributableMultiHeadAttention.standard_compute_attention.
  cbv zeta. rewrite Halpha, (multiply_ones _ _ Hs). split; reflexivity.
Qed.

(** A one-head instance: the "tensors" are score tensors, the query is
    not rescaled, the dot product returns its second argument, softmax
    and dropout are the identity and [combine] returns the scores. *)
Lemma default_alpha_is_standard_attention_witness :
  let self := AttributableMultiHeadAttention.reset_attention_attribution_weights
                (AttributableMultiHeadAttention.init 1 1) in
  let s : AttributableMultiHeadAttention.scores := [[[[F32.half; F32.neg_zero]]]] in
  AttributableMultiHeadAttention._compute_attention
    (fun _ q => q) (fun _ q => q) (fun x (_ : option unit) => x) (fun x _ => x)
    (fun x _ => x) self s s s None None
  = (s, s).
Proof.
  cbv zeta.
  destruct (default_alpha_is_standard_attention
              (fun _ q => q) (fun _ q => q) (fun x (_ : option unit) => x) (fun x _ => x)
              (fun x _ => x)
              (AttributableMultiHeadAttention.reset_attention_attribution_weights
                 (AttributableMultiHeadAttention.init 1 1))
              [[[[F32.half; F32.neg_zero]]]] [[[[F32.half; F32.neg_zero]]]]
              [[[[F32.half; F32.neg_zero]]]] None None) as [_ H].
  - reflexivity.
  - repeat constructor.
  - rewrite H. reflexivity.
Defined.


(** ** [ContiguousMask] *)

Section MaskRows.
Import TF.

Lemma span_mask_row_lookup (off k : Z) (len p : nat) :
  (p < len)%nat ->
  span_mask_row off k len !! p
  = Some (if bool_decide (off <= Z.of_nat p < off + k) then 0 else 1).
Proof.
  intros Hp. unfold span_mask_row.
  rewrite list_lookup_fmap, lookup_zip_with, !list_lookup_fmap.
  rewrite lookup_seq_lt by exact Hp. cbn.
  destruct (Z.ltb_spec (Z.of_nat p) off), (Z.ltb_spec (Z.of_nat p) (off + k));
    cbn; case_bool_decide; first [reflexivity|lia].
Qed.


Lemma span_mask_rows (offs : list Z) (k : Z) (len : nat) :
  tfcast_bool
    (logical_or (sequence_mask offs (Z.of_nat len))
       (logical_not (sequence_mask ((fun o => o + k) <$> offs) (Z.of_nat len))))
  = (fun off => span_mask_row off k len) <$> offs.
Proof.
  unfold tfcast_bool, logical_or, logical_not, sequence_mask.
  rewrite Nat2Z.id. induction offs as [|off offs IH]; [reflexivity|].
  cbn [fmap list_fmap zip_with]. f_equal. exact IH.
Qed.



End MaskRows.





(** ** [TrimAndContiguousMask] *)

(** X23.  [call] never returns: whatever is drawn, it stops at the sum
    of the boolean tensor [tf.sequence_mask(offsets + mask_offsets)] and
    the integer tensor [mask_lengths]. *)
Lemma trim_and_contiguous_mask_call_raises
    (self : TrimAndContiguousMask.layer) (d : TrimAndContiguousMask.draws)
    (inputs : TF.tensor2 Z) :
  TrimAndContiguousMask.call self d inputs = None.
Proof.
  unfold TrimAndContiguousMask.call.
  destruct (TrimAndContiguousMask.offsets _ _ _); [|reflexivity]. cbn.
  destruct (TrimAndContiguousMask.mask_lengths _ _ _); [|reflexivity]. cbn.
  destruct (TrimAndContiguousMask.mask_offsets _ _ _); reflexivity.
Qed.

(** C4.  The layer cannot do what the claim says of it.  On a batch
    of one row of four tokens, a trimmed length of 3 and draws of 0.5,
    the trim offset, the mask length and the mask offset are all
    computed, the mask length being 1 where
    [ceil(mask_ratio * trimmed_length)] is 2; then the sum of the boolean
    tensor [tf.sequence_mask(offsets + mask_offsets)] and the integer
    tensor [mask_lengths] raises, and [call] returns nothing.  So it
    does on every batch and for every draw: the closing parenthesis of
    [tf.sequence_mask] is misplaced. *)
Theorem trim_and_mask_raises_on_example :
  TrimAndContiguousMask.offsets example_trim
    (TrimAndContiguousMask.u_offsets example_draws)
    (TrimAndContiguousMask.u_lengths example_draws) = Some [1]
  /\ TrimAndContiguousMask.mask_lengths example_trim
       (TrimAndContiguousMask.u_mask_lengths example_draws)
       (TrimAndContiguousMask.u_lengths example_draws) = Some [1]
  /\ TrimAndContiguousMask.spec_mask_length example_trim 3 = Some 2
  /\ TrimAndContiguousMask.mask_offsets
       (TrimAndContiguousMask.u_mask_offsets example_draws)
       (TrimAndContiguousMask.u_lengths example_draws) [1] = Some [1]
  /\ TF.add_bool_int32 (TF.sequence_mask_default [2]) [1] = None
  /\ TrimAndContiguousMask.call example_trim example_draws example_tokens = None
  /\ forall (d : TrimAndContiguousMask.draws) (inputs : TF.tensor2 Z),
       TrimAndContiguousMask.call example_trim d inputs = None.
Proof.
  split; [vm_compute; reflexivity|]. split; [vm_compute; reflexivity|].
  split; [vm_compute; reflexivity|]. split; [vm_compute; reflexivity|].
  split; [reflexivity|]. split; [vm_compute; reflexivity|].
  intros d inputs. unfold TrimAndContiguousMask.call.
  destruct (TrimAndContiguousMask.offsets _ _ _) as [offs|]; [|reflexivity].
  cbn [mbind option_bind].
  destruct (TrimAndContiguousMask.mask_lengths _ _ _) as [lens|]; [|reflexivity].
  cbn [mbind option_bind].
  destruct (TrimAndContiguousMask.mask_offsets _ _ _) as [moffs|]; reflexivity.
Qed.


(** ** [token_attribution]: the record count *)

Section AttributionFacts.
Import attention_attribution.

Lemma for_each_ext {A S : Type} (items : list A) (f g : S -> A -> option S) (s : S) :
  (forall s x, x ∈ items -> f s x = g s x) ->
  for_each items f s = for_each items g s.
Proof.
  revert s. induction items as [|x items IH]; intros s Hfg; [reflexivity|].
  cbn [for_each]. rewrite (Hfg s x) by constructor.
  destruct (g s x) as [s'|]; [|reflexivity]. cbn.
  apply IH. intros s0 y Hy. apply Hfg. constructor. exact Hy.
Qed.

(** A property kept by every step of a loop holds when the loop ends. *)
Lemma for_each_invariant {A S : Type} (P : S -> Prop) (items : list A)
    (body : S -> A -> option S) (s s' : S) :
  (forall s x s', x ∈ items -> P s -> body s x = Some s' -> P s') ->
  P s -> for_each items body s = Some s' -> P s'.
Proof.
  revert s. induction items as [|x items IH]; intros s Hbody Hs Hrun.
  - injection Hrun as <-. exact Hs.
  - cbn [for_each] in Hrun.
    destruct (body s x) as [s1|] eqn:Hstep; [|discriminate]. cbn in Hrun.
    apply (IH s1); [|eapply Hbody; [constructor|exact Hs|exact Hstep]|exact Hrun].
    intros s0 y s0' Hy. apply Hbody. constructor. exact Hy.
Qed.


End AttributionFacts.


(** ** [token_attribution]: candidate edges of a layer whose maximum is zero *)

Section Threshold.
Import attention_attribution.












End Threshold.


Section LayerSums.
Import attention_attribution.







End LayerSums.



(** ** [token_attribution]: the layers the walk goes through *)

Section WalkLayers.
Import attention_attribution.

Lemma range_down_lookup (start : Z) (i : nat) :
  range_down start !! i
  = if decide (Z.of_nat i <= start) then Some (start - Z.of_nat i) else None.
Proof.
  unfold range_down. rewrite list_lookup_fmap.
  destruct (decide (Z.of_nat i <= start)) as [Hi|Hi].
  - rewrite lookup_seq_lt by lia. reflexivity.
  - rewrite lookup_seq_ge by lia. reflexivity.
Qed.

Lemma elem_of_range_down (start l : Z) :
  l ∈ range_down start <-> 0 <= l <= start.
Proof.
  rewrite list_elem_of_lookup. split.
  - intros [i Hi]. rewrite range_down_lookup in Hi.
    destruct (decide (Z.of_nat i <= start)); [|discriminate]. injection Hi as <-. lia.
  - intros Hl. exists (Z.to_nat (start - l)). rewrite range_down_lookup.
    rewrite decide_True by lia. f_equal. lia.
Qed.

Lemma NoDup_range_down (start : Z) : NoDup (range_down start).
Proof.
  unfold range_down. apply NoDup_fmap_2_strong; [|apply NoDup_seq].
  intros x y Hx Hy Heq. lia.
Qed.

Lemma range_down_cons (s : Z) :
  0 <= s ->
  attention_attribution.range_down s = s :: attention_attribution.range_down (s - 1).
Proof.
  intros Hs. unfold attention_attribution.range_down.
  replace (Z.to_nat (s + 1)) with (S (Z.to_nat (s - 1 + 1))) by lia.
  cbn [seq fmap list_fmap]. f_equal; [lia|].
  rewrite <- fmap_S_seq, <- list_fmap_compose.
  apply list_fmap_ext. intros _ k _. cbn. lia.
Qed.

(** A loop over the layer indices from the last of [edges_by_layer] down
    to 0 is a loop over the layers themselves, last to first. *)
Lemma walk_in_reverse {S : Type} (body : S -> gset (Z * Z) -> option S)
    (edges_by_layer : list (gset (Z * Z))) :
  forall (rest : list (gset (Z * Z))) (t : S),
  for_each (range_down (Z.of_nat (length edges_by_layer) - 1))
    (fun t l => layer ← (edges_by_layer ++ rest) !! Z.to_nat l; body t layer) t
  = for_each (reverse edges_by_layer) body t.
Proof.
  induction edges_by_layer as [|x ebl IH] using rev_ind; intros rest t; [reflexivity|].
  rewrite length_app. cbn [length].
  replace (Z.of_nat (length ebl + 1) - 1) with (Z.of_nat (length ebl)) by lia.
  rewrite range_down_cons by lia. rewrite reverse_snoc. cbn [for_each].
  rewrite Nat2Z.id, <- app_assoc. cbn [app].
  rewrite list_lookup_middle by reflexivity.
  cbn [mbind option_bind]. destruct (body t x) as [t'|]; [|reflexivity].
  cbn [mbind option_bind]. apply IH.
Qed.

End WalkLayers.

(** C5, as stated, fails: with two layers the walk goes through layer 0
    only.  An edge that only the final layer proposes never enters the
    tree: where layer 0 proposes [(0, 1)] and the final layer [(1, 2)],
    the token 1 is attached and the token 2 is not, though 1 has
    appeared. *)
Lemma walk_leaves_out_final_layer :
  attention_attribution.walk_layers 2 = [0]
  /\ (1 ∉ attention_attribution.walk_layers 2)
  /\ (exists t,
        attention_attribution.attribution_tree elements {[0; 1]} 0 2 [∅; {[ (0, 1) ]}]
        = Some t
        /\ elements (attention_attribution.edges t) = [(-1, 0)]
        /\ elements (attention_attribution.vertices t) = [-1; 0])
  /\ exists t,
       attention_attribution.attribution_tree elements {[0; 1; 2]} 0 2
         [{[ (0, 1) ]}; {[ (1, 2) ]}] = Some t
       /\ elements (attention_attribution.edges t) = [(-1, 0); (-1, 1); (0, 1)]
       /\ elements (attention_attribution.vertices t) = [-1; 1; 0].
Proof.
  split; [reflexivity|].
  split; [intros H; apply elem_of_range_down in H; lia|].
  split; eexists; (split; [vm_compute; reflexivity|]); split; vm_compute; reflexivity.
Qed.

(** C5, amended.  The walk goes through the candidate edges of every
    layer but the final one, each once, from the deepest of them,
    [len(taus) - 2], down to layer 0: it is one pass over the edges of
    layer [len(taus) - 2], then one over those of the layer below, and so
    on to layer 0.  The edge set of the final layer, the one thresholded
    at [tau = 0], is built but never read: the walk ends the same
    whatever that set holds. *)
Theorem walk_visits_all_but_final_layer
    (iter : gset (Z * Z) -> list (Z * Z)) (len_taus : nat)
    (edges_by_layer : list (gset (Z * Z))) (final final' : gset (Z * Z))
    (t : attention_attribution.walk) :
  length edges_by_layer = (len_taus - 1)%nat ->
  (forall i : nat,
     attention_attribution.walk_layers len_taus !! i
     = if decide (Z.of_nat i <= Z.of_nat len_taus - 2)
       then Some (Z.of_nat len_taus - 2 - Z.of_nat i) else None)
  /\ NoDup (attention_attribution.walk_layers len_taus)
  /\ (forall l : Z,
        l ∈ attention_attribution.walk_layers len_taus <-> 0 <= l < Z.of_nat len_taus - 1)
  /\ attention_attribution.tree_walk iter len_taus (edges_by_layer ++ [final]) t
     = attention_attribution.for_each (reverse edges_by_layer)
         (fun t layer =>
            attention_attribution.for_each (iter layer) attention_attribution.visit t)
         t
  /\ attention_attribution.tree_walk iter len_taus (edges_by_layer ++ [final]) t
     = attention_attribution.tree_walk iter len_taus (edges_by_layer ++ [final']) t.
Proof.
  intros Hlen.
  assert (Hpass : forall last,
            attention_attribution.tree_walk iter len_taus (edges_by_layer ++ [last]) t
            = attention_attribution.for_each (reverse edges_by_layer)
                (fun t layer =>
                   attention_attribution.for_each (iter layer)
                     attention_attribution.visit t)
                t).
  { intros last.
    unfold attention_attribution.tree_walk, attention_attribution.walk_layers.
    destruct len_taus as [|n].
    - destruct edges_by_layer; [reflexivity|discriminate Hlen].
    - replace (Z.of_nat (S n) - 2) with (Z.of_nat (length edges_by_layer) - 1) by lia.
      apply (walk_in_reverse
               (fun t layer =>
                  attention_attribution.for_each (iter layer)
                    attention_attribution.visit t)). }
  unfold attention_attribution.walk_layers.
  split; [intros i; apply range_down_lookup|].
  split; [apply NoDup_range_down|].
  split; [intros l; rewrite elem_of_range_down; lia|].
  split; [apply Hpass|]. rewrite !Hpass. reflexivity.
Qed.

Lemma walk_visits_all_but_final_layer_witness :
  attention_attribution.walk_layers 3 = [1; 0]
  /\ attention_attribution.tree_walk elements 3
       [{[ (0, 1) ]}; {[ (1, 2) ]}; ∅] (attention_attribution.start {[0; 1; 2]} 0)
     = attention_attribution.for_each [{[ (1, 2) ]}; {[ (0, 1) ]}]
         (fun t layer =>
            attention_attribution.for_each (elements (layer : gset (Z * Z)))
              attention_attribution.visit t)
         (attention_attribution.start {[0; 1; 2]} 0)
  /\ attention_attribution.tree_walk elements 3
       [{[ (0, 1) ]}; {[ (1, 2) ]}; ∅] (attention_attribution.start {[0; 1; 2]} 0)
     = attention_attribution.tree_walk elements 3
       [{[ (0, 1) ]}; {[ (1, 2) ]}; {[ (0, 2) ]}]
       (attention_attribution.start {[0; 1; 2]} 0).
Proof.
  destruct (walk_visits_all_but_final_layer elements 3
              [{[ (0, 1) ]}; {[ (1, 2) ]}] ∅ {[ (0, 2) ]}
              (attention_attribution.start {[0; 1; 2]} 0)) as (_ & _ & _ & Hpass & H).
  - reflexivity.
  - split; [reflexivity|]. split; [exact Hpass|exact H].
Defined.


(** ** [token_attribution]: the shape of the tree *)

Section TreeWalk.
Import attention_attribution.
#[local] Set Warnings "-clear-no-such-hyp".

Lemma elem_of_id_range (n : nat) (z : Z) : z ∈ id_range n <-> 0 <= z < Z.of_nat n.
Proof.
  unfold id_range. rewrite elem_of_list_to_set, list_elem_of_fmap. split.
  - intros (k & -> & Hk). apply elem_of_seq in Hk. lia.
  - intros Hz. exists (Z.to_nat z). split; [lia|]. apply elem_of_seq. lia.
Qed.

Lemma size_id_range (n : nat) : size (id_range n) = n.
Proof.
  unfold id_range. rewrite size_list_to_set.
  - rewrite length_fmap, length_seq. reflexivity.
  - apply NoDup_fmap_2; [|apply NoDup_seq]. intros x y. lia.
Qed.

Lemma start_inv (ids : gset Z) (top : Z) :
  walk_inv top (start ids top) (fun _ => 0%nat) 1.
Proof.
  assert (Happ : forall v, appeared (start ids top) v <-> v = top).
  { intros v. unfold appeared, start. cbn [state].
    destruct (decide (v = top)) as [->|Hne].
    - rewrite lookup_insert_eq. intuition.
    - rewrite lookup_insert_ne by congruence.
      rewrite !lookup_gset_to_gmap_Some. intuition congruence. }
  unfold walk_inv. cbn [vertices edges start].
  split; [intros v; rewrite Happ; set_solver|].
  split; [set_solver|]. split; [set_solver|]. split; [set_solver|].
  intros; lia.
Qed.

Lemma attach_inv (top : Z) (t : walk) (rank : Z -> nat) (bound : nat)
    (i j : Z) (b : bool) :
  walk_inv top t rank bound -> appeared t i -> state t !! j = Some NotAppear ->
  i <> j ->
  walk_inv top (attach t i j b)
    (fun v => if decide (v = j) then bound else rank v) (S bound).
Proof.
  intros (Hv & Htop & He & Hp & Hr) Hi Hj Hij.
  assert (Hjv : j ∉ vertices t).
  { rewrite Hv. unfold appeared. rewrite Hj. intros [?|?]; discriminate. }
  assert (Hiv : i ∈ vertices t) by (apply Hv; exact Hi).
  assert (Hjt : j <> top) by (intros ->; contradiction).
  unfold walk_inv, attach. cbn [state edges vertices].
  split; [|split; [|split; [|split]]].
  - intros v. rewrite elem_of_union, elem_of_singleton, Hv. unfold appeared.
    cbn [state]. destruct (decide (v = j)) as [->|Hvj].
    + rewrite lookup_insert_eq. intuition.
    + rewrite lookup_insert_ne by congruence.
      destruct b; [|intuition].
      destruct (decide (v = i)) as [->|Hvi].
      * rewrite lookup_insert_eq. intuition.
      * rewrite lookup_insert_ne by congruence. intuition.
  - set_solver.
  - intros a c. rewrite elem_of_union, elem_of_singleton.
    intros [Heq|Hold].
    + injection Heq as -> ->.
      rewrite decide_False by congruence. rewrite decide_True by reflexivity.
      split; [set_solver|]. split; [set_solver|]. split; [exact Hjt|].
      apply Hr. exact Hiv.
    + destruct (He a c Hold) as (Ha & Hc & Hct & Hrk).
      rewrite !decide_False by (intros ->; contradiction).
      split; [set_solver|]. split; [set_solver|]. split; assumption.
  - intros c. rewrite elem_of_union, elem_of_singleton. intros [->|Hc] Hct.
    + exists i. intros k. rewrite elem_of_union, elem_of_singleton. split.
      * intros [Heq|Hold]; [congruence|].
        destruct (He k j Hold) as (_ & Hjin & _). contradiction.
      * intros ->. left. reflexivity.
    + destruct (Hp c Hc Hct) as [p Hpar]. exists p. intros k.
      rewrite elem_of_union, elem_of_singleton, <- Hpar. split.
      * intros [Heq|Hold]; [|exact Hold]. injection Heq as -> ->. contradiction.
      * intros Hold. right. exact Hold.
  - intros v. rewrite elem_of_union, elem_of_singleton. intros [->|Hin].
    + rewrite decide_True by reflexivity. lia.
    + rewrite decide_False by (intros ->; contradiction).
      specialize (Hr v Hin). lia.
Qed.

(** A pair is either passed over or attached, the latter only from a
    token that appeared to one that did not. *)
Lemma visit_cases (t t' : walk) (i j : Z) :
  visit t (i, j) = Some t' ->
  t' = t
  \/ exists b, t' = attach t i j b /\ appeared t i
               /\ state t !! j = Some NotAppear /\ i <> j.
Proof.
  unfold visit. destruct (decide (i = j)) as [->|Hij].
  { intros H. injection H as <-. left. reflexivity. }
  destruct (state t !! i) as [s_i|] eqn:Hi; [|discriminate]. cbn [mbind option_bind].
  destruct s_i; cbn [mbind option_bind].
  - rewrite Hi. cbn [mbind option_bind]. intros H. injection H as <-. left. reflexivity.
  - destruct (state t !! j) as [s_j|] eqn:Hj; [|discriminate].
    destruct s_j; cbn [mbind option_bind].
    + cbn [state attach].
      rewrite (lookup_insert_ne _ j i Appear) by congruence.
      rewrite !lookup_insert_eq. cbn [mbind option_bind].
      intros H. injection H as <-. right. exists true.
      unfold appeared. rewrite Hi. auto.
    + rewrite Hi. cbn [mbind option_bind]. intros H. injection H as <-.
      left. reflexivity.
    + rewrite Hi. cbn [mbind option_bind]. intros H. injection H as <-.
      left. reflexivity.
  - rewrite Hi. cbn [mbind option_bind].
    destruct (state t !! j) as [s_j|] eqn:Hj; [|discriminate].
    destruct s_j; cbn [mbind option_bind]; intros H; injection H as <-;
      [|left; reflexivity..].
    right. exists false. unfold appeared. rewrite Hi. auto.
Qed.

Lemma visit_ok (top : Z) (keys : gset Z) (t t' : walk) (e : Z * Z) :
  walk_ok top keys t -> visit t e = Some t' -> walk_ok top keys t'.
Proof.
  intros [(rank & bound & Hinv) Hdom] Hvisit. destruct e as [i j].
  apply visit_cases in Hvisit as [->|(b & -> & Hi & Hj & Hij)].
  { split; [exists rank, bound; exact Hinv|exact Hdom]. }
  split.
  - eexists _, _. apply attach_inv; eassumption.
  - unfold attach. cbn [state]. rewrite dom_insert_L.
    assert (Hjk : j ∈ dom (state t)) by (apply elem_of_dom; eauto).
    assert (Hik : i ∈ dom (state t)).
    { apply elem_of_dom. destruct Hi as [Hi|Hi]; rewrite Hi; eauto. }
    destruct b; [rewrite dom_insert_L|]; set_solver.
Qed.

Lemma tree_walk_ok (iter : gset (Z * Z) -> list (Z * Z)) (len_taus : nat)
    (edges_by_layer : list (gset (Z * Z))) (top : Z) (keys : gset Z) (t t' : walk) :
  walk_ok top keys t ->
  tree_walk iter len_taus edges_by_layer t = Some t' -> walk_ok top keys t'.
Proof.
  intros Hok Hrun. unfold tree_walk in Hrun.
  eapply for_each_invariant; [|exact Hok|exact Hrun].
  intros s l s' _ Hs Hlayer.
  cbn beta in Hlayer.
  destruct (edges_by_layer !! Z.to_nat l) as [layer|];
    cbn [mbind option_bind] in Hlayer; [|discriminate].
  eapply for_each_invariant; [|exact Hs|exact Hlayer].
  intros s0 e s0' _ Hs0 Hvisit. eapply visit_ok; eassumption.
Qed.

(** The class-token loop changes nothing but the edges, to which it
    adds [(-1, j)] for every [j] of its range that appeared. *)
Lemma inject_loop (js : list Z) :
  forall t t',
  for_each js
    (fun t j =>
       s_j ← state t !! j;
       match s_j with
       | Appear | Fixed => Some (Walk (state t) ({[ (-1, j) ]} ∪ edges t) (vertices t))
       | NotAppear => Some t
       end) t = Some t' ->
  state t' = state t /\ vertices t' = vertices t
  /\ forall e, e ∈ edges t' <->
               e ∈ edges t \/ exists j, e = (-1, j) /\ j ∈ js /\ appeared t j.
Proof.
  induction js as [|j js IH]; intros t t' Hrun.
  - injection Hrun as <-. split; [reflexivity|]. split; [reflexivity|].
    intros e. split; [auto|]. intros [?|(j & _ & Hj & _)]; [assumption|].
    inversion Hj.
  - cbn [for_each] in Hrun.
    destruct (state t !! j) as [s_j|] eqn:Hj; [|discriminate].
    cbn [mbind option_bind] in Hrun.
    assert (Hstep : exists t1, for_each js
              (fun t j =>
                 s_j ← state t !! j;
                 match s_j with
                 | Appear | Fixed =>
                     Some (Walk (state t) ({[ (-1, j) ]} ∪ edges t) (vertices t))
                 | NotAppear => Some t
                 end) t1 = Some t'
              /\ state t1 = state t /\ vertices t1 = vertices t
              /\ forall e, e ∈ edges t1 <-> e ∈ edges t \/ (e = (-1, j) /\ appeared t j)).
    { unfold appeared. rewrite Hj.
      destruct s_j; cbn [mbind option_bind] in Hrun; eexists; (split; [exact Hrun|]);
        cbn [state vertices edges]; (split; [reflexivity|]); (split; [reflexivity|]);
        intros e; rewrite ?elem_of_union, ?elem_of_singleton;
        intuition congruence. }
    destruct Hstep as (t1 & Hrest & Hs1 & Hv1 & He1).
    destruct (IH t1 t' Hrest) as (Hs & Hv & He).
    split; [congruence|]. split; [congruence|].
    intros e. rewrite He, He1. unfold appeared. rewrite Hs1. split.
    + intros [[?|[-> Hap]]|(j' & -> & Hin & Hap)]; auto.
      * right. exists j. split; [reflexivity|]. split; [constructor|exact Hap].
      * right. exists j'. split; [reflexivity|]. split; [constructor; exact Hin|exact Hap].
    + intros [?|(j' & -> & Hin & Hap)]; auto.
      apply elem_of_cons in Hin as [->|Hin]; [auto|].
      right. exists j'. auto.
Qed.

Lemma inject_class_token_spec (t t' : walk) :
  inject_class_token t = Some t' ->
  state t' = state t /\ vertices t' = {[ -1 ]} ∪ vertices t
  /\ forall e, e ∈ edges t' <->
               e ∈ edges t
               \/ exists j, e = (-1, j) /\ 0 <= j < Z.of_nat (size (state t))
                            /\ appeared t j.
Proof.
  unfold inject_class_token. intros Hrun.
  apply inject_loop in Hrun as (Hs & Hv & He). cbn [state vertices edges] in *.
  split; [exact Hs|]. split; [exact Hv|].
  intros e. rewrite He. unfold appeared. cbn [state].
  split; (intros [?|(j & -> & Hj & Hap)]; [auto|]); right; exists j;
    (split; [reflexivity|]); (split; [|exact Hap]).
  - apply elem_of_range_down in Hj. lia.
  - apply elem_of_range_down. lia.
Qed.

(** The tree of the walk, for the identifiers [0 .. n - 1]. *)
Lemma attribution_tree_shape (iter : gset (Z * Z) -> list (Z * Z)) (n : nat)
    (top : Z) (len_taus : nat) (edges_by_layer : list (gset (Z * Z))) (t : walk) :
  top ∈ id_range n ->
  attribution_tree iter (id_range n) top len_taus edges_by_layer = Some t ->
  -1 ∈ vertices t /\ top ∈ vertices t
  /\ (forall v, v ∈ vertices t -> v = -1 \/ 0 <= v < Z.of_nat n)
  /\ (forall i j, (i, j) ∈ edges t -> i ∈ vertices t /\ j ∈ vertices t /\ j <> -1)
  /\ (forall v, v ∈ vertices t -> v <> -1 -> (-1, v) ∈ edges t)
  /\ (forall k, (k, top) ∈ edges t <-> k = -1)
  /\ (forall v, v ∈ vertices t -> v <> -1 -> v <> top ->
        exists i, i <> -1 /\ i ∈ vertices t
                  /\ forall k, (k, v) ∈ edges t <-> k = -1 \/ k = i)
  /\ exists rank : Z -> nat, forall i j, (i, j) ∈ edges t -> (rank i < rank j)%nat.
Proof.
  intros Htop. unfold attribution_tree. intros Hrun.
  destruct (tree_walk iter len_taus edges_by_layer (start (id_range n) top))
    as [t0|] eqn:Hwalk; [|discriminate].
  cbn [mbind option_bind] in Hrun.
  assert (Hstart : walk_ok top (id_range n) (start (id_range n) top)).
  { split; [eexists _, _; apply start_inv|].
    unfold start. cbn [state]. rewrite dom_insert_L, dom_gset_to_gmap. set_solver. }
  destruct (tree_walk_ok _ _ _ _ _ _ _ Hstart Hwalk)
    as [(rank & bound & Hv & Htopv & He & Hp & Hr) Hdom].
  apply inject_class_token_spec in Hrun as (Hs' & Hv' & He').
  assert (Hsize : size (state t0) = n).
  { rewrite <- size_dom, Hdom. apply size_id_range. }
  rewrite Hsize in He'.
  assert (Hin : forall v, v ∈ vertices t0 -> 0 <= v < Z.of_nat n).
  { intros v Hvin. apply elem_of_id_range. rewrite <- Hdom. apply elem_of_dom.
    apply Hv in Hvin as [H|H]; rewrite H; eauto. }
  assert (Hneg : -1 ∉ vertices t0) by (intros H; apply Hin in H; lia).
  rewrite Hv'.
  split; [set_solver|]. split; [set_solver|]. split.
  { intros v. rewrite elem_of_union, elem_of_singleton. intros [->|H]; auto. }
  split.
  { intros i j. rewrite He'. intros [Hold|(j' & Heq & Hj' & Hap)].
    - destruct (He i j Hold) as (Hi & Hj & _).
      split; [set_solver|]. split; [set_solver|]. intros ->. contradiction.
    - injection Heq as -> ->. split; [set_solver|].
      split; [apply elem_of_union; right; apply Hv; exact Hap|lia]. }
  split.
  { intros v. rewrite elem_of_union, elem_of_singleton. intros [->|Hvin] Hne;
      [contradiction|].
    apply He'. right. exists v. split; [reflexivity|].
    split; [apply Hin; exact Hvin|apply Hv; exact Hvin]. }
  split.
  { intros k. rewrite He'. split.
    - intros [Hold|(j' & Heq & _)]; [|congruence].
      destruct (He k top Hold) as (_ & _ & Hne & _). contradiction.
    - intros ->. right. exists top. split; [reflexivity|].
      split; [apply Hin; exact Htopv|apply Hv; exact Htopv]. }
  split.
  { intros v. rewrite elem_of_union, elem_of_singleton. intros [->|Hvin] Hne Hnt;
      [contradiction|].
    destruct (Hp v Hvin Hnt) as [i Hpar].
    assert (Hiv : (i, v) ∈ edges t0) by (apply Hpar; reflexivity).
    destruct (He i v Hiv) as (Hi & _).
    exists i. split; [intros ->; contradiction|]. split; [set_solver|].
    intros k. rewrite He'. split.
    - intros [Hold|(j' & Heq & _)]; [right; apply Hpar; exact Hold|left; congruence].
    - intros [-> | ->]; [|left; exact Hiv].
      right. exists v. split; [reflexivity|].
      split; [apply Hin; exact Hvin|apply Hv; exact Hvin]. }
  exists (fun v => if decide (v = -1) then 0%nat else S (rank v)).
  intros i j. rewrite He'. intros [Hold|(j' & Heq & Hj' & _)].
  - destruct (He i j Hold) as (Hi & Hj & _ & Hrk).
    rewrite !decide_False by (intros ->; contradiction). lia.
  - injection Heq as -> ->. rewrite decide_True by reflexivity.
    rewrite decide_False by lia. lia.
Qed.

End TreeWalk.

Section TokenIds.
Import attention_attribution.
#[local] Set Warnings "-clear-no-such-hyp".

Lemma id_range_S (n : nat) : id_range (S n) = {[ Z.of_nat n ]} ∪ id_range n.
Proof.
  apply set_eq. intros z.
  rewrite elem_of_union, elem_of_singleton, !elem_of_id_range. lia.
Qed.

Lemma register_numbered (token_ids : gmap string Z) (name : string) :
  numbered token_ids -> numbered (register token_ids name).
Proof.
  unfold numbered, register. intros H.
  destruct (token_ids !! name) eqn:Hname; [exact H|].
  rewrite map_img_insert_notin_L by exact Hname.
  rewrite map_size_insert_None by exact Hname.
  rewrite id_range_S, H. reflexivity.
Qed.

Lemma collect_numbered (metadata_key : list string -> list string)
    (store : gmap string value) (length : nat) (token_ids : gmap string Z) :
  collect_token_ids metadata_key store length = Some token_ids -> numbered token_ids.
Proof.
  unfold collect_token_ids. intros Hrun.
  eapply (for_each_invariant numbered); [|
    |exact Hrun].
  - intros ids n ids' _ Hids Hstep. cbn beta in Hstep.
    destruct (token_names_of metadata_key store n) as [names|];
      cbn [mbind option_bind] in Hstep; [|discriminate].
    injection Hstep as <-. clear -Hids. revert ids Hids.
    induction names as [|name names IH]; intros ids Hids; [exact Hids|].
    cbn [foldl]. apply IH. apply register_numbered. exact Hids.
  - unfold numbered. rewrite map_img_empty_L, map_size_empty. reflexivity.
Qed.

Lemma update_top_known (token_ids : gmap string Z) (token_names : list string)
    (token_attrs : list spec_float) (max_value : spec_float) (acc : totals)
    (top : option Z * spec_float) :
  update_top token_ids token_names token_attrs max_value acc = Some top ->
  top.1 = top_node acc \/ exists id, top.1 = Some id /\ id ∈ map_img (SA := gset Z) token_ids.
Proof.
  unfold update_top. destruct (IEEE.gt _ _).
  - intros H.
    apply bind_Some in H as (i & _ & H).
    apply bind_Some in H as (name & _ & H).
    apply bind_Some in H as (id & Hid & H).
    injection H as <-. right. exists id. split; [reflexivity|].
    apply elem_of_map_img. exists name. exact Hid.
  - intros H. injection H as <-. left. reflexivity.
Qed.

Lemma process_record_top (metadata_key : list string -> list string)
    (store : gmap string value) (token_ids : gmap string Z) (taus : list spec_float)
    (acc acc' : totals) (n : nat) :
  process_record metadata_key store token_ids taus acc n = Some acc' ->
  top_node acc' = top_node acc
  \/ exists id, top_node acc' = Some id /\ id ∈ map_img (SA := gset Z) token_ids.
Proof.
  unfold process_record. intros H.
  apply bind_Some in H as (shape & _ & H).
  apply bind_Some in H as (token_names & _ & H).
  apply bind_Some in H as (buffer & _ & H).
  apply bind_Some in H as (attrs & _ & H).
  cbv zeta in H.
  apply bind_Some in H as (token_attrs & _ & H).
  apply bind_Some in H as (totals' & _ & H).
  apply bind_Some in H as (max_value & _ & H).
  apply bind_Some in H as (top & Htop & H).
  apply bind_Some in H as (layers & _ & H).
  injection H as <-. cbn [top_node].
  eapply update_top_known. exact Htop.
Qed.

End TokenIds.

(** C2, as stated, fails: in the tree of the example store the token 1
    has two incoming edges, one from the token 0 and one from the class
    token, and the edges [(-1, 0)], [(0, 1)], [(-1, 1)] do not form a
    tree. *)
Lemma token_vertex_with_two_parents :
  exists r,
    attention_attribution.token_attribution id elements example_store tau_default
    = Some r
    /\ elements (attention_attribution.tree_edges r) = [(-1, 0); (-1, 1); (0, 1)]
    /\ elements (attention_attribution.tree_vertices r) = [-1; 1; 0]
    /\ 1 ∈ attention_attribution.tree_vertices r
    /\ (0, 1) ∈ attention_attribution.tree_edges r
    /\ (-1, 1) ∈ attention_attribution.tree_edges r.
Proof.
  eexists. split; [vm_compute; reflexivity|].
  match goal with
  | |- elements (attention_attribution.tree_edges ?r) = _ /\ _ => set (r0 := r)
  end.
  assert (He : elements (attention_attribution.tree_edges r0)
               = [(-1, 0); (-1, 1); (0, 1)]) by (vm_compute; reflexivity).
  assert (Hv : elements (attention_attribution.tree_vertices r0) = [-1; 1; 0])
    by (vm_compute; reflexivity).
  split; [exact He|]. split; [exact Hv|].
  rewrite <- !elem_of_elements, He, Hv.
  split; [|split]; repeat first [apply list_elem_of_here|apply list_elem_of_further].
Qed.

(** C2, amended.  In the vertex and edge sets [token_attribution]
    returns, every vertex other than the class token [-1] has the
    incoming edge from the class token; the top node has no other
    incoming edge, and every other token vertex has exactly one more,
    from a token vertex, so exactly two.  Every edge joins two vertices,
    none enters the class token, and the edge set is acyclic: the
    edges go up in the order the vertices appeared. *)
Theorem attribution_graph_shape
    (metadata_key : list string -> list string)
    (iter : gset (Z * Z) -> list (Z * Z))
    (store : gmap string attention_attribution.value) (tau : spec_float)
    (r : attention_attribution.attribution) :
  attention_attribution.token_attribution metadata_key iter store tau = Some r ->
  exists top : Z,
    top <> -1
    /\ top ∈ attention_attribution.tree_vertices r
    /\ -1 ∈ attention_attribution.tree_vertices r
    /\ (forall i j, (i, j) ∈ attention_attribution.tree_edges r ->
          i ∈ attention_attribution.tree_vertices r
          /\ j ∈ attention_attribution.tree_vertices r /\ j <> -1)
    /\ (forall v, v ∈ attention_attribution.tree_vertices r -> v <> -1 ->
          (-1, v) ∈ attention_attribution.tree_edges r)
    /\ (forall k, (k, top) ∈ attention_attribution.tree_edges r <-> k = -1)
    /\ (forall v, v ∈ attention_attribution.tree_vertices r -> v <> -1 -> v <> top ->
          exists i, i <> -1 /\ i ∈ attention_attribution.tree_vertices r
                    /\ forall k, (k, v) ∈ attention_attribution.tree_edges r
                                 <-> k = -1 \/ k = i)
    /\ exists rank : Z -> nat,
         forall i j, (i, j) ∈ attention_attribution.tree_edges r ->
                     (rank i < rank j)%nat.
Proof.
  unfold attention_attribution.token_attribution,
         attention_attribution.token_attribution_from.
  intros H.
  apply bind_Some in H as (length & _ & H).
  apply bind_Some in H as (token_ids & Hids & H).
  apply bind_Some in H as (shape & _ & H).
  apply bind_Some in H as (shape0 & _ & H).
  cbv zeta in H.
  apply bind_Some in H as (acc & Hacc & H).
  apply bind_Some in H as (top & Htop & H).
  apply bind_Some in H as (t & Htree & H).
  injection H as <-.
  cbn [attention_attribution.tree_edges attention_attribution.tree_vertices].
  apply collect_numbered in Hids. unfold numbered in Hids.
  assert (Htopin : top ∈ map_img (SA := gset Z) token_ids).
  { assert (Hinv : forall id, attention_attribution.top_node acc = Some id ->
                              id ∈ map_img (SA := gset Z) token_ids).
    { eapply (for_each_invariant
                (fun a => forall id, attention_attribution.top_node a = Some id ->
                                     id ∈ map_img (SA := gset Z) token_ids));
        [| |exact Hacc].
      - intros a n a' _ Ha Hstep id Hid.
        apply process_record_top in Hstep as [Hsame|(id' & Hnew & Hin)].
        + apply Ha. rewrite <- Hsame. exact Hid.
        + rewrite Hnew in Hid. injection Hid as <-. exact Hin.
      - intros id Hid. discriminate Hid. }
    apply Hinv. exact Htop. }
  rewrite Hids in Htopin, Htree.
  destruct (attribution_tree_shape _ _ _ _ _ _ Htopin Htree)
    as (Hcls & Htopv & _ & He & Hc & Ht & Hp & Hrank).
  exists top. apply elem_of_id_range in Htopin.
  split; [lia|]. repeat (split; [assumption|]). exact Hrank.
Qed.

Lemma attribution_graph_shape_witness :
  exists r top,
    attention_attribution.token_attribution id elements example_store tau_default
    = Some r
    /\ top <> -1
    /\ (forall k, (k, top) ∈ attention_attribution.tree_edges r <-> k = -1)
    /\ (forall v, v ∈ attention_attribution.tree_vertices r -> v <> -1 ->
          (-1, v) ∈ attention_attribution.tree_edges r).
Proof.
  destruct (attention_attribution.token_attribution id elements example_store
              tau_default) as [r|] eqn:Hr.
  - destruct (attribution_graph_shape id elements example_store tau_default r Hr)
      as (top & Hne & _ & _ & _ & Hc & Ht & _).
    exists r, top. split; [reflexivity|]. split; [exact Hne|]. split; assumption.
  - vm_compute in Hr. discriminate Hr.
Defined.


(** * Further properties *)

(** ** [InvertMask] *)

(** X1.  Two [InvertMask] layers in a row hand on the mask they were
    given: inverting twice is the identity on masks, and no mask stays
    no mask. *)
Theorem invert_mask_twice {T : Type} (x y : T) (mask : option (list bool)) :
  InvertMask.compute_mask y (InvertMask.compute_mask x mask) = mask.
Proof.
  destruct mask as [m|]; [|reflexivity]. cbn. f_equal.
  induction m as [|b m IH]; [reflexivity|].
  cbn [fmap list_fmap]. rewrite negb_involutive. f_equal. exact IH.
Qed.

(** ** [AttributableMultiHeadAttention] *)

(** X2.  A head index outside [0 .. num_heads - 1] is rejected, and a
    write to head [h] followed by a reset leaves alpha as a reset alone
    does; two writes to one head keep the second value, and writes to
    two different heads can be made in either order. *)
Theorem set_weight_composes
    (self : AttributableMultiHeadAttention.layer) (h h' : Z) (a b : spec_float) :
  0 <= h < Z.of_nat (length (AttributableMultiHeadAttention._alpha self)) ->
  0 <= h' < Z.of_nat (length (AttributableMultiHeadAttention._alpha self)) ->
  (forall k, k < 0 \/ Z.of_nat (length (AttributableMultiHeadAttention._alpha self)) <= k ->
     AttributableMultiHeadAttention.set_attention_attribution_weight self k a = None)
  /\ (AttributableMultiHeadAttention.reset_attention_attribution_weights
        <$> AttributableMultiHeadAttention.set_attention_attribution_weight self h a)
     = Some (AttributableMultiHeadAttention.reset_attention_attribution_weights self)
  /\ (AttributableMultiHeadAttention.set_attention_attribution_weight self h a
        ≫= fun s => AttributableMultiHeadAttention.set_attention_attribution_weight s h b)
     = AttributableMultiHeadAttention.set_attention_attribution_weight self h b
  /\ (h <> h' ->
      (AttributableMultiHeadAttention.set_attention_attribution_weight self h a
         ≫= fun s => AttributableMultiHeadAttention.set_attention_attribution_weight s h' b)
      = (AttributableMultiHeadAttention.set_attention_attribution_weight self h' b
         ≫= fun s => AttributableMultiHeadAttention.set_attention_attribution_weight s h a)).
Proof.
  intros Hh Hh'.
  assert (Hin : forall (s : AttributableMultiHeadAttention.layer) k x,
            0 <= k < Z.of_nat (length (AttributableMultiHeadAttention._alpha s)) ->
            AttributableMultiHeadAttention.set_attention_attribution_weight s k x
            = Some {| AttributableMultiHeadAttention._num_heads :=
                        AttributableMultiHeadAttention._num_heads s;
                      AttributableMultiHeadAttention._key_dim :=
                        AttributableMultiHeadAttention._key_dim s;
                      AttributableMultiHeadAttention._alpha :=
                        <[Z.to_nat k := x]> (AttributableMultiHeadAttention._alpha s) |}).
  { intros s k x Hk.
    unfold AttributableMultiHeadAttention.set_attention_attribution_weight.
    destruct (Z.leb_spec 0 k); [|lia].
    destruct (Z.ltb_spec k (Z.of_nat (length (AttributableMultiHeadAttention._alpha s))));
      [reflexivity|lia]. }
  split; [|split; [|split]].
  - intros k Hk.
    unfold AttributableMultiHeadAttention.set_attention_attribution_weight.
    destruct (Z.leb_spec 0 k); [|reflexivity].
    destruct (Z.ltb_spec k (Z.of_nat (length (AttributableMultiHeadAttention._alpha self))));
      [lia|reflexivity].
  - rewrite Hin by exact Hh. reflexivity.
  - rewrite (Hin self h a Hh). cbn [mbind option_bind].
    rewrite Hin by (cbn; rewrite length_insert; exact Hh).
    rewrite (Hin self h b Hh). cbn. rewrite list_insert_insert_eq. reflexivity.
  - intros Hne. rewrite (Hin self h a Hh), (Hin self h' b Hh'). cbn [mbind option_bind].
    rewrite !Hin by (cbn; rewrite length_insert; assumption). cbn.
    rewrite list_insert_insert_ne by lia. reflexivity.
Qed.

Lemma set_weight_composes_witness :
  AttributableMultiHeadAttention.set_attention_attribution_weight
    (AttributableMultiHeadAttention.init 3 4) 3 F32.half = None
  /\ (AttributableMultiHeadAttention.set_attention_attribution_weight
        (AttributableMultiHeadAttention.init 3 4) 0 F32.half
        ≫= fun s => AttributableMultiHeadAttention.set_attention_attribution_weight
                      s 2 F32.zero)
     = (AttributableMultiHeadAttention.set_attention_attribution_weight
          (AttributableMultiHeadAttention.init 3 4) 2 F32.zero
        ≫= fun s => AttributableMultiHeadAttention.set_attention_attribution_weight
                      s 0 F32.half).
Proof.
  destruct (set_weight_composes (AttributableMultiHeadAttention.init 3 4) 0 2
              F32.half F32.zero) as (Hout & _ & _ & Hcomm).
  - simpl. lia.
  - simpl. lia.
  - split; [apply Hout; simpl; lia|apply Hcomm; lia].
Defined.

Lemma mul_zero_finite (x : spec_float) :
  finite x -> IEEE.is_zero (F32.mul F32.zero x) = true.
Proof. destruct x as [s|s| |s m e]; cbn; intros H; first [reflexivity|contradiction]. Qed.

(** X3.  A head whose weight is [0.0] contributes nothing: every finite
    score of that head comes out of the product with alpha as a zero,
    so after [set_attention_attribution_weight(h, 0.0)] the scores of
    head [h] are all zero, whatever the softmax gave. *)
Theorem zero_weight_silences_head
    (self self' : AttributableMultiHeadAttention.layer) (h : Z)
    (s : list (list (list (list spec_float))))
    (b : nat) (heads : list (list (list spec_float))) (m : list (list spec_float)) :
  AttributableMultiHeadAttention.set_attention_attribution_weight self h F32.zero
  = Some self' ->
  s !! b = Some heads ->
  heads !! Z.to_nat h = Some m ->
  Forall (Forall finite) m ->
  exists heads' m',
    AttributableMultiHeadAttention.multiply_alpha
      (AttributableMultiHeadAttention._alpha self') s !! b = Some heads'
    /\ heads' !! Z.to_nat h = Some m'
    /\ length m' = length m
    /\ Forall (Forall (fun x => IEEE.is_zero x = true)) m'.
Proof.
  unfold AttributableMultiHeadAttention.set_attention_attribution_weight.
  destruct (Z.leb_spec 0 h) as [H0|]; [|discriminate].
  destruct (Z.ltb_spec h (Z.of_nat (length (AttributableMultiHeadAttention._alpha self))))
    as [Hlt|]; [|discriminate].
  cbn [andb]. intros Hset Hb Hh Hfin. injection Hset as <-.
  cbn [AttributableMultiHeadAttention._alpha].
  unfold AttributableMultiHeadAttention.multiply_alpha.
  eexists _, _. split; [rewrite list_lookup_fmap, Hb; reflexivity|].
  split.
  { rewrite lookup_zip_with, list_lookup_insert_eq by lia. cbn. rewrite Hh. reflexivity. }
  split; [apply length_fmap|].
  clear Hh. induction Hfin as [|row m Hrow _ IH]; [constructor|].
  cbn [fmap list_fmap]. constructor; [|exact IH].
  clear IH. induction Hrow as [|x row Hx _ IHr]; [constructor|].
  cbn [fmap list_fmap]. constructor; [apply mul_zero_finite; exact Hx|exact IHr].
Qed.

Lemma zero_weight_silences_head_witness :
  exists heads' m',
    AttributableMultiHeadAttention.multiply_alpha [F32.one; F32.zero]
      [[[[F32.half]]; [[F32.one; F32.half]]]] !! 0%nat = Some heads'
    /\ heads' !! 1%nat = Some m'
    /\ Forall (Forall (fun x => IEEE.is_zero x = true)) m'.
Proof.
  destruct (zero_weight_silences_head
              (AttributableMultiHeadAttention.init 2 4)
              {| AttributableMultiHeadAttention._num_heads := 2;
                 AttributableMultiHeadAttention._key_dim := 4;
                 AttributableMultiHeadAttention._alpha := [F32.one; F32.zero] |} 1
              [[[[F32.half]]; [[F32.one; F32.half]]]] 0
              [[[F32.half]]; [[F32.one; F32.half]]] [[F32.one; F32.half]])
    as (heads' & m' & H1 & H2 & _ & H3).
  - reflexivity.
  - reflexivity.
  - reflexivity.
  - repeat constructor.
  - exists heads', m'. split; [exact H1|]. split; assumption.
Defined.

(** ** [ChunkedEmbeddingLayer] *)

Lemma numel_app (a b : list nat) :
  ChunkedEmbeddingLayer.numel (a ++ b)
  = (ChunkedEmbeddingLayer.numel a * ChunkedEmbeddingLayer.numel b)%nat.
Proof.
  unfold ChunkedEmbeddingLayer.numel.
  induction a as [|x a IH]; cbn [app foldr]; [lia|]. rewrite IH. lia.
Qed.

Lemma zero_chunk_keeps_looping {A B : Type}
    (f : ChunkedEmbeddingLayer.tensor A -> option bool -> ChunkedEmbeddingLayer.tensor B)
    (x : ChunkedEmbeddingLayer.tensor A) (training : option bool) (fuel : nat) :
  0 < Z.of_nat (ChunkedEmbeddingLayer.dim0 x) ->
  forall r,
  ChunkedEmbeddingLayer.while_loop fuel
    (fun '(i, _) => i <? Z.of_nat (ChunkedEmbeddingLayer.dim0 x))
    (fun '(i, result) =>
       r ← ChunkedEmbeddingLayer.concat0 result
              (f (ChunkedEmbeddingLayer.slice0 i (i + 0) x) training);
       Some (i + 0, r))
    (0, r)
  = None.
Proof.
  intros Hn. induction fuel as [|fuel IH]; intros r; [reflexivity|].
  cbn [ChunkedEmbeddingLayer.while_loop].
  destruct (Z.ltb_spec 0 (Z.of_nat (ChunkedEmbeddingLayer.dim0 x))) as [_|?]; [|lia].
  destruct (ChunkedEmbeddingLayer.concat0 _ _) as [r'|]; [|reflexivity].
  cbn [mbind option_bind]. apply IH.
Qed.

(** X4.  A [chunk_size] of 0 never yields a result: on every input that
    holds at least one entry, [call] either raises or its
    [tf.while_loop] keeps running, however many steps it is given.  The
    counter of the loop stays at 0, so the width of its integer type
    plays no part. *)
Theorem zero_chunk_never_returns {A B : Type}
    (self : ChunkedEmbeddingLayer.layer A B)
    (inputs : ChunkedEmbeddingLayer.tensor A) (training : option bool) :
  ChunkedEmbeddingLayer.chunk_size self = Some 0 ->
  ChunkedEmbeddingLayer.data inputs <> [] ->
  forall fuel, ChunkedEmbeddingLayer.call self fuel inputs training = None.
Proof.
  intros Hc Hdata fuel. unfold ChunkedEmbeddingLayer.call. rewrite Hc.
  destruct (ChunkedEmbeddingLayer.reshape_infer inputs _) as [flat|] eqn:Hflat;
    [|reflexivity].
  cbn [mbind option_bind].
  unfold ChunkedEmbeddingLayer.reshape_infer in Hflat.
  destruct (decide (_ = 0%nat)) as [?|Hr]; [discriminate|].
  destruct (decide (_ = 0%nat)) as [Hm|?]; [|discriminate].
  injection Hflat as <-.
  set (len := length (ChunkedEmbeddingLayer.data inputs)) in *.
  set (right := ChunkedEmbeddingLayer.numel _) in *.
  assert (Hlen : (0 < len)%nat).
  { subst len. destruct (ChunkedEmbeddingLayer.data inputs); [congruence|cbn; lia]. }
  assert (Hdiv : (0 < len / right)%nat).
  { pose proof (Nat.div_mod_eq len right) as Hdm. rewrite Hm in Hdm.
    destruct (len / right)%nat; lia. }
  unfold ChunkedEmbeddingLayer.dim0 at 1. cbn [ChunkedEmbeddingLayer.shape hd].
  destruct (Z.leb_spec (Z.of_nat (len / right)) 0) as [?|_]; [lia|].
  unfold ChunkedEmbeddingLayer._batch_predict.
  rewrite zero_chunk_keeps_looping; [reflexivity|].
  unfold ChunkedEmbeddingLayer.dim0. cbn [ChunkedEmbeddingLayer.shape hd]. lia.
Qed.

Lemma zero_chunk_never_returns_witness :
  ChunkedEmbeddingLayer.call (chunked batch_size_layer (Some 0)) 1000
    (ChunkedEmbeddingLayer.Tensor [2; 1]%nat [5; 7]) None = None.
Proof.
  apply (zero_chunk_never_returns (chunked batch_size_layer (Some 0))).
  - reflexivity.
  - discriminate.
Defined.

(** X5.  Without chunking the layer is time distributed: it folds the
    leading axes [shape[:axis+1]] into one batch axis, applies the
    wrapped layer once, and unfolds the batch axis of the result again.
    When the wrapped layer keeps the number of rows, the result has the
    shape [shape[:axis+1] + result.shape[1:]] and the wrapped layer's
    entries. *)
Theorem single_shot_restores_leading_axes {A B : Type}
    (self : ChunkedEmbeddingLayer.layer A B)
    (inputs : ChunkedEmbeddingLayer.tensor A) (training : option bool)
    (s : list nat) (d : list B) (fuel : nat) :
  let ax := if ChunkedEmbeddingLayer.axis self <? 0
            then ChunkedEmbeddingLayer.rank inputs + ChunkedEmbeddingLayer.axis self
            else ChunkedEmbeddingLayer.axis self in
  let left := ChunkedEmbeddingLayer.slice_to (ax + 1) (ChunkedEmbeddingLayer.shape inputs) in
  let right :=
    ChunkedEmbeddingLayer.slice_from (ax + 1) (ChunkedEmbeddingLayer.shape inputs) in
  ChunkedEmbeddingLayer.chunk_size self = None ->
  ChunkedEmbeddingLayer.well_formed inputs ->
  ChunkedEmbeddingLayer.numel right <> 0%nat ->
  ChunkedEmbeddingLayer.sublayer self
    (ChunkedEmbeddingLayer.Tensor (ChunkedEmbeddingLayer.numel left :: right)
       (ChunkedEmbeddingLayer.data inputs)) training
  = ChunkedEmbeddingLayer.Tensor (ChunkedEmbeddingLayer.numel left :: s) d ->
  length d = (ChunkedEmbeddingLayer.numel left * ChunkedEmbeddingLayer.numel s)%nat ->
  ChunkedEmbeddingLayer.call self fuel inputs training
  = Some (ChunkedEmbeddingLayer.Tensor (left ++ s) d).
Proof.
  intros ax left right Hc Hwf Hr Hsub Hd.
  unfold ChunkedEmbeddingLayer.call. rewrite Hc.
  fold ax. fold left. fold right.
  assert (Hshape : left ++ right = ChunkedEmbeddingLayer.shape inputs).
  { apply take_drop. }
  assert (Hlen : length (ChunkedEmbeddingLayer.data inputs)
                 = (ChunkedEmbeddingLayer.numel left
                    * ChunkedEmbeddingLayer.numel right)%nat).
  { rewrite Hwf, <- Hshape. apply numel_app. }
  unfold ChunkedEmbeddingLayer.reshape_infer.
  destruct (decide (ChunkedEmbeddingLayer.numel right = 0%nat)) as [?|_]; [contradiction|].
  rewrite Hlen, Nat.Div0.mod_mul, Nat.div_mul by exact Hr.
  destruct (decide (0%nat = 0%nat)) as [_|?]; [|congruence].
  cbn [mbind option_bind]. rewrite Hsub.
  assert (Hre : ChunkedEmbeddingLayer.reshape
                  (ChunkedEmbeddingLayer.Tensor (ChunkedEmbeddingLayer.numel left :: s) d)
                  (left ++ s)
                = Some (ChunkedEmbeddingLayer.Tensor (left ++ s) d)).
  { unfold ChunkedEmbeddingLayer.reshape. cbn [ChunkedEmbeddingLayer.data].
    rewrite numel_app, Hd.
    destruct (decide (_ = _)) as [_|?]; [reflexivity|congruence]. }
  unfold ChunkedEmbeddingLayer.stop_gradient.
  destruct (ChunkedEmbeddingLayer.stop_gradient_flag self);
    cbn [ChunkedEmbeddingLayer.shape tl]; exact Hre.
Qed.

Lemma single_shot_restores_leading_axes_witness :
  ChunkedEmbeddingLayer.call (chunked batch_size_layer None) 0
    (ChunkedEmbeddingLayer.Tensor [2; 3; 1]%nat [1; 2; 3; 4; 5; 6]) None
  = Some (ChunkedEmbeddingLayer.Tensor [2; 3; 1]%nat [6; 6; 6; 6; 6; 6]).
Proof.
  apply (single_shot_restores_leading_axes (chunked batch_size_layer None)
           (ChunkedEmbeddingLayer.Tensor [2; 3; 1]%nat [1; 2; 3; 4; 5; 6]) None
           [1%nat] [6; 6; 6; 6; 6; 6] 0).
  - reflexivity.
  - reflexivity.
  - discriminate.
  - reflexivity.
  - reflexivity.
Defined.

(** ** [ContiguousMask] *)

Lemma multiply_ones_rows (offs : list Z) (len : nat) (rows : list (list Z)) :
  length offs = length rows ->
  Forall (fun r => length r = len) rows ->
  Forall (fun o => 0 <= o) offs ->
  TF.multiply ((fun off => span_mask_row off 0 len) <$> offs) rows = rows.
Proof.
  intros Hlen Hrows Hoffs. unfold TF.multiply.
  apply list_eq. intros b.
  rewrite lookup_zip_with, list_lookup_fmap.
  destruct (rows !! b) as [row|] eqn:Hrow.
  - assert (Hb : (b < length offs)%nat).
    { rewrite Hlen. eapply lookup_lt_Some. exact Hrow. }
    destruct (lookup_lt_is_Some_2 offs b Hb) as [off Hoff].
    rewrite Hoff. cbn. f_equal.
    assert (Hrl : length row = len).
    { eapply Forall_lookup_1 in Hrows; [exact Hrows|exact Hrow]. }
    apply list_eq. intros p. rewrite lookup_zip_with.
    destruct (row !! p) as [x|] eqn:Hp.
    + assert (Hpl : (p < len)%nat).
      { rewrite <- Hrl. eapply lookup_lt_Some. exact Hp. }
      rewrite span_mask_row_lookup by exact Hpl. cbn.
      case_bool_decide; [lia|]. f_equal. lia.
    + destruct (span_mask_row off 0 len !! p); reflexivity.
  - destruct (offs !! b); reflexivity.
Qed.

(** X6.  When the mask length comes out as 0, as it does for a short
    sequence at a small ratio, [call] masks nothing: it returns its
    input unchanged, whatever offsets are drawn. *)
Theorem contiguous_mask_of_length_zero
    (self : ContiguousMask.layer) (offs : list Z) (inputs : TF.tensor2 Z) :
  TF.well_shaped inputs ->
  ContiguousMask.mask_len self (Z.of_nat (TF.cols inputs)) = Some 0 ->
  ContiguousMask.drawn offs (length (TF.rows inputs)) (Z.of_nat (TF.cols inputs) + 1) ->
  ContiguousMask.call self offs inputs = Some inputs.
Proof.
  intros Hshape Hk (Hmax & Hlen & Hoffs).
  unfold ContiguousMask.call. rewrite Hk. cbn [mbind option_bind].
  destruct (Z.ltb_spec 0 (Z.of_nat (TF.cols inputs) - 0 + 1)) as [_|?]; [|lia].
  rewrite span_mask_rows, multiply_ones_rows.
  - destruct inputs; reflexivity.
  - exact Hlen.
  - exact Hshape.
  - eapply Forall_impl; [exact Hoffs|]. cbn. intros; lia.
Qed.

Lemma contiguous_mask_of_length_zero_witness :
  ContiguousMask.call {| ContiguousMask.mask_ratio := tau_default |} [1; 2]
    (TF.Tensor2 2 [[3; 4]; [5; 6]])
  = Some (TF.Tensor2 2 [[3; 4]; [5; 6]]).
Proof.
  apply (contiguous_mask_of_length_zero
           {| ContiguousMask.mask_ratio := tau_default |} [1; 2]
           (TF.Tensor2 2 [[3; 4]; [5; 6]])).
  - repeat constructor.
  - vm_compute. reflexivity.
  - split; [simpl; lia|]. split; [reflexivity|].
    repeat constructor; simpl; lia.
Defined.

(** ** [token_attribution]: identifiers, labels and the walk *)

Section TokenMaps.
Import attention_attribution.
#[local] Set Warnings "-clear-no-such-hyp".

Lemma register_one_to_one (token_ids : gmap string Z) (name : string) :
  numbered token_ids -> one_to_one token_ids -> one_to_one (register token_ids name).
Proof.
  unfold numbered, one_to_one, register. intros Hnum Hinj.
  destruct (token_ids !! name) eqn:Hname; [exact Hinj|].
  assert (Hfresh : forall k, token_ids !! k <> Some (Z.of_nat (size token_ids))).
  { intros k Hk.
    assert (Hin : Z.of_nat (size token_ids) ∈ map_img (SA := gset Z) token_ids).
    { apply elem_of_map_img. exists k. exact Hk. }
    rewrite Hnum in Hin. apply elem_of_id_range in Hin. lia. }
  intros k1 k2 id H1 H2.
  destruct (decide (k1 = name)) as [->|Hk1], (decide (k2 = name)) as [->|Hk2].
  - reflexivity.
  - rewrite lookup_insert_eq in H1. injection H1 as <-.
    rewrite lookup_insert_ne in H2 by congruence. exfalso. eapply Hfresh. exact H2.
  - rewrite lookup_insert_eq in H2. injection H2 as <-.
    rewrite lookup_insert_ne in H1 by congruence. exfalso. eapply Hfresh. exact H1.
  - rewrite lookup_insert_ne in H1, H2 by congruence. eapply Hinj; eassumption.
Qed.

Lemma collect_one_to_one (metadata_key : list string -> list string)
    (store : gmap string value) (length : nat) (token_ids : gmap string Z) :
  collect_token_ids metadata_key store length = Some token_ids -> one_to_one token_ids.
Proof.
  unfold collect_token_ids. intros Hrun.
  apply (for_each_invariant (fun m => numbered m /\ one_to_one m)) in Hrun as [_ H];
    [exact H| |].
  - intros ids n ids' _ Hids Hstep. cbn beta in Hstep.
    destruct (token_names_of metadata_key store n) as [names|];
      cbn [mbind option_bind] in Hstep; [|discriminate].
    injection Hstep as <-. revert ids Hids.
    induction names as [|name names IH]; intros ids Hids; [exact Hids|].
    cbn [foldl]. apply IH. destruct Hids as [Hnum Hinj].
    split; [apply register_numbered; exact Hnum|apply register_one_to_one; assumption].
  - split.
    + unfold numbered. rewrite map_img_empty_L, map_size_empty. reflexivity.
    + intros k1 k2 id H. rewrite lookup_empty in H. discriminate.
Qed.

(** [{v: k for k, v in token_ids.items()}] looks up the name of an
    identifier. *)
Lemma reverse_lookup (token_ids : gmap string Z) (id : Z) (name : string) :
  one_to_one token_ids ->
  (list_to_map ((fun kv : string * Z => (kv.2, kv.1)) <$> map_to_list token_ids)
     : gmap Z string) !! id = Some name
  <-> token_ids !! name = Some id.
Proof.
  intros Hinj.
  assert (Hnd : NoDup (((fun kv : string * Z => (kv.2, kv.1))
                          <$> map_to_list token_ids).*1)).
  { rewrite <- list_fmap_compose.
    apply NoDup_fmap_2_strong; [|apply NoDup_map_to_list].
    intros [k1 v1] [k2 v2] H1 H2 Heq. cbn in Heq. subst v2.
    apply elem_of_map_to_list in H1, H2. f_equal. eapply Hinj; eassumption. }
  rewrite <- (elem_of_list_to_map _ _ _ Hnd), list_elem_of_fmap. split.
  - intros ([k v] & Heq & Hin). cbn in Heq. injection Heq as -> ->.
    apply elem_of_map_to_list. exact Hin.
  - intros H. exists (name, id). split; [reflexivity|].
    apply elem_of_map_to_list. exact H.
Qed.

(** The candidate edges of a finished walk: every edge was met in a
    layer below the last one, between two different tokens. *)
Lemma tree_walk_edges (iter : gset (Z * Z) -> list (Z * Z)) (len_taus : nat)
    (edges_by_layer : list (gset (Z * Z))) (P : Z * Z -> Prop) (t t' : walk) :
  (forall l layer i j,
     0 <= l <= Z.of_nat len_taus - 2 ->
     edges_by_layer !! Z.to_nat l = Some layer ->
     (i, j) ∈ iter layer -> i <> j -> P (i, j)) ->
  (forall e, e ∈ edges t -> P e) ->
  tree_walk iter len_taus edges_by_layer t = Some t' ->
  forall e, e ∈ edges t' -> P e.
Proof.
  intros HP Ht Hrun. unfold tree_walk in Hrun.
  eapply (for_each_invariant (fun t => forall e, e ∈ edges t -> P e));
    [|exact Ht|exact Hrun].
  intros s l s' Hl Hs Hlayer. cbn beta in Hlayer.
  destruct (edges_by_layer !! Z.to_nat l) as [layer|] eqn:Hlook;
    cbn [mbind option_bind] in Hlayer; [|discriminate].
  apply elem_of_range_down in Hl.
  eapply (for_each_invariant (fun t => forall e, e ∈ edges t -> P e));
    [|exact Hs|exact Hlayer].
  intros s0 [i j] s0' He Hs0 Hvisit.
  apply visit_cases in Hvisit as [->|(b & -> & _ & _ & Hij)]; [exact Hs0|].
  intros e. unfold attach. cbn [edges]. rewrite elem_of_union, elem_of_singleton.
  intros [->|Hold]; [|apply Hs0; exact Hold].
  eapply HP; [|exact Hlook|exact He|exact Hij]. lia.
Qed.

(** Every vertex of a walk from [top] is reached from [top] along the
    edges of the walk. *)
Lemma tree_walk_reaches (iter : gset (Z * Z) -> list (Z * Z)) (len_taus : nat)
    (edges_by_layer : list (gset (Z * Z))) (top : Z) (keys : gset Z) (t t' : walk) :
  walk_ok top keys t ->
  (forall v, v ∈ vertices t -> rtc (fun a b => (a, b) ∈ edges t) top v) ->
  tree_walk iter len_taus edges_by_layer t = Some t' ->
  forall v, v ∈ vertices t' -> rtc (fun a b => (a, b) ∈ edges t') top v.
Proof.
  intros Hok Ht Hrun. unfold tree_walk in Hrun.
  pose (Q := fun t : walk =>
               walk_ok top keys t
               /\ forall v, v ∈ vertices t -> rtc (fun a b => (a, b) ∈ edges t) top v).
  assert (HQ : Q t') ; [|exact (proj2 HQ)].
  eapply (for_each_invariant Q); [|split; [exact Hok|exact Ht]|exact Hrun].
  intros s l s' _ Hs Hlayer. cbn beta in Hlayer.
  destruct (edges_by_layer !! Z.to_nat l) as [layer|];
    cbn [mbind option_bind] in Hlayer; [|discriminate].
  eapply (for_each_invariant Q); [|exact Hs|exact Hlayer].
  intros s0 [i j] s0' _ [Hok0 Hr0] Hvisit.
  split; [eapply visit_ok; eassumption|].
  apply visit_cases in Hvisit as [->|(b & -> & Hi & _ & _)]; [exact Hr0|].
  assert (Hiv : i ∈ vertices s0).
  { destruct Hok0 as [(rank & bound & Hv & _) _]. apply Hv. exact Hi. }
  assert (Hmono : forall v, rtc (fun a b => (a, b) ∈ edges s0) top v ->
                            rtc (fun x y => (x, y) ∈ edges (attach s0 i j b)) top v).
  { intros v. apply rtc_subrel. intros a c Hac. unfold attach. cbn [edges].
    apply elem_of_union. right. exact Hac. }
  intros v. unfold attach at 1. cbn [vertices].
  rewrite elem_of_union, elem_of_singleton. intros [->|Hv].
  - eapply rtc_r; [apply Hmono, Hr0, Hiv|].
    unfold attach. cbn [edges]. apply elem_of_union. left.
    apply elem_of_singleton. reflexivity.
  - apply Hmono, Hr0, Hv.
Qed.

End TokenMaps.

Section AttributionStages.
Import attention_attribution.
#[local] Set Warnings "-clear-no-such-hyp".

(** The stages [token_attribution] goes through when it returns. *)
Lemma token_attribution_stages (metadata_key : list string -> list string)
    (iter : gset (Z * Z) -> list (Z * Z)) (store : gmap string value)
    (tau : spec_float) (r : attribution) :
  token_attribution metadata_key iter store tau = Some r <->
  exists n token_ids shape shape0 acc top t,
    store_length store = Some n
    /\ collect_token_ids metadata_key store n = Some token_ids
    /\ shape_of store 0 = Some shape
    /\ head shape = Some shape0
    /\ for_each (seq 0 n)
         (process_record metadata_key store token_ids (taus_of tau shape0))
         (no_totals (length (taus_of tau shape0))) = Some acc
    /\ top_node acc = Some top
    /\ attribution_tree iter (map_img token_ids) top (length (taus_of tau shape0))
         (edges_by_layer acc) = Some t
    /\ r = {| token_id_map :=
                <[-1 := "[CLS]"]>
                  (list_to_map ((fun kv : string * Z => (kv.2, kv.1))
                                  <$> map_to_list token_ids));
              token_attrs := token_total_attrs acc;
              tree_edges := edges t;
              tree_vertices := vertices t |}.
Proof.
  unfold token_attribution, token_attribution_from. split.
  - intros H.
    apply bind_Some in H as (n & Hn & H).
    apply bind_Some in H as (token_ids & Hids & H).
    apply bind_Some in H as (shape & Hshape & H).
    apply bind_Some in H as (shape0 & Hshape0 & H).
    cbv zeta in H.
    apply bind_Some in H as (acc & Hacc & H).
    apply bind_Some in H as (top & Htop & H).
    apply bind_Some in H as (t & Htree & H).
    injection H as <-.
    exists n, token_ids, shape, shape0, acc, top, t. repeat (split; [assumption|]).
    reflexivity.
  - intros (n & token_ids & shape & shape0 & acc & top & t
            & Hn & Hids & Hshape & Hshape0 & Hacc & Htop & Htree & ->).
    rewrite Hn. cbn [mbind option_bind]. rewrite Hids. cbn [mbind option_bind].
    rewrite Hshape. cbn [mbind option_bind]. rewrite Hshape0. cbn [mbind option_bind].
    cbv zeta. unfold no_totals in Hacc. rewrite Hacc. cbn [mbind option_bind].
    rewrite Htop. cbn [mbind option_bind]. rewrite Htree. reflexivity.
Qed.

(** The top node is one of the identifiers handed out. *)
Lemma top_node_known (metadata_key : list string -> list string)
    (store : gmap string value) (token_ids : gmap string Z) (taus : list spec_float)
    (items : list nat) (acc0 acc : totals) (top : Z) :
  top_node acc0 = None ->
  for_each items (process_record metadata_key store token_ids taus) acc0 = Some acc ->
  top_node acc = Some top ->
  top ∈ map_img (SA := gset Z) token_ids.
Proof.
  intros H0 Hacc Htop.
  assert (Hinv : forall id, top_node acc = Some id ->
                            id ∈ map_img (SA := gset Z) token_ids).
  { eapply (for_each_invariant
              (fun a => forall id, top_node a = Some id ->
                                   id ∈ map_img (SA := gset Z) token_ids));
      [| |exact Hacc].
    - intros a n a' _ Ha Hstep id Hid.
      apply process_record_top in Hstep as [Hsame|(id' & Hnew & Hin)].
      + apply Ha. rewrite <- Hsame. exact Hid.
      + rewrite Hnew in Hid. injection Hid as <-. exact Hin.
    - intros id Hid. rewrite H0 in Hid. discriminate Hid. }
  apply Hinv. exact Htop.
Qed.

(** A loop whose steps all succeed under an invariant succeeds. *)
Lemma for_each_total {A S : Type} (P : S -> Prop) (items : list A)
    (body : S -> A -> option S) (s : S) :
  (forall s x, x ∈ items -> P s -> exists s', body s x = Some s' /\ P s') ->
  P s -> exists s', for_each items body s = Some s' /\ P s'.
Proof.
  revert s. induction items as [|x items IH]; intros s Hbody Hs.
  - exists s. split; [reflexivity|exact Hs].
  - destruct (Hbody s x) as (s1 & Hstep & Hs1); [constructor|exact Hs|].
    cbn [for_each]. rewrite Hstep. cbn [mbind option_bind].
    apply IH; [|exact Hs1].
    intros s0 y Hy. apply Hbody. constructor. exact Hy.
Qed.

Lemma visit_total (top : Z) (keys : gset Z) (t : walk) (i j : Z) :
  walk_ok top keys t -> i ∈ keys -> j ∈ keys -> is_Some (visit t (i, j)).
Proof.
  intros [_ Hdom] Hi Hj. rewrite <- Hdom in Hi, Hj.
  apply elem_of_dom in Hi as [s_i Hi]. apply elem_of_dom in Hj as [s_j Hj].
  unfold visit. destruct (decide (i = j)) as [->|Hij]; [eauto|].
  rewrite Hi. cbn [mbind option_bind].
  destruct s_i; cbn [mbind option_bind].
  - rewrite Hi. cbn [mbind option_bind]. eauto.
  - rewrite Hj. cbn [mbind option_bind].
    destruct s_j; cbn [mbind option_bind].
    + cbn [state attach].
      rewrite (lookup_insert_ne _ j i Appear) by congruence.
      rewrite !lookup_insert_eq. cbn [mbind option_bind]. eauto.
    + rewrite Hi. cbn [mbind option_bind]. eauto.
    + rewrite Hi. cbn [mbind option_bind]. eauto.
  - rewrite Hi. cbn [mbind option_bind]. rewrite Hj. cbn [mbind option_bind].
    destruct s_j; eauto.
Qed.

(** The walk and the class token loop return when every candidate edge
    joins two of the identifiers [0 .. m - 1]. *)
Lemma attribution_tree_total (iter : gset (Z * Z) -> list (Z * Z)) (m : nat)
    (top : Z) (len_taus : nat) (edges_by_layer : list (gset (Z * Z))) :
  top ∈ id_range m ->
  (len_taus - 1 <= length edges_by_layer)%nat ->
  (forall l layer i j,
     edges_by_layer !! l = Some layer -> (i, j) ∈ iter layer ->
     i ∈ id_range m /\ j ∈ id_range m) ->
  is_Some (attribution_tree iter (id_range m) top len_taus edges_by_layer).
Proof.
  intros Htop Hlen Hcand. unfold attribution_tree.
  assert (Hstart : walk_ok top (id_range m) (start (id_range m) top)).
  { split; [eexists _, _; apply start_inv|].
    unfold start. cbn [state]. rewrite dom_insert_L, dom_gset_to_gmap. set_solver. }
  destruct (for_each_total (walk_ok top (id_range m)) (walk_layers len_taus)
              (fun t l => layer ← edges_by_layer !! Z.to_nat l;
                          for_each (iter layer) visit t)
              (start (id_range m) top)) as (t & Hwalk & Hok); [|exact Hstart|].
  { intros s l Hl Hs. apply elem_of_range_down in Hl.
    destruct (lookup_lt_is_Some_2 edges_by_layer (Z.to_nat l)) as [layer Hlayer]; [lia|].
    rewrite Hlayer. cbn [mbind option_bind].
    apply for_each_total; [|exact Hs].
    intros s0 [i j] He Hs0.
    destruct (Hcand _ _ _ _ Hlayer He) as [Hi Hj].
    destruct (visit_total top (id_range m) s0 i j Hs0 Hi Hj) as [s1 Hs1].
    exists s1. split; [exact Hs1|]. eapply visit_ok; eassumption. }
  unfold tree_walk. rewrite Hwalk. cbn [mbind option_bind].
  unfold inject_class_token.
  destruct Hok as [_ Hdom].
  assert (Hsize : size (state t) = m).
  { rewrite <- size_dom, Hdom. apply size_id_range. }
  destruct (for_each_total (fun w => state w = state t)
              (range_down (Z.of_nat (size (state t)) - 1))
              (fun t j =>
                 s_j ← state t !! j;
                 match s_j with
                 | Appear | Fixed =>
                     Some (Walk (state t) ({[ (-1, j) ]} ∪ edges t) (vertices t))
                 | NotAppear => Some t
                 end)
              (Walk (state t) (edges t) ({[ -1 ]} ∪ vertices t)))
    as (t' & Hrun & _); [|reflexivity|rewrite Hrun; eauto].
  intros s j Hj Hs. apply elem_of_range_down in Hj.
  assert (Hjd : j ∈ dom (state s)).
  { rewrite Hs, Hdom. apply elem_of_id_range. lia. }
  apply elem_of_dom in Hjd as [s_j Hsj]. rewrite Hsj. cbn [mbind option_bind].
  destruct s_j; eexists; (split; [reflexivity|]); cbn [state]; exact Hs.
Qed.

(** Every pair of [layer_edges] joins two identifiers of [token_ids]. *)
Lemma layer_edges_known (token_ids : gmap string Z) (token_names : list string)
    (a_ij : list (list spec_float)) (tau : spec_float) (new : list (Z * Z)) :
  layer_edges token_ids token_names a_ij tau = Some new ->
  forall i j, (i, j) ∈ new ->
    i ∈ map_img (SA := gset Z) token_ids /\ j ∈ map_img (SA := gset Z) token_ids.
Proof.
  unfold layer_edges. intros H.
  apply bind_Some in H as (hits & _ & H).
  apply mapM_Some in H. intros i j Hin.
  apply list_elem_of_lookup in Hin as [k Hk].
  destruct (Forall2_lookup_r _ _ _ _ _ H Hk) as ([a b] & _ & Hab).
  apply bind_Some in Hab as (name_i & _ & Hab).
  apply bind_Some in Hab as (name_j & _ & Hab).
  apply bind_Some in Hab as (iu & Hiu & Hab).
  apply bind_Some in Hab as (ju & Hju & Hab).
  injection Hab as <- <-.
  split; apply elem_of_map_img; eauto.
Qed.

(** A record leaves as many edge sets as there are thresholds, all of
    pairs of identifiers. *)
Lemma process_record_edges (metadata_key : list string -> list string)
    (store : gmap string value) (token_ids : gmap string Z) (taus : list spec_float)
    (acc acc' : totals) (n : nat) :
  length (edges_by_layer acc) = length taus ->
  (forall l layer i j, edges_by_layer acc !! l = Some layer -> (i, j) ∈ layer ->
     i ∈ map_img (SA := gset Z) token_ids /\ j ∈ map_img (SA := gset Z) token_ids) ->
  process_record metadata_key store token_ids taus acc n = Some acc' ->
  length (edges_by_layer acc') = length taus
  /\ forall l layer i j, edges_by_layer acc' !! l = Some layer -> (i, j) ∈ layer ->
       i ∈ map_img (SA := gset Z) token_ids /\ j ∈ map_img (SA := gset Z) token_ids.
Proof.
  intros Hlen Hin. unfold process_record. intros H.
  apply bind_Some in H as (shape & _ & H).
  apply bind_Some in H as (token_names & _ & H).
  apply bind_Some in H as (buffer & _ & H).
  apply bind_Some in H as (attrs & _ & H).
  cbv zeta in H.
  apply bind_Some in H as (token_attrs & _ & H).
  apply bind_Some in H as (totals' & _ & H).
  apply bind_Some in H as (max_value & _ & H).
  apply bind_Some in H as (top & _ & H).
  apply bind_Some in H as (layers & Hlayers & H).
  injection H as <-. cbn [edges_by_layer].
  apply mapM_Some in Hlayers. split.
  - rewrite <- (Forall2_length _ _ _ Hlayers), length_imap, length_zip. lia.
  - intros l layer i j Hl Hij.
    destruct (Forall2_lookup_r _ _ _ _ _ Hlayers Hl) as ([l' [tau0 old]] & Hsrc & Hstep).
    rewrite list_lookup_imap in Hsrc.
    destruct (zip taus (edges_by_layer acc) !! l) as [[tau1 old1]|] eqn:Hz;
      [|discriminate].
    cbn in Hsrc. injection Hsrc as <- <- <-.
    apply lookup_zip_with_Some in Hz as (tau2 & old2 & Hpair & _ & Hold).
    injection Hpair as <- <-.
    apply bind_Some in Hstep as (a_ij & _ & Hstep).
    apply bind_Some in Hstep as (new & Hnew & Hstep).
    injection Hstep as <-.
    apply elem_of_union in Hij as [Hij|Hij].
    + eapply Hin; eassumption.
    + apply elem_of_list_to_set in Hij. eapply layer_edges_known; eassumption.
Qed.

End AttributionStages.

(** X7.  The identifiers of the token names are [0 .. len(token_ids) - 1],
    one per name, and [token_id_map] reads them backwards: an identifier
    other than [-1] is mapped to a name exactly when [token_ids] maps
    that name to it, [-1] is mapped to ["[CLS]"], and every vertex of the
    graph has a label. *)
Theorem token_id_map_inverts_token_ids
    (metadata_key : list string -> list string)
    (iter : gset (Z * Z) -> list (Z * Z))
    (store : gmap string attention_attribution.value) (tau : spec_float)
    (r : attention_attribution.attribution) :
  attention_attribution.token_attribution metadata_key iter store tau = Some r ->
  exists n token_ids,
    attention_attribution.store_length store = Some n
    /\ attention_attribution.collect_token_ids metadata_key store n = Some token_ids
    /\ (forall id, (exists name, token_ids !! name = Some id)
                   <-> 0 <= id < Z.of_nat (size token_ids))
    /\ (forall name id,
          token_ids !! name = Some id
          <-> attention_attribution.token_id_map r !! id = Some name /\ id <> -1)
    /\ attention_attribution.token_id_map r !! (-1) = Some "[CLS]"
    /\ forall v, v ∈ attention_attribution.tree_vertices r ->
                 is_Some (attention_attribution.token_id_map r !! v).
Proof.
  intros H.
  apply token_attribution_stages in H
    as (n & token_ids & shape & shape0 & acc & top & t
        & Hn & Hids & _ & _ & Hacc & Htop & Htree & ->).
  exists n, token_ids. split; [exact Hn|]. split; [exact Hids|].
  pose proof (collect_numbered _ _ _ _ Hids) as Hnum. unfold numbered in Hnum.
  pose proof (collect_one_to_one _ _ _ _ Hids) as Hinj.
  assert (Hrange : forall id, (exists name, token_ids !! name = Some id)
                              <-> 0 <= id < Z.of_nat (size token_ids)).
  { intros id. rewrite <- elem_of_id_range, <- Hnum, elem_of_map_img. reflexivity. }
  cbn [attention_attribution.token_id_map attention_attribution.tree_vertices].
  split; [exact Hrange|]. split; [|split].
  - intros name id. split.
    + intros Hname.
      assert (Hid : 0 <= id) by (apply Hrange; eauto).
      split; [|lia]. rewrite lookup_insert_ne by lia.
      apply reverse_lookup; assumption.
    + intros [Hlook Hne]. rewrite lookup_insert_ne in Hlook by congruence.
      apply reverse_lookup in Hlook; assumption.
  - apply lookup_insert_eq.
  - intros v Hv.
    assert (Htopin : top ∈ map_img (SA := gset Z) token_ids).
    { eapply top_node_known; [|exact Hacc|exact Htop]. reflexivity. }
    rewrite Hnum in Htopin, Htree.
    destruct (attribution_tree_shape _ _ _ _ _ _ Htopin Htree)
      as (_ & _ & Hvs & _).
    destruct (Hvs v Hv) as [->|Hin].
    + rewrite lookup_insert_eq. eauto.
    + assert (Hv0 : 0 <= v) by lia.
      apply Hrange in Hin as [name Hname].
      exists name. rewrite lookup_insert_ne by lia.
      apply reverse_lookup; assumption.
Qed.

Lemma token_id_map_inverts_token_ids_witness :
  exists r,
    attention_attribution.token_attribution id elements example_store tau_default
    = Some r
    /\ attention_attribution.token_id_map r !! (-1) = Some "[CLS]"
    /\ forall v, v ∈ attention_attribution.tree_vertices r ->
                 is_Some (attention_attribution.token_id_map r !! v).
Proof.
  destruct (attention_attribution.token_attribution id elements example_store
              tau_default) as [r|] eqn:Hr.
  - destruct (token_id_map_inverts_token_ids id elements example_store tau_default r Hr)
      as (n & token_ids & _ & _ & _ & _ & Hcls & Hv).
    exists r. split; [reflexivity|]. split; assumption.
  - vm_compute in Hr. discriminate Hr.
Defined.

(** X8.  A store that counts no record makes [token_attribution] raise:
    either the key ["0_attr_shape"] is missing, or the assertion that a
    top node was found fails.  A store without ["length"] and with fewer
    than four entries is such a store. *)
Theorem no_record_raises
    (metadata_key : list string -> list string)
    (iter : gset (Z * Z) -> list (Z * Z))
    (store : gmap string attention_attribution.value) (tau : spec_float) :
  attention_attribution.store_length store = Some 0%nat ->
  attention_attribution.token_attribution metadata_key iter store tau = None.
Proof.
  intros Hn.
  unfold attention_attribution.token_attribution,
         attention_attribution.token_attribution_from.
  rewrite Hn. cbn [mbind option_bind].
  unfold attention_attribution.collect_token_ids.
  cbn [seq attention_attribution.for_each mbind option_bind].
  destruct (attention_attribution.shape_of store 0) as [shape|]; [|reflexivity].
  cbn [mbind option_bind].
  destruct (head shape) as [shape0|]; reflexivity.
Qed.

Lemma no_record_raises_witness :
  attention_attribution.token_attribution id elements
    (<[attention_attribution.key 0 "attr_shape" :=
         attention_attribution.Shape [2; 1; 3; 3]%nat]>
       (<[attention_attribution.key 0 "metadata" :=
            attention_attribution.Names ["a"; "b"]]> ∅))
    tau_default
  = None.
Proof.
  apply no_record_raises. vm_compute. reflexivity.
Defined.

(** X9.  The walk invents no edge: every edge of the tree either leaves
    the class token [-1], or joins two different tokens and is a
    candidate edge of a layer below the last one. *)
Theorem tree_edges_are_candidates
    (iter : gset (Z * Z) -> list (Z * Z)) (ids : gset Z) (top : Z) (len_taus : nat)
    (edges_by_layer : list (gset (Z * Z))) (t : attention_attribution.walk) :
  attention_attribution.attribution_tree iter ids top len_taus edges_by_layer = Some t ->
  forall i j, (i, j) ∈ attention_attribution.edges t ->
    i = -1
    \/ (i <> j
        /\ exists l layer,
             0 <= l <= Z.of_nat len_taus - 2
             /\ edges_by_layer !! Z.to_nat l = Some layer
             /\ (i, j) ∈ iter layer).
Proof.
  unfold attention_attribution.attribution_tree. intros Hrun.
  apply bind_Some in Hrun as (t0 & Hwalk & Hinject).
  apply inject_class_token_spec in Hinject as (_ & _ & He).
  intros i j Hij. apply He in Hij as [Hold|(j' & Heq & _)];
    [|left; congruence].
  right.
  apply (tree_walk_edges iter len_taus edges_by_layer
           (fun e => e.1 <> e.2
                     /\ exists l layer,
                          0 <= l <= Z.of_nat len_taus - 2
                          /\ edges_by_layer !! Z.to_nat l = Some layer
                          /\ e ∈ iter layer)
           _ _) with (e := (i, j)) in Hwalk; [exact Hwalk| | |exact Hold].
  - intros l layer a b Hl Hlayer Hab Hne. split; [exact Hne|]. eauto.
  - intros e He0. cbn in He0. apply elem_of_empty in He0. contradiction.
Qed.

Lemma tree_edges_are_candidates_witness :
  exists t,
    attention_attribution.attribution_tree elements {[0; 1; 2]} 0 3
      [{[ (0, 1) ]}; {[ (1, 2) ]}; {[ (0, 2) ]}] = Some t
    /\ forall i j, (i, j) ∈ attention_attribution.edges t ->
         i = -1
         \/ (i <> j
             /\ exists l layer,
                  0 <= l <= 1
                  /\ [{[ (0, 1) ]}; {[ (1, 2) ]}; {[ (0, 2) ]}] !! Z.to_nat l
                     = Some layer
                  /\ (i, j) ∈ elements (layer : gset (Z * Z))).
Proof.
  destruct (attention_attribution.attribution_tree elements {[0; 1; 2]} 0 3
              [{[ (0, 1) ]}; {[ (1, 2) ]}; {[ (0, 2) ]}]) as [t|] eqn:Ht.
  - exists t. split; [reflexivity|].
    exact (tree_edges_are_candidates elements {[0; 1; 2]} 0 3
             [{[ (0, 1) ]}; {[ (1, 2) ]}; {[ (0, 2) ]}] t Ht).
  - vm_compute in Ht. discriminate Ht.
Defined.

(** X10.  The token part of the graph hangs together: every vertex other
    than the class token is reached from the top node along edges that
    leave tokens. *)
Theorem every_vertex_reached_from_top
    (metadata_key : list string -> list string)
    (iter : gset (Z * Z) -> list (Z * Z))
    (store : gmap string attention_attribution.value) (tau : spec_float)
    (r : attention_attribution.attribution) :
  attention_attribution.token_attribution metadata_key iter store tau = Some r ->
  exists top : Z,
    top <> -1
    /\ top ∈ attention_attribution.tree_vertices r
    /\ (forall k, (k, top) ∈ attention_attribution.tree_edges r <-> k = -1)
    /\ forall v, v ∈ attention_attribution.tree_vertices r -> v <> -1 ->
                 rtc (token_edge (attention_attribution.tree_edges r)) top v.
Proof.
  intros H.
  apply token_attribution_stages in H
    as (n & token_ids & shape & shape0 & acc & top & t
        & _ & Hids & _ & _ & Hacc & Htop & Htree & ->).
  cbn [attention_attribution.tree_edges attention_attribution.tree_vertices].
  pose proof (collect_numbered _ _ _ _ Hids) as Hnum. unfold numbered in Hnum.
  assert (Htopin : top ∈ map_img (SA := gset Z) token_ids).
  { eapply top_node_known; [|exact Hacc|exact Htop]. reflexivity. }
  rewrite Hnum in Htopin, Htree.
  destruct (attribution_tree_shape _ _ _ _ _ _ Htopin Htree)
    as (_ & Htopv & _ & _ & _ & Hpar & _).
  exists top. apply elem_of_id_range in Htopin as Htop0.
  split; [lia|]. split; [exact Htopv|]. split; [exact Hpar|].
  unfold attention_attribution.attribution_tree in Htree.
  apply bind_Some in Htree as (t0 & Hwalk & Hinject).
  assert (Hstart : walk_ok top (id_range (size token_ids))
                     (attention_attribution.start (id_range (size token_ids)) top)).
  { split; [eexists _, _; apply start_inv|].
    unfold attention_attribution.start. cbn [attention_attribution.state].
    rewrite dom_insert_L, dom_gset_to_gmap.
    apply set_eq. intros z. rewrite elem_of_union, elem_of_singleton.
    split; [intros [->|Hz]; assumption|auto]. }
  pose proof (tree_walk_ok _ _ _ _ _ _ _ Hstart Hwalk)
    as [(rank & bound & Hv & _ & He & _) Hdom].
  apply inject_class_token_spec in Hinject as (_ & Hv' & He').
  intros v Hvin Hne. rewrite Hv' in Hvin.
  apply elem_of_union in Hvin as [Hvin|Hvin];
    [apply elem_of_singleton in Hvin; contradiction|].
  eapply rtc_subrel;
    [|eapply (tree_walk_reaches iter _ _ top _ _ t0 Hstart); [|exact Hwalk|exact Hvin]].
  - intros a b Hab. split; [apply He'; left; exact Hab|].
    destruct (He a b Hab) as (Ha & _).
    assert (Had : a ∈ dom (attention_attribution.state t0)).
    { apply elem_of_dom. apply Hv in Ha as [Ha|Ha]; rewrite Ha; eauto. }
    rewrite Hdom in Had. apply elem_of_id_range in Had. lia.
  - intros u Hu. cbn in Hu. apply elem_of_singleton in Hu as ->. apply rtc_refl.
Qed.

Lemma every_vertex_reached_from_top_witness :
  exists r top,
    attention_attribution.token_attribution id elements example_store tau_default
    = Some r
    /\ top ∈ attention_attribution.tree_vertices r
    /\ forall v, v ∈ attention_attribution.tree_vertices r -> v <> -1 ->
                 rtc (token_edge (attention_attribution.tree_edges r)) top v.
Proof.
  destruct (attention_attribution.token_attribution id elements example_store
              tau_default) as [r|] eqn:Hr.
  - destruct (every_vertex_reached_from_top id elements example_store tau_default r Hr)
      as (top & _ & Hin & _ & Hreach).
    exists r, top. split; [reflexivity|]. split; assumption.
  - vm_compute in Hr. discriminate Hr.
Defined.

(** X11.  The walk cannot raise.  Whether [token_attribution] returns
    does not depend on the order in which Python enumerates the edge
    sets: when it returns for one order, it returns for every other,
    with the same labels and the same attribution totals. *)
Theorem walk_cannot_raise
    (metadata_key : list string -> list string)
    (iter iter' : gset (Z * Z) -> list (Z * Z))
    (store : gmap string attention_attribution.value) (tau : spec_float)
    (r : attention_attribution.attribution) :
  (forall s e, e ∈ iter' s -> e ∈ s) ->
  attention_attribution.token_attribution metadata_key iter store tau = Some r ->
  exists r',
    attention_attribution.token_attribution metadata_key iter' store tau = Some r'
    /\ attention_attribution.token_id_map r' = attention_attribution.token_id_map r
    /\ attention_attribution.token_attrs r' = attention_attribution.token_attrs r.
Proof.
  intros Hiter H.
  apply token_attribution_stages in H
    as (n & token_ids & shape & shape0 & acc & top & t
        & Hn & Hids & Hshape & Hshape0 & Hacc & Htop & Htree & ->).
  pose proof (collect_numbered _ _ _ _ Hids) as Hnum. unfold numbered in Hnum.
  assert (Htopin : top ∈ map_img (SA := gset Z) token_ids).
  { eapply top_node_known; [|exact Hacc|exact Htop]. reflexivity. }
  assert (Hedges :
    length (attention_attribution.edges_by_layer acc)
    = length (attention_attribution.taus_of tau shape0)
    /\ forall l layer i j,
         attention_attribution.edges_by_layer acc !! l = Some layer -> (i, j) ∈ layer ->
         i ∈ map_img (SA := gset Z) token_ids /\ j ∈ map_img (SA := gset Z) token_ids).
  { eapply (for_each_invariant
              (fun a =>
                 length (attention_attribution.edges_by_layer a)
                 = length (attention_attribution.taus_of tau shape0)
                 /\ forall l layer i j,
                      attention_attribution.edges_by_layer a !! l = Some layer ->
                      (i, j) ∈ layer ->
                      i ∈ map_img (SA := gset Z) token_ids
                      /\ j ∈ map_img (SA := gset Z) token_ids));
      [| |exact Hacc].
    - intros a k a' _ [Hlen Hin] Hstep. eapply process_record_edges; eassumption.
    - unfold no_totals. cbn [attention_attribution.edges_by_layer]. split.
      + apply length_replicate.
      + intros l layer i j Hl Hij. apply lookup_replicate in Hl as [-> _].
        apply elem_of_empty in Hij. contradiction. }
  destruct Hedges as [Hlen Hin].
  destruct (attribution_tree_total iter' (size token_ids) top
              (length (attention_attribution.taus_of tau shape0))
              (attention_attribution.edges_by_layer acc)) as [t' Ht'].
  - rewrite <- Hnum. exact Htopin.
  - lia.
  - intros l layer i j Hl Hij. rewrite <- Hnum. eapply Hin; [exact Hl|].
    apply Hiter. exact Hij.
  - eexists. split.
    + apply token_attribution_stages.
      exists n, token_ids, shape, shape0, acc, top, t'.
      rewrite Hnum. repeat (split; [eassumption|]). reflexivity.
    + split; reflexivity.
Qed.

Lemma walk_cannot_raise_witness :
  exists r r',
    attention_attribution.token_attribution id elements example_store tau_default
    = Some r
    /\ attention_attribution.token_attribution id
         (fun s => reverse (elements s)) example_store tau_default = Some r'
    /\ attention_attribution.token_attrs r' = attention_attribution.token_attrs r.
Proof.
  destruct (attention_attribution.token_attribution id elements example_store
              tau_default) as [r|] eqn:Hr.
  - destruct (walk_cannot_raise id elements (fun s => reverse (elements s))
                example_store tau_default r) as (r' & Hr' & _ & Hattrs).
    + intros s e He. apply elem_of_elements. apply elem_of_reverse. exact He.
    + exact Hr.
    + exists r, r'. split; [reflexivity|]. split; assumption.
  - vm_compute in Hr. discriminate Hr.
Defined.

(** ** [_compute_token_attributions] *)

Section TokenAttributions.
Import attention_attribution.

Lemma for_each_fmap {A A' S : Type} (f : A -> A') (items : list A)
    (body : S -> A' -> option S) (s : S) :
  for_each (f <$> items) body s = for_each items (fun s x => body s (f x)) s.
Proof.
  revert s. induction items as [|x items IH]; intros s; [reflexivity|].
  cbn [fmap list_fmap for_each]. destruct (body s (f x)) as [s'|]; [|reflexivity].
  cbn [mbind option_bind]. apply IH.
Qed.

Lemma mapM_pointwise {A B : Type} (f g : A -> option B) (l : list A) :
  (forall x, x ∈ l -> f x = g x) -> mapM f l = mapM g l.
Proof.
  induction l as [|x l IH]; intros Hfg; [reflexivity|].
  cbn [mapM]. rewrite (Hfg x) by constructor.
  rewrite IH; [reflexivity|]. intros y Hy. apply Hfg. constructor. exact Hy.
Qed.

End TokenAttributions.

(** X12.  A token's attribution ignores the attention the token pays
    to itself: on square layers, whatever stands on the diagonals
    [a[l, i, i]], [_compute_token_attributions] returns the same sums,
    one per token. *)
Theorem diagonal_is_ignored (num_tokens : nat) (d : spec_float)
    (attrs_by_layer : list (list (list spec_float))) :
  square_layers num_tokens attrs_by_layer ->
  exists sums,
    attention_attribution._compute_token_attributions num_tokens
      (set_diagonal d attrs_by_layer) = Some sums
    /\ attention_attribution._compute_token_attributions num_tokens attrs_by_layer
       = Some sums
    /\ length sums = num_tokens.
Proof.
  intros Hsquare.
  assert (Hsame :
    attention_attribution._compute_token_attributions num_tokens
      (set_diagonal d attrs_by_layer)
    = attention_attribution._compute_token_attributions num_tokens attrs_by_layer).
  { unfold attention_attribution._compute_token_attributions, set_diagonal.
    apply mapM_pointwise. intros i _.
    rewrite for_each_fmap. apply for_each_ext. intros acc layer _.
    rewrite list_lookup_imap.
    destruct (layer !! i) as [row|]; [|reflexivity].
    cbn [fmap option_fmap option_map mbind option_bind].
    apply for_each_ext. intros acc' j _.
    destruct (decide (j = i)) as [_|Hne]; [reflexivity|].
    rewrite list_lookup_insert_ne by congruence. reflexivity. }
  destruct (attention_attribution._compute_token_attributions num_tokens attrs_by_layer)
    as [sums|] eqn:Hsums.
  - exists sums. split; [exact Hsame|]. split; [reflexivity|].
    unfold attention_attribution._compute_token_attributions in Hsums.
    apply mapM_Some in Hsums. apply Forall2_length in Hsums.
    rewrite length_seq in Hsums. congruence.
  - exfalso.
    assert (Hs : is_Some (attention_attribution._compute_token_attributions num_tokens
                            attrs_by_layer)).
    { unfold attention_attribution._compute_token_attributions.
      apply mapM_is_Some. apply Forall_forall. intros i Hi. apply elem_of_seq in Hi.
      cbn.
      destruct (for_each_total (fun _ : spec_float => True) attrs_by_layer
                  (fun attr_all_i (layer : list (list spec_float)) =>
                     row ← layer !! i;
                     attention_attribution.for_each (seq 0 num_tokens)
                       (fun acc j =>
                          if decide (j = i) then Some acc
                          else x ← row !! j; Some (F64.add acc (F64.of_f32 x)))
                       attr_all_i)
                  F64.zero) as (total & Htotal & _); [|exact I|rewrite Htotal; eauto].
      intros acc layer Hlayer _.
      eapply Forall_forall in Hsquare as [Hrows Hcols]; [|exact Hlayer].
      destruct (lookup_lt_is_Some_2 layer i) as [row Hrow]; [lia|].
      rewrite Hrow. cbn [mbind option_bind].
      apply for_each_total; [|exact I].
      intros acc' j Hj _. apply elem_of_seq in Hj.
      destruct (decide (j = i)) as [_|_]; [eauto|].
      eapply Forall_lookup_1 in Hcols; [|exact Hrow].
      destruct (lookup_lt_is_Some_2 row j) as [x Hx]; [lia|].
      rewrite Hx. cbn [mbind option_bind]. eauto. }
    rewrite Hsums in Hs. destruct Hs as [? Hs]. discriminate Hs.
Qed.

Lemma diagonal_is_ignored_witness :
  exists sums,
    attention_attribution._compute_token_attributions 2
      (set_diagonal F32.half [[[F32.one; F32.one]; [F32.half; F32.one]]]) = Some sums
    /\ attention_attribution._compute_token_attributions 2
         [[[F32.one; F32.one]; [F32.half; F32.one]]] = Some sums.
Proof.
  destruct (diagonal_is_ignored 2 F32.half [[[F32.one; F32.one]; [F32.half; F32.one]]])
    as (sums & Hset & Hplain & _).
  - repeat constructor.
  - exists sums. split; [exact Hset|exact Hplain].
Defined.

(** ** [KmerEncoder] *)

Section KmerFacts.

Lemma int32_small (z : Z) : -2147483648 <= z < 2147483648 -> KmerEncoder.int32 z = z.
Proof.
  intros H. unfold KmerEncoder.int32. rewrite Z.mod_small by lia. lia.
Qed.

Lemma length_range_down (s : Z) :
  length (attention_attribution.range_down s) = Z.to_nat (s + 1).
Proof. unfold attention_attribution.range_down. rewrite length_fmap, length_seq. lia. Qed.

(** The exact powers [nb^(k-1), ..., nb^0]. *)
Lemma weighted_sum (nb : Z) (window : list Z) (acc : Z) :
  foldl (fun acc b => acc * nb + b) acc window
  = acc * nb ^ Z.of_nat (length window)
    + foldr Z.add 0
        (zip_with Z.mul window
           ((fun e => nb ^ e)
              <$> attention_attribution.range_down (Z.of_nat (length window) - 1))).
Proof.
  revert acc. induction window as [|b window IH]; intros acc.
  - cbn. lia.
  - cbn [foldl length]. rewrite IH.
    rewrite (range_down_cons (Z.of_nat (S (length window)) - 1)) by lia.
    replace (Z.of_nat (S (length window)) - 1 - 1) with (Z.of_nat (length window) - 1)
      by lia.
    replace (Z.of_nat (S (length window)) - 1) with (Z.of_nat (length window)) by lia.
    cbn [fmap list_fmap zip_with foldr].
    replace (Z.of_nat (S (length window))) with (Z.succ (Z.of_nat (length window)))
      by lia.
    rewrite Z.pow_succ_r by lia. lia.
Qed.

Lemma kmer_value_bounds (nb : Z) (window : list Z) (acc bound : Z) :
  1 <= nb ->
  Forall (fun x => 0 <= x < nb) window ->
  0 <= acc < bound ->
  0 <= foldl (fun acc b => acc * nb + b) acc window
    < bound * nb ^ Z.of_nat (length window).
Proof.
  intros Hnb Hw. revert acc bound.
  induction Hw as [|b window Hb _ IH]; intros acc bound Hacc.
  - cbn. lia.
  - cbn [foldl length].
    replace (Z.of_nat (S (length window))) with (Z.succ (Z.of_nat (length window)))
      by lia.
    rewrite Z.pow_succ_r by lia.
    replace (bound * (nb * nb ^ Z.of_nat (length window)))
      with ((bound * nb) * nb ^ Z.of_nat (length window)) by lia.
    apply IH. nia.
Qed.

Lemma kmer_value_inj (nb : Z) (w1 w2 : list Z) :
  Forall (fun x => 0 <= x < nb) w1 ->
  Forall (fun x => 0 <= x < nb) w2 ->
  length w1 = length w2 ->
  forall acc1 acc2,
  foldl (fun acc b => acc * nb + b) acc1 w1 = foldl (fun acc b => acc * nb + b) acc2 w2 ->
  acc1 = acc2 /\ w1 = w2.
Proof.
  intros H1. revert w2. induction H1 as [|b1 w1 Hb1 _ IH]; intros w2 H2 Hlen acc1 acc2.
  - destruct w2; [|discriminate]. cbn. auto.
  - destruct H2 as [|b2 w2 Hb2 H2]; [discriminate|].
    cbn [foldl]. intros Heq.
    apply IH in Heq as [Hacc ->]; [|exact H2|cbn in Hlen; lia].
    assert (Ha : acc1 = acc2).
    { destruct (Z.lt_trichotomy acc1 acc2) as [Hlt|[Heq|Hgt]]; [|exact Heq|].
      - assert (0 <= (acc2 - acc1 - 1) * nb) by (apply Z.mul_nonneg_nonneg; lia). lia.
      - assert (0 <= (acc1 - acc2 - 1) * nb) by (apply Z.mul_nonneg_nonneg; lia). lia. }
    subst acc2. split; [reflexivity|]. f_equal. lia.
Qed.

Lemma pow_le_kmer (nb k e : Z) :
  1 <= nb -> 0 <= e <= k -> nb ^ e <= nb ^ k.
Proof. intros Hnb He. apply Z.pow_le_mono_r; lia. Qed.

(** The kernel holds the exact powers when the largest k-mer number
    fits [int32]. *)
Lemma kernel_exact (self : KmerEncoder.layer) :
  1 <= KmerEncoder.num_bases self ->
  KmerEncoder.num_bases self ^ KmerEncoder.kmer self < 2147483648 ->
  KmerEncoder.kernel self
  = (fun e => KmerEncoder.num_bases self ^ e)
      <$> attention_attribution.range_down (KmerEncoder.kmer self - 1).
Proof.
  intros Hnb Hfit. unfold KmerEncoder.kernel.
  apply Forall_fmap_ext_1. apply Forall_forall. intros e He.
  apply elem_of_range_down in He.
  apply int32_small.
  pose proof (pow_le_kmer (KmerEncoder.num_bases self) (KmerEncoder.kmer self) e Hnb)
    as Hle.
  assert (0 < KmerEncoder.num_bases self ^ e) by (apply Z.pow_pos_nonneg; lia).
  lia.
Qed.

(** One output of the convolution is the number the window spells. *)
Lemma dot_kmer_value (self : KmerEncoder.layer) (window : list Z) :
  1 <= KmerEncoder.num_bases self ->
  KmerEncoder.num_bases self ^ KmerEncoder.kmer self < 2147483648 ->
  Z.of_nat (length window) = KmerEncoder.kmer self ->
  Forall (fun x => 0 <= x < KmerEncoder.num_bases self) window ->
  KmerEncoder.dot window (KmerEncoder.kernel self)
  = kmer_value (KmerEncoder.num_bases self) window
  /\ 0 <= kmer_value (KmerEncoder.num_bases self) window
       < KmerEncoder.num_bases self ^ KmerEncoder.kmer self.
Proof.
  intros Hnb Hfit Hlen Hw.
  pose proof (kmer_value_bounds (KmerEncoder.num_bases self) window 0 1 Hnb Hw) as Hb.
  rewrite Hlen in Hb.
  assert (Hrange : 0 <= kmer_value (KmerEncoder.num_bases self) window
                   < KmerEncoder.num_bases self ^ KmerEncoder.kmer self).
  { unfold kmer_value. lia. }
  split; [|exact Hrange].
  unfold KmerEncoder.dot. rewrite kernel_exact by assumption.
  pose proof (weighted_sum (KmerEncoder.num_bases self) window 0) as Hsum.
  rewrite Hlen in Hsum. fold (kmer_value (KmerEncoder.num_bases self) window) in Hsum.
  replace (foldr Z.add 0 _) with (kmer_value (KmerEncoder.num_bases self) window) by lia.
  apply int32_small. lia.
Qed.

End KmerFacts.

Section KmerCall.

Lemma kmer_window_ok (self : KmerEncoder.layer) (row : list Z) (p : nat) :
  1 <= KmerEncoder.kmer self ->
  Forall (fun x => 0 <= x < KmerEncoder.num_bases self) row ->
  (p < kmer_count self (length row))%nat ->
  KmerEncoder.kmer self <= Z.of_nat (length row) ->
  Z.of_nat (length (kmer_window self row p)) = KmerEncoder.kmer self
  /\ Forall (fun x => 0 <= x < KmerEncoder.num_bases self) (kmer_window self row p).
Proof.
  intros Hk Hrow Hp Hfit. unfold kmer_window. split.
  - rewrite length_take, length_drop.
    assert (Hs : (0 < kmer_stride self)%nat).
    { unfold kmer_stride. destruct (KmerEncoder.overlap self); lia. }
    unfold kmer_count in Hp.
    assert (Hle : (p * kmer_stride self
                   <= length row - Z.to_nat (KmerEncoder.kmer self))%nat).
    { transitivity (((length row - Z.to_nat (KmerEncoder.kmer self)) / kmer_stride self)
                    * kmer_stride self)%nat.
      - apply Nat.mul_le_mono_r. lia.
      - rewrite Nat.mul_comm. apply Nat.Div0.mul_div_le. }
    lia.
  - apply Forall_take, Forall_drop. exact Hrow.
Qed.

(** The output of [call] in closed form. *)
Lemma kmer_call_closed (self : KmerEncoder.layer) (inputs : TF.tensor2 Z) :
  encodable self inputs ->
  KmerEncoder.call self inputs
  = Some (TF.Tensor2 (kmer_count self (TF.cols inputs))
            ((fun row =>
                (fun p => kmer_value (KmerEncoder.num_bases self) (kmer_window self row p)
                          + kmer_shift self)
                  <$> seq 0 (kmer_count self (TF.cols inputs)))
               <$> TF.rows inputs)).
Proof.
  intros (Hk & Hnb & Hfit & Hpad & Hshape & Hwidth & Hbases).
  assert (Hlen : length (KmerEncoder.kernel self) = Z.to_nat (KmerEncoder.kmer self)).
  { unfold KmerEncoder.kernel. rewrite length_fmap, length_range_down. f_equal. lia. }
  assert (Hstride : Z.to_nat (if KmerEncoder.overlap self then 1
                              else KmerEncoder.kmer self) = kmer_stride self).
  { unfold kmer_stride. destruct (KmerEncoder.overlap self); reflexivity. }
  unfold KmerEncoder.call, KmerEncoder.conv1d.
  destruct (decide (_ \/ _)) as [[H|H]|_];
    [rewrite Hlen in H; lia|destruct (KmerEncoder.overlap self); lia|].
  rewrite Hpad. destruct (decide ("VALID" = "VALID")) as [_|?]; [|congruence].
  destruct (decide (_ < _)%nat) as [H|_]; [rewrite Hlen in H; lia|].
  cbn [mbind option_bind]. rewrite Hlen, Hstride. fold (kmer_count self (TF.cols inputs)).
  assert (Hrows :
    forall row, row ∈ TF.rows inputs ->
      (fun x => KmerEncoder.int32 (x + kmer_shift self))
        <$> KmerEncoder.conv1d_row row (KmerEncoder.kernel self) (kmer_stride self)
              (kmer_count self (TF.cols inputs))
      = (fun p => kmer_value (KmerEncoder.num_bases self) (kmer_window self row p)
                  + kmer_shift self)
          <$> seq 0 (kmer_count self (TF.cols inputs))).
  { intros row Hrow.
    assert (Hrl : length row = TF.cols inputs).
    { eapply Forall_forall in Hshape; [exact Hshape|exact Hrow]. }
    assert (Hrb : Forall (fun x => 0 <= x < KmerEncoder.num_bases self) row).
    { eapply Forall_forall in Hbases; [exact Hbases|exact Hrow]. }
    unfold KmerEncoder.conv1d_row. rewrite <- list_fmap_compose.
    apply Forall_fmap_ext_1. apply Forall_forall. intros p Hp.
    apply elem_of_seq in Hp. cbn [compose]. rewrite Hlen.
    fold (kmer_window self row p).
    destruct (kmer_window_ok self row p Hk Hrb) as [Hwl Hwb]; [rewrite Hrl; lia|lia|].
    destruct (dot_kmer_value self (kmer_window self row p) Hnb Hfit Hwl Hwb)
      as [-> Hrange].
    apply int32_small. unfold kmer_shift.
    destruct (KmerEncoder.include_mask_token self); lia. }
  unfold kmer_shift in *.
  destruct (KmerEncoder.include_mask_token self); cbn [TF.cols TF.rows]; do 2 f_equal.
  - rewrite <- list_fmap_compose. apply Forall_fmap_ext_1. apply Forall_forall.
    intros row Hrow. cbn [compose]. apply Hrows. exact Hrow.
  - apply Forall_fmap_ext_1. apply Forall_forall. intros row Hrow.
    rewrite <- (Hrows row Hrow).
    rewrite <- (list_fmap_id (KmerEncoder.conv1d_row _ _ _ _)) at 1.
    apply Forall_fmap_ext_1. apply Forall_forall. intros x Hx. cbn.
    unfold KmerEncoder.conv1d_row in Hx. apply list_elem_of_fmap in Hx as (p & -> & Hp).
    apply elem_of_seq in Hp.
    assert (Hrl : length row = TF.cols inputs).
    { eapply Forall_forall in Hshape; [exact Hshape|exact Hrow]. }
    assert (Hrb : Forall (fun x => 0 <= x < KmerEncoder.num_bases self) row).
    { eapply Forall_forall in Hbases; [exact Hbases|exact Hrow]. }
    rewrite Hlen. fold (kmer_window self row p).
    destruct (kmer_window_ok self row p Hk Hrb) as [Hwl Hwb]; [rewrite Hrl; lia|lia|].
    destruct (dot_kmer_value self (kmer_window self row p) Hnb Hfit Hwl Hwb)
      as [Hdot Hrange].
    rewrite Hdot, Z.add_0_r. symmetry. apply int32_small. lia.
Qed.

End KmerCall.

Lemma example_bases_encodable : encodable kmer3 example_bases.
Proof.
  unfold encodable, kmer3, example_bases. cbn.
  split; [lia|]. split; [lia|]. split; [lia|]. split; [reflexivity|].
  split; [repeat constructor|]. split; [lia|].
  repeat constructor; lia.
Qed.

(** X13.  On bases in [0 .. num_bases - 1] the encoder returns, for each
    window of [kmer] bases, the number the window spells at the base
    [num_bases], most significant base first, plus 1 when the mask token
    is included.  The windows start [1] apart when they overlap and
    [kmer] apart when they do not, and a row of [L] bases gives
    [(L - kmer) // stride + 1] numbers. *)
Theorem kmer_codes_spell_windows (self : KmerEncoder.layer) (inputs : TF.tensor2 Z) :
  encodable self inputs ->
  exists out,
    KmerEncoder.call self inputs = Some out
    /\ TF.cols out = kmer_count self (TF.cols inputs)
    /\ length (TF.rows out) = length (TF.rows inputs)
    /\ forall (b : nat) (row : list Z),
         TF.rows inputs !! b = Some row ->
         exists codes,
           TF.rows out !! b = Some codes
           /\ length codes = kmer_count self (TF.cols inputs)
           /\ forall p : nat,
                (p < kmer_count self (TF.cols inputs))%nat ->
                codes !! p
                = Some (kmer_value (KmerEncoder.num_bases self)
                          (take (Z.to_nat (KmerEncoder.kmer self))
                                (drop (p * kmer_stride self) row))
                        + (if KmerEncoder.include_mask_token self then 1 else 0)).
Proof.
  intros Henc. eexists. split; [apply kmer_call_closed; exact Henc|].
  cbn [TF.cols TF.rows]. split; [reflexivity|]. split; [apply length_fmap|].
  intros b row Hrow. eexists. split; [rewrite list_lookup_fmap, Hrow; reflexivity|].
  split; [rewrite length_fmap, length_seq; reflexivity|].
  intros p Hp. rewrite list_lookup_fmap, lookup_seq_lt by exact Hp. reflexivity.
Qed.

Lemma kmer_codes_spell_windows_witness :
  KmerEncoder.call kmer3 example_bases = Some (TF.Tensor2 3 [[7; 28; 45]])
  /\ exists out,
       KmerEncoder.call kmer3 example_bases = Some out
       /\ TF.cols out = kmer_count kmer3 (TF.cols example_bases).
Proof.
  split; [vm_compute; reflexivity|].
  destruct (kmer_codes_spell_windows kmer3 example_bases example_bases_encodable)
    as (out & Hcall & Hcols & _).
  exists out. split; assumption.
Defined.

(** X14.  No k-mer gets the identifier of the mask token: with
    [include_mask_token] the numbers lie in [1 .. num_bases^kmer], and
    without it in [0 .. num_bases^kmer - 1]. *)
Theorem kmer_codes_in_range (self : KmerEncoder.layer) (inputs out : TF.tensor2 Z) :
  encodable self inputs ->
  KmerEncoder.call self inputs = Some out ->
  Forall (Forall (fun code =>
                    if KmerEncoder.include_mask_token self
                    then 1 <= code <= KmerEncoder.num_bases self ^ KmerEncoder.kmer self
                    else 0 <= code < KmerEncoder.num_bases self ^ KmerEncoder.kmer self))
         (TF.rows out).
Proof.
  intros Henc Hcall. rewrite (kmer_call_closed self inputs Henc) in Hcall.
  injection Hcall as <-. cbn [TF.rows].
  destruct Henc as (Hk & Hnb & Hfit & _ & Hshape & Hwidth & Hbases).
  apply Forall_fmap. apply Forall_forall. intros row Hrow. cbn [compose].
  apply Forall_fmap. apply Forall_forall. intros p Hp. cbn [compose].
  apply elem_of_seq in Hp.
  assert (Hrl : length row = TF.cols inputs).
  { eapply Forall_forall in Hshape; [exact Hshape|exact Hrow]. }
  assert (Hrb : Forall (fun x => 0 <= x < KmerEncoder.num_bases self) row).
  { eapply Forall_forall in Hbases; [exact Hbases|exact Hrow]. }
  destruct (kmer_window_ok self row p Hk Hrb) as [Hwl Hwb]; [rewrite Hrl; lia|lia|].
  destruct (dot_kmer_value self (kmer_window self row p) Hnb Hfit Hwl Hwb)
    as [_ Hrange].
  unfold kmer_shift. destruct (KmerEncoder.include_mask_token self); lia.
Qed.

Lemma kmer_codes_in_range_witness :
  Forall (Forall (fun code => 1 <= code <= 4 ^ 3)) [[7; 28; 45]].
Proof.
  exact (kmer_codes_in_range kmer3 example_bases (TF.Tensor2 3 [[7; 28; 45]])
           example_bases_encodable eq_refl).
Defined.

(** X15.  The encoding loses nothing: two windows, of the same row or
    of different rows, get the same number only when they hold the same
    bases. *)
Theorem kmer_codes_tell_windows_apart
    (self : KmerEncoder.layer) (inputs out : TF.tensor2 Z)
    (b b' p p' : nat) (row row' codes codes' : list Z) (code : Z) :
  encodable self inputs ->
  KmerEncoder.call self inputs = Some out ->
  TF.rows inputs !! b = Some row ->
  TF.rows inputs !! b' = Some row' ->
  TF.rows out !! b = Some codes ->
  TF.rows out !! b' = Some codes' ->
  codes !! p = Some code ->
  codes' !! p' = Some code ->
  take (Z.to_nat (KmerEncoder.kmer self)) (drop (p * kmer_stride self) row)
  = take (Z.to_nat (KmerEncoder.kmer self)) (drop (p' * kmer_stride self) row').
Proof.
  intros Henc Hcall Hrow Hrow' Hcodes Hcodes' Hp Hp'.
  rewrite (kmer_call_closed self inputs Henc) in Hcall.
  injection Hcall as <-. cbn [TF.rows] in Hcodes, Hcodes'.
  rewrite list_lookup_fmap, Hrow in Hcodes. injection Hcodes as <-.
  rewrite list_lookup_fmap, Hrow' in Hcodes'. injection Hcodes' as <-.
  destruct Henc as (Hk & Hnb & Hfit & _ & Hshape & Hwidth & Hbases).
  assert (Hwin : forall (q : nat) (r : list Z) (c : Z),
            r ∈ TF.rows inputs ->
            ((fun p => kmer_value (KmerEncoder.num_bases self) (kmer_window self r p)
                       + kmer_shift self)
               <$> seq 0 (kmer_count self (TF.cols inputs))) !! q = Some c ->
            c = kmer_value (KmerEncoder.num_bases self) (kmer_window self r q)
                + kmer_shift self
            /\ Z.of_nat (length (kmer_window self r q)) = KmerEncoder.kmer self
            /\ Forall (fun x => 0 <= x < KmerEncoder.num_bases self)
                      (kmer_window self r q)).
  { intros q r c Hr Hq.
    assert (Hql : (q < kmer_count self (TF.cols inputs))%nat).
    { apply lookup_lt_Some in Hq. rewrite length_fmap, length_seq in Hq. exact Hq. }
    rewrite list_lookup_fmap, lookup_seq_lt in Hq by exact Hql.
    injection Hq as <-. split; [reflexivity|].
    assert (Hrl : length r = TF.cols inputs).
    { eapply Forall_forall in Hshape; [exact Hshape|exact Hr]. }
    assert (Hrb : Forall (fun x => 0 <= x < KmerEncoder.num_bases self) r).
    { eapply Forall_forall in Hbases; [exact Hbases|exact Hr]. }
    apply kmer_window_ok; [exact Hk|exact Hrb|rewrite Hrl; exact Hql|lia]. }
  destruct (Hwin p row code) as (Hc & Hl & Hd);
    [eapply list_elem_of_lookup_2; exact Hrow|exact Hp|].
  destruct (Hwin p' row' code) as (Hc' & Hl' & Hd');
    [eapply list_elem_of_lookup_2; exact Hrow'|exact Hp'|].
  fold (kmer_window self row p). fold (kmer_window self row' p').
  eapply (kmer_value_inj (KmerEncoder.num_bases self) _ _ Hd Hd'); [lia|].
  unfold kmer_value in Hc, Hc'. instantiate (1 := 0). instantiate (1 := 0). lia.
Qed.

Lemma kmer_codes_tell_windows_apart_witness :
  take 3 (drop (0 * 1) [0; 1; 2; 3; 0]) = take 3 (drop (1 * 1) [3; 0; 1; 2; 1]).
Proof.
  assert (Henc : encodable kmer3 (TF.Tensor2 5 [[0; 1; 2; 3; 0]; [3; 0; 1; 2; 1]])).
  { unfold encodable, kmer3. cbn.
    split; [lia|]. split; [lia|]. split; [lia|]. split; [reflexivity|].
    split; [repeat constructor|]. split; [lia|].
    repeat constructor; lia. }
  exact (kmer_codes_tell_windows_apart kmer3
           (TF.Tensor2 5 [[0; 1; 2; 3; 0]; [3; 0; 1; 2; 1]])
           (TF.Tensor2 3 [[7; 28; 45]; [50; 7; 26]])
           0 1 0 1 [0; 1; 2; 3; 0] [3; 0; 1; 2; 1] [7; 28; 45] [50; 7; 26] 7
           Henc eq_refl eq_refl eq_refl eq_refl eq_refl eq_refl eq_refl).
Defined.

(** ** [RelativeMultiHeadAttention._skew] *)

Section Skew.
Import TF.

Lemma chunks_lookup {A : Type} (count size : nat) (l : list A) (i : nat) :
  (i < count)%nat ->
  attention_attribution.chunks count size l !! i = Some (take size (drop (i * size) l)).
Proof.
  revert l i. induction count as [|count IH]; intros l i Hi; [lia|].
  destruct i as [|i]; cbn [attention_attribution.chunks].
  - reflexivity.
  - cbn [lookup list_lookup]. rewrite IH by lia. rewrite drop_drop. reflexivity.
Qed.

Lemma lookup_concat_uniform {A : Type} (w : nat) (m : list (list A)) (r c : nat) :
  Forall (fun row => length row = w) m -> (c < w)%nat ->
  concat m !! (r * w + c)%nat = m !! r ≫= (fun row => row !! c).
Proof.
  intros Hm Hc. revert r. induction Hm as [|row m Hrow _ IH]; intros r.
  - destruct r; reflexivity.
  - cbn [concat]. destruct r as [|r].
    + cbn. rewrite lookup_app_l by lia. reflexivity.
    + rewrite lookup_app_r by (cbn; lia).
      replace (S r * w + c - length row)%nat with (r * w + c)%nat by (cbn; lia).
      cbn [lookup list_lookup]. apply IH.
Qed.

End Skew.

(** X16.  What [_skew] does to a square matrix [QEr] of side [L]: at and
    below the diagonal, entry [(i, j)] of the result is
    [QEr[i, L - 1 - (i - j)]], the product of query [i] with the
    embedding of the distance [i - j]; right above the diagonal it is
    the zero of the padding; and further up it is [QEr[i + 1, j - i - 2]],
    an entry of the next row. *)
Theorem skew_moves_relative_positions {A : Type} (zero : A) (QEr : TF.tensor2 A)
    (i j : nat) :
  TF.well_shaped QEr ->
  length (TF.rows QEr) = TF.cols QEr ->
  (i < TF.cols QEr)%nat -> (j < TF.cols QEr)%nat ->
  TF.cols (RelativeMultiHeadAttention._skew zero QEr) = TF.cols QEr
  /\ length (TF.rows (RelativeMultiHeadAttention._skew zero QEr)) = TF.cols QEr
  /\ TF.entry (TF.rows (RelativeMultiHeadAttention._skew zero QEr)) i j
     = if decide (j <= i)%nat then TF.entry (TF.rows QEr) i (TF.cols QEr - 1 - (i - j))
       else if decide (j = S i) then Some zero
       else TF.entry (TF.rows QEr) (S i) (j - i - 2).
Proof.
  intros Hshape Hsquare Hi Hj.
  unfold RelativeMultiHeadAttention._skew. cbn [TF.cols TF.rows].
  set (L := TF.cols QEr) in *.
  set (padded := (fun row : list A => zero :: row) <$> TF.rows QEr).
  assert (Hpad : Forall (fun row => length row = S L) padded).
  { subst padded. apply Forall_fmap. eapply Forall_impl; [exact Hshape|].
    intros row Hrow. cbn. f_equal. exact Hrow. }
  split; [exact Hsquare|]. split.
  { destruct (attention_attribution.chunks (S L) (length (TF.rows QEr)) (concat padded))
      as [|c cs] eqn:Hc.
    - destruct (length (TF.rows QEr)); discriminate.
    - cbn [tail].
      assert (Hlen : forall (B : Type) count size (l : list B),
                length (attention_attribution.chunks count size l) = count).
      { intros B count. induction count as [|count IH]; intros size l;
          cbn [attention_attribution.chunks length]; [reflexivity|].
        rewrite IH. reflexivity. }
      pose proof (Hlen A (S L) (length (TF.rows QEr)) (concat padded)) as Hl.
      rewrite Hc in Hl. cbn in Hl. lia. }
  unfold TF.entry. rewrite lookup_tail, chunks_lookup by lia.
  cbn [mbind option_bind]. rewrite Hsquare.
  rewrite lookup_take_lt by lia. rewrite lookup_drop.
  assert (Hrow : forall r, padded !! r = (fun row : list A => zero :: row)
                                          <$> TF.rows QEr !! r).
  { intros r. subst padded. apply list_lookup_fmap. }
  destruct (decide (j <= i)%nat) as [Hle|Hgt].
  - replace (S i * L + j)%nat with (i * S L + (L - i + j))%nat by lia.
    rewrite (lookup_concat_uniform (S L)) by (first [exact Hpad|lia]).
    rewrite Hrow. destruct (TF.rows QEr !! i) as [row|]; [|reflexivity].
    cbn [fmap option_fmap option_map mbind option_bind].
    replace (L - i + j)%nat with (S (L - 1 - (i - j))) by lia. reflexivity.
  - destruct (decide (j = S i)) as [->|Hne].
    + replace (S i * L + S i)%nat with (S i * S L + 0)%nat by lia.
      rewrite (lookup_concat_uniform (S L)) by (first [exact Hpad|lia]).
      rewrite Hrow.
      destruct (lookup_lt_is_Some_2 (TF.rows QEr) (S i)) as [row Hr]; [lia|].
      rewrite Hr. reflexivity.
    + replace (S i * L + j)%nat with (S i * S L + (j - i - 1))%nat by lia.
      rewrite (lookup_concat_uniform (S L)) by (first [exact Hpad|lia]).
      rewrite Hrow. destruct (TF.rows QEr !! S i) as [row|]; [|reflexivity].
      cbn [fmap option_fmap option_map mbind option_bind].
      replace (j - i - 1)%nat with (S (j - i - 2)) by lia. reflexivity.
Qed.

Lemma skew_moves_relative_positions_witness :
  TF.rows (RelativeMultiHeadAttention._skew 0 (TF.Tensor2 3 [[1; 2; 3]; [4; 5; 6]; [7; 8; 9]]))
  = [[3; 0; 4]; [5; 6; 0]; [7; 8; 9]]
  /\ TF.entry (TF.rows (RelativeMultiHeadAttention._skew 0
                 (TF.Tensor2 3 [[1; 2; 3]; [4; 5; 6]; [7; 8; 9]]))) 1 0
     = Some 5.
Proof.
  split; [reflexivity|].
  destruct (skew_moves_relative_positions 0
              (TF.Tensor2 3 [[1; 2; 3]; [4; 5; 6]; [7; 8; 9]]) 1 0)
    as (_ & _ & H).
  - repeat constructor.
  - reflexivity.
  - simpl. lia.
  - simpl. lia.
  - exact H.
Defined.

(** ** [InjectClassToken] and [SplitClassToken] *)

Lemma heads_of_injected {A : Type} (token : list A) (seqs : list (list (list A))) :
  mapM head ((fun s : list (list A) => token :: s) <$> seqs)
  = Some (replicate (length seqs) token).
Proof.
  induction seqs as [|s seqs IH]; [reflexivity|].
  cbn [fmap list_fmap mapM length replicate head]. cbn [mbind option_bind].
  change (list_fmap _ _ ?f ?l) with (f <$> l). rewrite IH. reflexivity.
Qed.

Lemma tail_of_cons {B : Type} (l : list (list B)) (c : B) :
  (fun s : list B => tail s) <$> ((fun s : list B => c :: s) <$> l) = l.
Proof.
  rewrite <- list_fmap_compose. rewrite <- (list_fmap_id l) at 2.
  apply list_fmap_ext. intros. reflexivity.
Qed.

(** X17.  [SplitClassToken] undoes [InjectClassToken].  On the values,
    splitting what was injected gives back the class token, once per
    batch entry, and the input itself.  On the masks, the injected mask
    starts every row with [True], so the class token is never masked,
    and splitting it gives back the mask it was made from. *)
Theorem split_undoes_inject {A : Type}
    (self : InjectClassToken.layer A) (inputs : TF3.tensor3 A) (mask : TF.tensor2 bool) :
  TF3.dim inputs = InjectClassToken.embed_dim self ->
  length (TF.rows mask) = length (TF3.items inputs) ->
  exists injected mask',
    InjectClassToken.call self inputs = Some injected
    /\ SplitClassToken.call injected
       = Some (TF.Tensor2 (TF3.dim inputs)
                 (replicate (length (TF3.items inputs))
                            (InjectClassToken.class_token self)),
               inputs)
    /\ InjectClassToken.compute_mask inputs (Some mask) = Some (Some mask')
    /\ Forall (fun row => head row = Some true) (TF.rows mask')
    /\ SplitClassToken.compute_mask (Some mask') = Some (None, mask).
Proof.
  intros Hdim Hbatch. eexists _, _.
  unfold InjectClassToken.call, InjectClassToken.compute_mask.
  destruct (decide (TF3.dim inputs = InjectClassToken.embed_dim self)) as [_|?];
    [|contradiction].
  destruct (decide (length (TF.rows mask) = length (TF3.items inputs))) as [_|?];
    [|contradiction].
  split; [reflexivity|]. split; [|split; [reflexivity|split]].
  - unfold SplitClassToken.call. cbn [TF3.len TF3.dim TF3.items].
    destruct (decide (S (TF3.len inputs) = 0%nat)) as [?|_]; [lia|].
    rewrite heads_of_injected. cbn [mbind option_bind].
    rewrite tail_of_cons.
    replace (S (TF3.len inputs) - 1)%nat with (TF3.len inputs) by lia.
    destruct inputs; reflexivity.
  - cbn [TF.rows]. apply Forall_fmap. apply Forall_true. intros row. reflexivity.
  - unfold SplitClassToken.compute_mask. cbn [TF.cols TF.rows].
    rewrite tail_of_cons.
    replace (S (TF.cols mask) - 1)%nat with (TF.cols mask) by lia.
    destruct mask; reflexivity.
Qed.

Lemma split_undoes_inject_witness :
  exists injected,
    InjectClassToken.call
      {| InjectClassToken.embed_dim := 2; InjectClassToken.class_token := [0; 0] |}
      (TF3.Tensor3 2 2 [[[1; 2]; [3; 4]]]) = Some injected
    /\ SplitClassToken.call injected
       = Some (TF.Tensor2 2 [[0; 0]], TF3.Tensor3 2 2 [[[1; 2]; [3; 4]]]).
Proof.
  destruct (split_undoes_inject
              {| InjectClassToken.embed_dim := 2; InjectClassToken.class_token := [0; 0] |}
              (TF3.Tensor3 2 2 [[[1; 2]; [3; 4]]]) (TF.Tensor2 2 [[true; false]]))
    as (injected & mask' & Hcall & Hsplit & _).
  - reflexivity.
  - reflexivity.
  - exists injected. split; [exact Hcall|exact Hsplit].
Defined.

(** ** [SetMask] *)

Section SetMaskFacts.
Import TF3.

Lemma bound_of_nonneg (len : nat) (k : Z) :
  0 <= k <= Z.of_nat len -> ChunkedEmbeddingLayer.bound len k = Z.to_nat k.
Proof.
  intros Hk. unfold ChunkedEmbeddingLayer.bound.
  destruct (Z.ltb_spec k 0); [lia|]. f_equal. lia.
Qed.

Lemma bound_of_negative (len : nat) (k : Z) :
  0 < k <= Z.of_nat len -> ChunkedEmbeddingLayer.bound len (- k) = (len - Z.to_nat k)%nat.
Proof.
  intros Hk. unfold ChunkedEmbeddingLayer.bound.
  destruct (Z.ltb_spec (- k) 0); lia.
Qed.

End SetMaskFacts.

(** X18.  On a set of [set_size] vectors with [0 < num_mask_tokens <=
    set_size], [call] keeps the first [set_size - num_mask_tokens]
    vectors of every set and puts the mask embeddings in the place of
    the rest, and [masked_embeddings] returns exactly the vectors that
    were replaced: the two parts make up the input.  Applied to the
    output of [call], [masked_embeddings] returns the mask embeddings. *)
Theorem set_mask_replaces_the_tail {A : Type}
    (self : SetMask.layer A) (inputs : TF3.tensor3 A) (k : Z) :
  SetMask.num_mask_tokens self = Some k ->
  0 < k <= SetMask.set_size self ->
  Z.of_nat (length (SetMask.mask_embeddings self)) = k ->
  Z.of_nat (TF3.len inputs) = SetMask.set_size self ->
  TF3.dim inputs = SetMask.embed_dim self ->
  TF3.well_shaped inputs ->
  exists out masked marks,
    SetMask.call self inputs = Some out
    /\ SetMask.masked_embeddings self inputs = Some masked
    /\ SetMask.masked_embeddings self out = Some marks
    /\ TF3.len out = TF3.len inputs
    /\ Z.of_nat (TF3.len masked) = k
    /\ forall (b : nat) (s : list (list A)),
         TF3.items inputs !! b = Some s ->
         exists kept replaced,
           s = kept ++ replaced
           /\ Z.of_nat (length replaced) = k
           /\ TF3.items out !! b = Some (kept ++ SetMask.mask_embeddings self)
           /\ TF3.items masked !! b = Some replaced
           /\ TF3.items marks !! b = Some (SetMask.mask_embeddings self).
Proof.
  intros Hk Hrange Hweights Hlen Hdim Hshape.
  assert (Hcall : SetMask.call self inputs
                  = Some (TF3.Tensor3 (TF3.len inputs) (TF3.dim inputs)
                            ((fun s : list (list A) =>
                                take (TF3.len inputs - Z.to_nat k) s
                                ++ SetMask.mask_embeddings self)
                               <$> TF3.items inputs))).
  { unfold SetMask.call. rewrite Hk. cbn [mbind option_bind].
    destruct (decide (TF3.dim inputs = SetMask.embed_dim self)) as [_|?];
      [|contradiction].
    rewrite bound_of_nonneg by lia.
    replace (Z.to_nat (SetMask.set_size self - k)) with (TF3.len inputs - Z.to_nat k)%nat
      by lia.
    do 2 f_equal. lia. }
  assert (Hmasked : forall t : TF3.tensor3 A,
            TF3.len t = TF3.len inputs ->
            SetMask.masked_embeddings self t
            = Some (TF3.Tensor3 (Z.to_nat k) (TF3.dim t)
                      ((fun s : list (list A) => drop (TF3.len inputs - Z.to_nat k) s)
                         <$> TF3.items t))).
  { intros t Ht. unfold SetMask.masked_embeddings. rewrite Hk. cbn [mbind option_bind].
    rewrite Ht, bound_of_negative by lia. do 2 f_equal. lia. }
  eexists _, _, _. split; [exact Hcall|]. split; [apply Hmasked; reflexivity|].
  split; [apply Hmasked; reflexivity|].
  cbn [TF3.len TF3.items]. split; [reflexivity|]. split; [lia|].
  intros b s Hs.
  assert (Hsl : length s = TF3.len inputs).
  { eapply Forall_lookup_1 in Hshape; [apply Hshape|exact Hs]. }
  exists (take (TF3.len inputs - Z.to_nat k) s), (drop (TF3.len inputs - Z.to_nat k) s).
  split; [symmetry; apply take_drop|].
  split; [rewrite length_drop; lia|].
  rewrite !list_lookup_fmap, Hs. cbn [fmap option_fmap option_map].
  split; [reflexivity|]. split; [reflexivity|]. f_equal.
  replace (TF3.len inputs - Z.to_nat k)%nat
    with (length (take (TF3.len inputs - Z.to_nat k) s)) at 1
    by (rewrite length_take; lia).
  apply drop_app_length.
Qed.

Lemma set_mask_replaces_the_tail_witness :
  SetMask.call example_set_mask example_set
  = Some (TF3.Tensor3 4 2 [[[1; 1]; [2; 2]; [-1; -1]; [-2; -2]]])
  /\ exists out masked,
       SetMask.call example_set_mask example_set = Some out
       /\ SetMask.masked_embeddings example_set_mask example_set = Some masked
       /\ TF3.len out = 4%nat.
Proof.
  split; [vm_compute; reflexivity|].
  destruct (set_mask_replaces_the_tail example_set_mask example_set 2)
    as (out & masked & marks & Hcall & Hmasked & _ & Hlen & _).
  - vm_compute. reflexivity.
  - simpl. lia.
  - reflexivity.
  - reflexivity.
  - reflexivity.
  - repeat constructor.
  - exists out, masked. split; [exact Hcall|]. split; [exact Hmasked|exact Hlen].
Defined.

(** X19.  When [num_mask_tokens] is 0, as it is whenever
    [set_size * mask_ratio] is below 1, [call] returns its input, and
    [masked_embeddings] does not return an empty selection: the slice
    [inputs[:, -0:, :]] is the whole input. *)
Theorem set_mask_without_mask_tokens {A : Type}
    (self : SetMask.layer A) (inputs : TF3.tensor3 A) :
  SetMask.num_mask_tokens self = Some 0 ->
  SetMask.mask_embeddings self = [] ->
  Z.of_nat (TF3.len inputs) <= SetMask.set_size self ->
  TF3.dim inputs = SetMask.embed_dim self ->
  TF3.well_shaped inputs ->
  SetMask.call self inputs = Some inputs
  /\ SetMask.masked_embeddings self inputs = Some inputs.
Proof.
  intros Hk Hweights Hlen Hdim Hshape.
  unfold SetMask.call, SetMask.masked_embeddings. rewrite Hk, Hweights.
  cbn [mbind option_bind length].
  destruct (decide (TF3.dim inputs = SetMask.embed_dim self)) as [_|?]; [|contradiction].
  assert (Hstop : ChunkedEmbeddingLayer.bound (TF3.len inputs) (SetMask.set_size self - 0)
                  = TF3.len inputs).
  { unfold ChunkedEmbeddingLayer.bound.
    destruct (Z.ltb_spec (SetMask.set_size self - 0) 0); lia. }
  assert (Hstart : ChunkedEmbeddingLayer.bound (TF3.len inputs) (- 0) = 0%nat).
  { unfold ChunkedEmbeddingLayer.bound. change (- 0) with 0.
    destruct (Z.ltb_spec 0 0); lia. }
  rewrite Hstop, Hstart. split; f_equal.
  - replace (TF3.len inputs + 0)%nat with (TF3.len inputs) by lia.
    replace ((fun s : list (list A) => take (TF3.len inputs) s ++ []) <$> TF3.items inputs)
      with (TF3.items inputs); [destruct inputs; reflexivity|].
    rewrite <- (list_fmap_id (TF3.items inputs)) at 1.
    apply Forall_fmap_ext_1. eapply Forall_impl; [exact Hshape|].
    intros s [Hs _]. cbn. rewrite app_nil_r, take_ge by lia. reflexivity.
  - replace (TF3.len inputs - 0)%nat with (TF3.len inputs) by lia.
    replace ((fun s : list (list A) => drop 0 s) <$> TF3.items inputs)
      with (TF3.items inputs); [destruct inputs; reflexivity|].
    rewrite <- (list_fmap_id (TF3.items inputs)) at 1.
    apply list_fmap_ext. intros. reflexivity.
Qed.

Lemma set_mask_without_mask_tokens_witness :
  SetMask.masked_embeddings
    {| SetMask.embed_dim := 2; SetMask.set_size := 1;
       SetMask.mask_ratio := S754_finite false 4503599627370496 (-53);
       SetMask.mask_embeddings := [] |}
    (TF3.Tensor3 1 2 [[[1; 1]]])
  = Some (TF3.Tensor3 1 2 [[[1; 1]]]).
Proof.
  apply (set_mask_without_mask_tokens
           {| SetMask.embed_dim := 2; SetMask.set_size := 1;
              SetMask.mask_ratio := S754_finite false 4503599627370496 (-53);
              SetMask.mask_embeddings := ([] : list (list Z)) |}
           (TF3.Tensor3 1 2 [[[1; 1]]])).
  - vm_compute. reflexivity.
  - reflexivity.
  - simpl. lia.
  - reflexivity.
  - repeat constructor.
Defined.

(** ** [EmbeddingWithClassToken] *)

(** X20.  The class token has a row of the table to itself.  On
    identifiers in [0 .. num_tokens - 1], [call] returns for every row
    the table's last row, which no input identifier selects, followed by
    the rows of the identifiers; and the shape of the result is the one
    [compute_output_shape] gives. *)
Theorem class_token_has_its_own_row {A : Type}
    (self : EmbeddingWithClassToken.layer A) (inputs : TF.tensor2 Z) :
  0 <= EmbeddingWithClassToken.num_tokens self ->
  length (EmbeddingWithClassToken.embeddings self)
  = Z.to_nat (EmbeddingWithClassToken.num_tokens self + 1) ->
  TF.well_shaped inputs ->
  Forall (Forall (fun id => 0 <= id < EmbeddingWithClassToken.num_tokens self))
         (TF.rows inputs) ->
  exists out cls,
    EmbeddingWithClassToken.call self inputs = Some out
    /\ EmbeddingWithClassToken.embeddings self
         !! Z.to_nat (EmbeddingWithClassToken.num_tokens self) = Some cls
    /\ EmbeddingWithClassToken.compute_output_shape self
         [Z.of_nat (length (TF.rows inputs)); Z.of_nat (TF.cols inputs)]
       = Some [Z.of_nat (length (TF3.items out)); Z.of_nat (TF3.len out);
               Z.of_nat (TF3.dim out)]
    /\ forall (b : nat) (row : list Z),
         TF.rows inputs !! b = Some row ->
         exists s,
           TF3.items out !! b = Some s
           /\ length s = TF3.len out
           /\ s !! 0%nat = Some cls
           /\ forall (p : nat) (id : Z),
                row !! p = Some id ->
                s !! S p = EmbeddingWithClassToken.embeddings self !! Z.to_nat id
                /\ Z.to_nat id <> Z.to_nat (EmbeddingWithClassToken.num_tokens self).
Proof.
  intros Hn Htable Hshape Hids.
  destruct (lookup_lt_is_Some_2 (EmbeddingWithClassToken.embeddings self)
              (Z.to_nat (EmbeddingWithClassToken.num_tokens self))) as [cls Hcls]; [lia|].
  assert (Hrows : forall row,
            Forall (fun id => 0 <= id < EmbeddingWithClassToken.num_tokens self) row ->
            is_Some (mapM (EmbeddingWithClassToken.embedding self)
                          (EmbeddingWithClassToken.num_tokens self :: row))).
  { intros row Hrow. apply mapM_is_Some. constructor.
    - cbn. unfold EmbeddingWithClassToken.embedding.
      destruct (Z.leb_spec 0 (EmbeddingWithClassToken.num_tokens self)); [eauto|lia].
    - eapply Forall_impl; [exact Hrow|]. intros id Hid. cbn beta in Hid. cbn.
      unfold EmbeddingWithClassToken.embedding.
      destruct (Z.leb_spec 0 id); [|lia]. apply lookup_lt_is_Some_2. lia. }
  destruct (mapM (fun row : list Z =>
                    mapM (EmbeddingWithClassToken.embedding self)
                         (EmbeddingWithClassToken.num_tokens self :: row))
                 (TF.rows inputs)) as [vectors|] eqn:Hvectors.
  2:{ exfalso. assert (Hs : is_Some (mapM (fun row : list Z =>
                    mapM (EmbeddingWithClassToken.embedding self)
                         (EmbeddingWithClassToken.num_tokens self :: row))
                 (TF.rows inputs))).
      { apply mapM_is_Some. eapply Forall_impl; [exact Hids|].
        intros row Hrow. apply Hrows. exact Hrow. }
      rewrite Hvectors in Hs. destruct Hs as [? Hs]. discriminate Hs. }
  exists (TF3.Tensor3 (S (TF.cols inputs)) (EmbeddingWithClassToken.embed_dim self) vectors),
         cls.
  unfold EmbeddingWithClassToken.call. rewrite Hvectors. cbn [mbind option_bind].
  split; [reflexivity|]. split; [exact Hcls|].
  apply mapM_Some in Hvectors.
  cbn [TF3.items TF3.len TF3.dim]. split.
  { unfold EmbeddingWithClassToken.compute_output_shape. cbn.
    rewrite <- (Forall2_length _ _ _ Hvectors). do 3 f_equal. lia. }
  intros b row Hrow.
  destruct (Forall2_lookup_l _ _ _ _ _ Hvectors Hrow) as (s & Hs & Hmap).
  exists s. split; [exact Hs|].
  apply mapM_Some in Hmap.
  assert (Hrl : length row = TF.cols inputs).
  { eapply Forall_lookup_1 in Hshape; [exact Hshape|exact Hrow]. }
  split; [rewrite <- (Forall2_length _ _ _ Hmap); cbn; lia|].
  inversion Hmap as [|id0 v0 row0 s0 Hv0 Hrest]; subst. split.
  - cbn. unfold EmbeddingWithClassToken.embedding in Hv0.
    destruct (Z.leb_spec 0 (EmbeddingWithClassToken.num_tokens self)); [|lia].
    congruence.
  - intros p id Hp.
    assert (Hid : 0 <= id < EmbeddingWithClassToken.num_tokens self).
    { eapply Forall_lookup_1 in Hids; [|exact Hrow].
      eapply Forall_lookup_1 in Hids; [exact Hids|exact Hp]. }
    split; [|lia].
    destruct (Forall2_lookup_l _ _ _ _ _ Hrest Hp) as (v & Hv & Hemb).
    cbn [lookup list_lookup]. change (s0 !! p = EmbeddingWithClassToken.embeddings self
                                                   !! Z.to_nat id).
    rewrite Hv. unfold EmbeddingWithClassToken.embedding in Hemb.
    destruct (Z.leb_spec 0 id); [|lia]. congruence.
Qed.

Lemma class_token_has_its_own_row_witness :
  exists out,
    EmbeddingWithClassToken.call
      {| EmbeddingWithClassToken.num_tokens := 2; EmbeddingWithClassToken.embed_dim := 1;
         EmbeddingWithClassToken.mask_zero := false;
         EmbeddingWithClassToken.embeddings := [[10]; [11]; [12]] |}
      (TF.Tensor2 2 [[1; 0]]) = Some out
    /\ TF3.items out = [[[12]; [11]; [10]]].
Proof.
  destruct (class_token_has_its_own_row
              {| EmbeddingWithClassToken.num_tokens := 2;
                 EmbeddingWithClassToken.embed_dim := 1;
                 EmbeddingWithClassToken.mask_zero := false;
                 EmbeddingWithClassToken.embeddings := [[10]; [11]; [12]] |}
              (TF.Tensor2 2 [[1; 0]])) as (out & cls & Hcall & _).
  - simpl. lia.
  - reflexivity.
  - repeat constructor.
  - repeat constructor; simpl; lia.
  - exists out. split; [exact Hcall|].
    vm_compute in Hcall. injection Hcall as <-. reflexivity.
Defined.

(** ** [SampleSet] *)

Section TopK.

Lemma insert_desc_perm (x : nat * spec_float) (l : list (nat * spec_float)) :
  SampleSet.insert_desc x l ≡ₚ x :: l.
Proof.
  induction l as [|y l IH]; [reflexivity|].
  cbn [SampleSet.insert_desc]. destruct (IEEE.ge x.2 y.2); [reflexivity|].
  rewrite IH. apply Permutation_swap.
Qed.

Lemma sorted_perm (l : list (nat * spec_float)) :
  foldr SampleSet.insert_desc [] l ≡ₚ l.
Proof.
  induction l as [|x l IH]; [reflexivity|].
  cbn [foldr]. rewrite insert_desc_perm, IH. reflexivity.
Qed.

Lemma indices_of_row (row : list spec_float) :
  (imap pair row).*1 = seq 0 (length row).
Proof.
  apply list_eq. intros i. rewrite list_lookup_fmap, list_lookup_imap.
  destruct (row !! i) as [x|] eqn:Hx.
  - cbn. rewrite lookup_seq_lt by (eapply lookup_lt_Some; exact Hx). reflexivity.
  - cbn. symmetry. apply lookup_seq_ge. apply lookup_ge_None. exact Hx.
Qed.

(** [top_k] picks [k] different columns. *)
Lemma top_k_indices_distinct (row : list spec_float) (k : nat) :
  (k <= length row)%nat ->
  length (SampleSet.top_k_indices row k) = k
  /\ NoDup (SampleSet.top_k_indices row k)
  /\ Forall (fun i => (i < length row)%nat) (SampleSet.top_k_indices row k).
Proof.
  intros Hk. unfold SampleSet.top_k_indices.
  assert (Hperm : (foldr SampleSet.insert_desc [] (imap pair row)).*1
                  ≡ₚ seq 0 (length row)).
  { rewrite sorted_perm. rewrite indices_of_row. reflexivity. }
  split; [|split].
  - rewrite length_take, (Permutation_length Hperm), length_seq. lia.
  - eapply sublist_NoDup; [|apply sublist_take].
    rewrite Hperm. apply NoDup_seq.
  - apply Forall_take. rewrite Hperm. apply Forall_seq. intros j Hj. lia.
Qed.

End TopK.

(** X21.  [SampleSet] samples without replacement: for a size [n]
    between 1 and [max_set_size], every set of the result holds [n]
    vectors of the initial set of its batch entry, taken at [n]
    different positions. *)
Theorem sample_set_picks_distinct_vectors {A : Type}
    (self : SampleSet.layer) (sizes : list Z) (n : Z)
    (initial_set : TF3.tensor3 A) (uniform : TF.tensor2 spec_float) :
  head sizes = Some n ->
  0 < n <= Z.of_nat (SampleSet.max_set_size self) ->
  TF3.well_shaped initial_set ->
  TF3.len initial_set = SampleSet.max_set_size self ->
  TF.well_shaped uniform ->
  TF.cols uniform = SampleSet.max_set_size self ->
  length (TF.rows uniform) = length (TF3.items initial_set) ->
  exists out,
    SampleSet.call self sizes initial_set uniform = Some out
    /\ TF3.len out = Z.to_nat n
    /\ length (TF3.items out) = length (TF3.items initial_set)
    /\ forall (b : nat) (s : list (list A)),
         TF3.items initial_set !! b = Some s ->
         exists indices picked,
           TF3.items out !! b = Some picked
           /\ length indices = Z.to_nat n
           /\ NoDup indices
           /\ Forall2 (fun i v => s !! i = Some v) indices picked.
Proof.
  intros Hhead Hn Hset Hmax Huni Hcols Hbatch.
  unfold SampleSet.call. rewrite Hhead. cbn [mbind option_bind].
  destruct (decide (n < 0 \/ Z.of_nat (SampleSet.max_set_size self) < n)) as [?|_]; [lia|].
  destruct (decide (n = 0)) as [?|_]; [lia|].
  set (random_indices :=
         (fun row : list spec_float => SampleSet.top_k_indices row (Z.to_nat n))
           <$> TF.rows uniform).
  assert (Hpairs : forall b s indices,
            zip (TF3.items initial_set) random_indices !! b = Some (s, indices) ->
            TF3.items initial_set !! b = Some s
            /\ length indices = Z.to_nat n /\ NoDup indices
            /\ Forall (fun i => (i < length s)%nat) indices).
  { intros b s indices Hz.
    apply lookup_zip_with_Some in Hz as (s' & idx' & Heq & Hs & Hidx).
    injection Heq as <- <-. split; [exact Hs|].
    subst random_indices. rewrite list_lookup_fmap in Hidx.
    destruct (TF.rows uniform !! b) as [row|] eqn:Hrow; [|discriminate].
    cbn in Hidx. injection Hidx as <-.
    assert (Hrl : length row = SampleSet.max_set_size self).
    { eapply Forall_lookup_1 in Huni; [|exact Hrow]. cbn in Huni. lia. }
    assert (Hsl : length s = SampleSet.max_set_size self).
    { eapply Forall_lookup_1 in Hset; [|exact Hs]. cbn in Hset. lia. }
    destruct (top_k_indices_distinct row (Z.to_nat n)) as (Hl & Hnd & Hlt); [lia|].
    split; [exact Hl|]. split; [exact Hnd|]. rewrite Hsl, <- Hrl. exact Hlt. }
  destruct (mapM (fun '(s, indices) =>
                    mapM (fun i : nat => (s : list (list A)) !! i) indices)
                 (zip (TF3.items initial_set) random_indices)) as [sampled|] eqn:Hsampled.
  2:{ exfalso.
      assert (Hs : is_Some (mapM (fun '(s, indices) =>
                    mapM (fun i : nat => (s : list (list A)) !! i) indices)
                 (zip (TF3.items initial_set) random_indices))).
      { apply mapM_is_Some. apply Forall_lookup. intros b [s indices] Hz.
        destruct (Hpairs b s indices Hz) as (_ & _ & _ & Hlt).
        cbn. apply mapM_is_Some. eapply Forall_impl; [exact Hlt|].
        intros i Hi. cbn. apply lookup_lt_is_Some_2. exact Hi. }
      rewrite Hsampled in Hs. destruct Hs as [? Hs]. discriminate Hs. }
  cbn [mbind option_bind]. eexists. split; [reflexivity|].
  cbn [TF3.len TF3.items]. split; [reflexivity|].
  apply mapM_Some in Hsampled.
  assert (Hzl : length (zip (TF3.items initial_set) random_indices)
                = length (TF3.items initial_set)).
  { rewrite length_zip. subst random_indices. rewrite length_fmap. lia. }
  split; [rewrite <- (Forall2_length _ _ _ Hsampled); exact Hzl|].
  intros b s Hs.
  destruct (lookup_lt_is_Some_2 (zip (TF3.items initial_set) random_indices) b)
    as [[s' indices] Hz].
  { rewrite Hzl. eapply lookup_lt_Some. exact Hs. }
  destruct (Hpairs b s' indices Hz) as (Hs' & Hl & Hnd & _).
  assert (s' = s) as -> by congruence.
  destruct (Forall2_lookup_l _ _ _ _ _ Hsampled Hz) as (picked & Hpicked & Hmap).
  exists indices, picked. split; [exact Hpicked|]. split; [exact Hl|].
  split; [exact Hnd|]. apply mapM_Some in Hmap. exact Hmap.
Qed.

Lemma sample_set_picks_distinct_vectors_witness :
  exists out,
    SampleSet.call {| SampleSet.max_set_size := 3; SampleSet.embed_dim := 1 |} [2]
      (TF3.Tensor3 3 1 [[[10]; [20]; [30]]])
      (TF.Tensor2 3 [[F32.half; F32.zero; F32.one]]) = Some out
    /\ TF3.items out = [[[30]; [10]]].
Proof.
  destruct (sample_set_picks_distinct_vectors
              {| SampleSet.max_set_size := 3; SampleSet.embed_dim := 1 |} [2] 2
              (TF3.Tensor3 3 1 [[[10]; [20]; [30]]])
              (TF.Tensor2 3 [[F32.half; F32.zero; F32.one]])) as (out & Hcall & _).
  - reflexivity.
  - simpl. lia.
  - repeat constructor.
  - reflexivity.
  - repeat constructor.
  - reflexivity.
  - reflexivity.
  - exists out. split; [exact Hcall|].
    vm_compute in Hcall. injection Hcall as <-. reflexivity.
Defined.

(** ** [build_attribution_tree] *)

Section Drawing.
#[local] Set Warnings "-clear-no-such-hyp".

(** Every vertex of the graph has a label, and every edge joins two
    vertices. *)
Lemma graph_is_labelled (metadata_key : list string -> list string)
    (iter : gset (Z * Z) -> list (Z * Z))
    (store : gmap string attention_attribution.value) (tau : spec_float)
    (r : attention_attribution.attribution) :
  attention_attribution.token_attribution metadata_key iter store tau = Some r ->
  (forall v, v ∈ attention_attribution.tree_vertices r ->
             is_Some (attention_attribution.token_id_map r !! v))
  /\ (forall i j, (i, j) ∈ attention_attribution.tree_edges r ->
        i ∈ attention_attribution.tree_vertices r
        /\ j ∈ attention_attribution.tree_vertices r).
Proof.
  intros H.
  apply token_attribution_stages in H
    as (n & token_ids & shape & shape0 & acc & top & t
        & _ & Hids & _ & _ & Hacc & Htop & Htree & ->).
  cbn [attention_attribution.token_id_map attention_attribution.tree_vertices
       attention_attribution.tree_edges].
  pose proof (collect_numbered _ _ _ _ Hids) as Hnum. unfold numbered in Hnum.
  pose proof (collect_one_to_one _ _ _ _ Hids) as Hinj.
  assert (Htopin : top ∈ map_img (SA := gset Z) token_ids).
  { eapply top_node_known; [|exact Hacc|exact Htop]. reflexivity. }
  rewrite Hnum in Htopin, Htree.
  destruct (attribution_tree_shape _ _ _ _ _ _ Htopin Htree)
    as (_ & _ & Hvs & Hes & _).
  split.
  - intros v Hv. destruct (Hvs v Hv) as [->|Hin].
    + rewrite lookup_insert_eq. eauto.
    + assert (Hv0 : 0 <= v) by lia.
      apply elem_of_id_range in Hin. rewrite <- Hnum in Hin.
      apply elem_of_map_img in Hin as [name Hname].
      exists name. rewrite lookup_insert_ne by lia.
      apply reverse_lookup; assumption.
  - intros i j Hij. destruct (Hes i j Hij) as (Hi & Hj & _). split; assumption.
Qed.

(** The loop over the edges draws each labelled edge once, reversed. *)
Lemma draw_loop (node_labels : gmap Z string) (es : list (Z * Z)) :
  forall acc : gset (string * string) * list (string * string),
  (forall i j, (i, j) ∈ es ->
     is_Some (node_labels !! i) /\ is_Some (node_labels !! j)) ->
  NoDup acc.2 ->
  (forall a b, (a, b) ∈ acc.2 <-> (b, a) ∈ acc.1) ->
  exists acc',
    attention_attribution.for_each es
      (fun (acc : gset (string * string) * list (string * string)) '(i, j) =>
         i ← node_labels !! i;
         j ← node_labels !! j;
         if decide ((i, j) ∈ acc.1) then Some acc
         else Some ({[ (i, j) ]} ∪ acc.1, acc.2 ++ [(j, i)]))
      acc = Some acc'
    /\ NoDup acc'.2
    /\ (forall a b, (a, b) ∈ acc'.2 <-> (b, a) ∈ acc'.1)
    /\ forall a b, (a, b) ∈ acc'.2 <->
         (a, b) ∈ acc.2
         \/ exists i j, (i, j) ∈ es /\ node_labels !! i = Some b
                        /\ node_labels !! j = Some a.
Proof.
  induction es as [|[i j] es IH]; intros acc Hlab Hnd Hrev.
  - exists acc. split; [reflexivity|]. split; [exact Hnd|]. split; [exact Hrev|].
    intros a b. split; [auto|]. intros [H|(i & j & H & _)]; [exact H|].
    inversion H.
  - destruct (Hlab i j) as [[li Hli] [lj Hlj]]; [constructor|].
    cbn [attention_attribution.for_each]. rewrite Hli. cbn [mbind option_bind].
    rewrite Hlj. cbn [mbind option_bind].
    assert (Hlab' : forall i0 j0, (i0, j0) ∈ es ->
              is_Some (node_labels !! i0) /\ is_Some (node_labels !! j0)).
    { intros i0 j0 Hin. apply Hlab. constructor. exact Hin. }
    destruct (decide ((li, lj) ∈ acc.1)) as [Hold|Hnew]; cbn [mbind option_bind].
    + destruct (IH acc Hlab' Hnd Hrev) as (acc' & Hrun & Hnd' & Hrev' & Hdrawn).
      exists acc'. split; [exact Hrun|]. split; [exact Hnd'|]. split; [exact Hrev'|].
      intros a b. rewrite Hdrawn. split.
      * intros [H|(i0 & j0 & Hin & Hi0 & Hj0)]; [left; exact H|].
        right. exists i0, j0. split; [constructor; exact Hin|]. split; assumption.
      * intros [H|(i0 & j0 & Hin & Hi0 & Hj0)]; [left; exact H|].
        apply elem_of_cons in Hin as [Heq|Hin].
        -- injection Heq as -> ->. left. apply Hrev.
           assert (b = li) as -> by congruence. assert (a = lj) as -> by congruence.
           exact Hold.
        -- right. exists i0, j0. split; [exact Hin|]. split; assumption.
    + destruct (IH ({[ (li, lj) ]} ∪ acc.1, acc.2 ++ [(lj, li)]) Hlab')
        as (acc' & Hrun & Hnd' & Hrev' & Hdrawn).
      * cbn [snd]. apply NoDup_app. split; [exact Hnd|]. split; [|apply NoDup_singleton].
        intros x Hx Hx'. apply list_elem_of_singleton in Hx'. subst x.
        apply Hrev in Hx. contradiction.
      * intros a b. cbn [fst snd].
        rewrite elem_of_app, list_elem_of_singleton, elem_of_union, elem_of_singleton,
          Hrev.
        split; [intros [H|H]; [right; exact H|left; congruence]|].
        intros [H|H]; [right; congruence|left; exact H].
      * exists acc'. split; [exact Hrun|]. split; [exact Hnd'|]. split; [exact Hrev'|].
        intros a b. rewrite Hdrawn. cbn [snd].
        rewrite elem_of_app, list_elem_of_singleton. split.
        -- intros [[H|Heq]|(i0 & j0 & Hin & Hi0 & Hj0)].
           ++ left. exact H.
           ++ injection Heq as -> ->. right. exists i, j.
              split; [constructor|]. split; assumption.
           ++ right. exists i0, j0. split; [constructor; exact Hin|]. split; assumption.
        -- intros [H|(i0 & j0 & Hin & Hi0 & Hj0)]; [left; left; exact H|].
           apply elem_of_cons in Hin as [Heq|Hin].
           ++ injection Heq as -> ->. left. right. congruence.
           ++ right. exists i0, j0. split; [exact Hin|]. split; assumption.
Qed.

End Drawing.

(** X22.  The graph [token_attribution] returns can always be drawn:
    given its vertices, its edges and its [token_id_map],
    [build_attribution_tree] raises no [KeyError].  It makes one node
    statement per vertex, and draws every edge [(i, j)] as an edge from
    the label of [j] to the label of [i], once per pair of labels. *)
Theorem attribution_graph_can_be_drawn
    (metadata_key : list string -> list string)
    (iter : gset (Z * Z) -> list (Z * Z))
    (iter_v : gset Z -> list Z) (iter_e : gset (Z * Z) -> list (Z * Z))
    (store : gmap string attention_attribution.value) (tau : spec_float)
    (r : attention_attribution.attribution) :
  (forall s v, v ∈ iter_v s -> v ∈ s) ->
  (forall s e, e ∈ iter_e s -> e ∈ s) ->
  attention_attribution.token_attribution metadata_key iter store tau = Some r ->
  exists g,
    attribution_graph.build_attribution_tree iter_v iter_e
      (attention_attribution.tree_vertices r) (attention_attribution.tree_edges r)
      (attention_attribution.token_id_map r) = Some g
    /\ Forall2 (fun v label => attention_attribution.token_id_map r !! v = Some label)
               (iter_v (attention_attribution.tree_vertices r)) (graphviz.nodes g)
    /\ NoDup (graphviz.edges g)
    /\ (forall a b, (a, b) ∈ graphviz.edges g <->
          exists i j, (i, j) ∈ iter_e (attention_attribution.tree_edges r)
                      /\ attention_attribution.token_id_map r !! i = Some b
                      /\ attention_attribution.token_id_map r !! j = Some a)
    /\ graphviz.graph_attr g !! "rankdir" = Some "BT".
Proof.
  intros Hv He Hr. destruct (graph_is_labelled _ _ _ _ _ Hr) as [Hlabel Hedge].
  unfold attribution_graph.build_attribution_tree.
  destruct (mapM (fun vertex => attention_attribution.token_id_map r !! vertex)
                 (iter_v (attention_attribution.tree_vertices r)))
    as [nodes|] eqn:Hnodes.
  2:{ exfalso.
      assert (Hs : is_Some (mapM (fun vertex =>
                              attention_attribution.token_id_map r !! vertex)
                            (iter_v (attention_attribution.tree_vertices r)))).
      { apply mapM_is_Some. apply Forall_forall. intros v Hin. cbn.
        apply Hlabel. eapply Hv. exact Hin. }
      rewrite Hnodes in Hs. destruct Hs as [? Hs]. discriminate Hs. }
  cbn [mbind option_bind].
  destruct (draw_loop (attention_attribution.token_id_map r)
              (iter_e (attention_attribution.tree_edges r)) (∅, []))
    as (acc' & Hrun & Hnd & _ & Hdrawn).
  - intros i j Hin. apply He in Hin. destruct (Hedge i j Hin) as [Hi Hj].
    split; apply Hlabel; assumption.
  - apply NoDup_nil_2.
  - intros a b. cbn. split; intros H; [inversion H|apply elem_of_empty in H; contradiction].
  - rewrite Hrun. cbn [mbind option_bind]. eexists. split; [reflexivity|].
    cbn [graphviz.nodes graphviz.edges graphviz.graph_attr].
    split; [apply mapM_Some; exact Hnodes|]. split; [exact Hnd|]. split.
    + intros a b. rewrite Hdrawn. cbn [snd]. split.
      * intros [H|H]; [inversion H|exact H].
      * intros H. right. exact H.
    + apply lookup_singleton_eq.
Qed.

Lemma attribution_graph_can_be_drawn_witness :
  exists r g,
    attention_attribution.token_attribution id elements example_store tau_default
    = Some r
    /\ attribution_graph.build_attribution_tree elements elements
         (attention_attribution.tree_vertices r) (attention_attribution.tree_edges r)
         (attention_attribution.token_id_map r) = Some g
    /\ NoDup (graphviz.edges g).
Proof.
  destruct (attention_attribution.token_attribution id elements example_store
              tau_default) as [r|] eqn:Hr.
  - destruct (attribution_graph_can_be_drawn id elements elements elements
                example_store tau_default r) as (g & Hg & _ & Hnd & _).
    + intros s v Hin. apply elem_of_elements. exact Hin.
    + intros s e Hin. apply elem_of_elements. exact Hin.
    + exact Hr.
    + exists r, g. split; [reflexivity|]. split; [exact Hg|exact Hnd].
  - vm_compute in Hr. discriminate Hr.
Defined.

(** ** [token_attribution]: a store without ["length"] *)

Section RecordCount.
Import attention_attribution.




End RecordCount.


